(** * Tolerant JSON recovery, validation and retry: a shallow embedding

    Embedding of [backend/utils/jsonParser.js] (parseJSON and its helpers),
    of the validation and retry code of [backend/services/aiDashboard.js]
    (generateComparisonInsights, validateComparisonData and the
    post-processing of generateIndustryInsights), and of the part of the
    controller that answers a comparison request and names the region of
    a postal code (generateComparisonData, getIndianRegionFromZipCode).

    Conventions of the embedding:
    - a JavaScript string is the list of its UTF-16 code units ([N]);
    - a JavaScript value reachable from parsed JSON is a [JVal] tree; an
      object is the list of its own properties in enumeration order, and
      an array carries, besides its elements, the named properties the
      code may assign to it;
    - a number is an exact decimal, [NaN] or an infinity (binary rounding
      of doubles is not modelled);
    - code that can throw returns a [result];
    - console logging is not modelled (it changes no value). *)

From Stdlib Require Import ZArith NArith Bool Ascii String Lia List.
Import ListNotations.

(** ** Strings as code-unit lists *)

Definition char := N.
Definition jstring := list char.

Definition str (s : string) : jstring :=
  List.map N_of_ascii (list_ascii_of_string s).

(** A literal in which the tilde stands for the double quote (code 34). *)
Definition lit (s : string) : jstring :=
  List.map (fun c : N => if N.eqb c 126 then 34%N else c) (str s).

Definition ch (a : ascii) : char := N_of_ascii a.

Arguments str s : simpl never.
Arguments lit s : simpl never.

Fixpoint jstr_eqb (a b : jstring) : bool :=
  match a, b with
  | [], [] => true
  | x :: a', y :: b' => N.eqb x y && jstr_eqb a' b'
  | _, _ => false
  end.

Lemma jstr_eqb_spec (a b : jstring) : reflect (a = b) (jstr_eqb a b).
Proof.
  revert b; induction a as [|x a IH]; intros [|y b]; simpl;
    try (constructor; congruence).
  destruct (N.eqb_spec x y) as [->|Hxy]; simpl.
  - destruct (IH b) as [->|Hab]; constructor; congruence.
  - constructor; congruence.
Qed.

Lemma jstr_eqb_refl (a : jstring) : jstr_eqb a a = true.
Proof. destruct (jstr_eqb_spec a a); congruence. Qed.

Lemma jstr_eqb_eq (a b : jstring) : jstr_eqb a b = true <-> a = b.
Proof. destruct (jstr_eqb_spec a b); split; congruence. Qed.

Definition repeat_str (s : jstring) (n : nat) : jstring :=
  List.concat (List.repeat s n).

(** [String.prototype.indexOf] and [lastIndexOf] for a one-unit needle;
    [None] is the source's -1. *)
Fixpoint indexOf (c : char) (s : jstring) : option nat :=
  match s with
  | [] => None
  | x :: s' => if N.eqb x c then Some O
               else option_map S (indexOf c s')
  end.

Fixpoint lastIndexOf (c : char) (s : jstring) : option nat :=
  match s with
  | [] => None
  | x :: s' => match lastIndexOf c s' with
               | Some i => Some (S i)
               | None => if N.eqb x c then Some O else None
               end
  end.

(** [s.substring(a, b)] for [a <= b]. *)
Definition substring (a b : nat) (s : jstring) : jstring :=
  firstn (b - a) (skipn a s).

(** ** Regular expressions

    The subset of ECMAScript regular expressions the source uses:
    characters and classes, sequence, alternation, greedy [*] [+] [?],
    capture groups and the end anchor.  The matcher is the backtracking
    matcher of the language specification in continuation-passing style,
    so the match it reports is the one a JavaScript engine reports. *)

Inductive regex : Type :=
| Eps
| Chr (p : char -> bool)
| Seq (r1 r2 : regex)
| Alt (r1 r2 : regex)
| Star (r : regex)
| Grp (i : nat) (r : regex)
| Eos.

Definition captures := list (nat * jstring).

Fixpoint getcap (i : nat) (cs : captures) : jstring :=
  match cs with
  | [] => []
  | (j, s) :: cs' => if Nat.eqb i j then s else getcap i cs'
  end.

Section Matcher.
Variable A : Type.

Fixpoint rmatch (r : regex) (s : jstring) (cs : captures)
         (k : jstring -> captures -> option A) {struct r} : option A :=
  match r with
  | Eps => k s cs
  | Chr p => match s with
             | c :: s' => if p c then k s' cs else None
             | [] => None
             end
  | Seq r1 r2 => rmatch r1 s cs (fun s' cs' => rmatch r2 s' cs' k)
  | Alt r1 r2 => match rmatch r1 s cs k with
                 | Some x => Some x
                 | None => rmatch r2 s cs k
                 end
  | Star r1 =>
      (fix loop (n : nat) (s : jstring) (cs : captures) : option A :=
         match n with
         | O => k s cs
         | S n' =>
             match rmatch r1 s cs
                     (fun s' cs' =>
                        if Nat.ltb (length s') (length s)
                        then loop n' s' cs' else None) with
             | Some x => Some x
             | None => k s cs
             end
         end) (S (length s)) s cs
  | Grp i r1 =>
      rmatch r1 s cs
        (fun s' cs' =>
           k s' ((i, firstn (length s - length s') s) :: cs'))
  | Eos => match s with
           | [] => k s cs
           | _ :: _ => None
           end
  end.
End Matcher.
Arguments rmatch {A} r s cs k.

(** Character classes and derived forms. *)
Definition only (c : char) : char -> bool := N.eqb c.
Definition except (c : char) : char -> bool := fun x => negb (N.eqb c x).
Definition one_of (l : list char) : char -> bool :=
  fun x => existsb (N.eqb x) l.
Definition none_of (l : list char) : char -> bool :=
  fun x => negb (existsb (N.eqb x) l).

(** [\s]: WhiteSpace and LineTerminator code units. *)
Definition is_space (c : char) : bool :=
  one_of [9; 10; 11; 12; 13; 32; 160; 5760; 8232; 8233; 8239; 8287;
          12288; 65279]%N c
  || (N.leb 8192 c && N.leb c 8202).

Definition is_digit (c : char) : bool := N.leb 48 c && N.leb c 57.

(** [\w]: ASCII letters, digits and the underscore. *)
Definition is_word (c : char) : bool :=
  is_digit c || (N.leb 65 c && N.leb c 90) || (N.leb 97 c && N.leb c 122)
  || N.eqb c 95.

Definition C (a : ascii) : regex := Chr (only (ch a)).
Definition ws : regex := Star (Chr is_space).
Definition Plus (r : regex) : regex := Seq r (Star r).
Definition Opt (r : regex) : regex := Alt r Eps.

Fixpoint Lit (s : jstring) : regex :=
  match s with
  | [] => Eps
  | c :: s' => Seq (Chr (only c)) (Lit s')
  end.

Fixpoint seq (rs : list regex) : regex :=
  match rs with
  | [] => Eps
  | [r] => r
  | r :: rs' => Seq r (seq rs')
  end.

(** A match starting at the head of [s]: the matched text, the rest and
    the captures. *)
Definition match_here (r : regex) (s : jstring)
  : option (jstring * jstring * captures) :=
  rmatch r s []
    (fun s' cs => Some (firstn (length s - length s') s, s', cs)).

(** [RegExp.prototype.test] for a regex without the sticky or global
    flag: is there a match at some position. *)
Fixpoint test (r : regex) (s : jstring) : bool :=
  match match_here r s with
  | Some _ => true
  | None => match s with
            | [] => false
            | _ :: s' => test r s'
            end
  end.

(** [s.replace(r, f)] with the global flag: every match, left to right,
    the search resuming after each match. *)
Fixpoint replace_from (fuel : nat) (r : regex)
         (f : jstring -> captures -> jstring) (s : jstring) : jstring :=
  match fuel with
  | O => s
  | S fuel' =>
      match match_here r s with
      | Some (m, rest, cs) =>
          match m with
          | [] => f m cs ++ match s with
                            | [] => []
                            | c :: s' => c :: replace_from fuel' r f s'
                            end
          | _ :: _ => f m cs ++ replace_from fuel' r f rest
          end
      | None => match s with
                | [] => []
                | c :: s' => c :: replace_from fuel' r f s'
                end
      end
  end.

Definition replace_all (r : regex) (f : jstring -> captures -> jstring)
           (s : jstring) : jstring :=
  replace_from (S (length s)) r f s.

(** [s.replace(r, f)] without the global flag: the first match only. *)
Fixpoint replace_first (r : regex) (f : jstring -> captures -> jstring)
         (s : jstring) : jstring :=
  match match_here r s with
  | Some (m, rest, cs) => f m cs ++ rest
  | None => match s with
            | [] => []
            | c :: s' => c :: replace_first r f s'
            end
  end.

Definition const_repl (t : jstring) : jstring -> captures -> jstring :=
  fun _ _ => t.

(** ** JavaScript values and completions *)

(** A finite number [Dec m d] is [m / 10^d]; it is canonical when [d = 0]
    or [m] is not a multiple of ten.  Negative zero is identified with
    zero. *)
Inductive number : Type :=
| NaN
| Inf (negative : bool)
| Dec (m : Z) (d : nat).

Unset Elimination Schemes.
Inductive JVal : Type :=
| JNull
| JBool (b : bool)
| JNum (n : number)
| JStr (s : jstring)
| JArr (l : list JVal) (ps : list (jstring * JVal))
| JObj (l : list (jstring * JVal)).
Set Elimination Schemes.

(** Induction over a value and, with it, over the elements of its arrays
    and the property values of its objects. *)
Fixpoint JVal_ind (P : JVal -> Prop)
    (Hnull : P JNull) (Hbool : forall b, P (JBool b))
    (Hnum : forall n, P (JNum n)) (Hstr : forall s, P (JStr s))
    (Harr : forall l ps, Forall P l -> Forall (fun kv => P (snd kv)) ps ->
                         P (JArr l ps))
    (Hobj : forall l, Forall (fun kv => P (snd kv)) l -> P (JObj l))
    (v : JVal) {struct v} : P v :=
  match v with
  | JNull => Hnull
  | JBool b => Hbool b
  | JNum n => Hnum n
  | JStr s => Hstr s
  | JArr l ps =>
      Harr l ps
           ((fix go (l : list JVal) : Forall P l :=
               match l with
               | [] => Forall_nil P
               | x :: l' =>
                   Forall_cons x
                     (JVal_ind P Hnull Hbool Hnum Hstr Harr Hobj x) (go l')
               end) l)
           ((fix go (l : list (jstring * JVal))
               : Forall (fun kv => P (snd kv)) l :=
               match l with
               | [] => Forall_nil _
               | kv :: l' =>
                   Forall_cons kv
                     (JVal_ind P Hnull Hbool Hnum Hstr Harr Hobj (snd kv))
                     (go l')
               end) ps)
  | JObj l =>
      Hobj l ((fix go (l : list (jstring * JVal))
                 : Forall (fun kv => P (snd kv)) l :=
                 match l with
                 | [] => Forall_nil _
                 | kv :: l' =>
                     Forall_cons kv
                       (JVal_ind P Hnull Hbool Hnum Hstr Harr Hobj (snd kv))
                       (go l')
                 end) l)
  end.

Definition JInt (z : Z) : JVal := JNum (Dec z 0).

Inductive exn_kind : Type := ErrorK | TypeErrorK | SyntaxErrorK.

Record exn : Type := MkExn { kind : exn_kind; message : jstring }.

Inductive result (A : Type) : Type :=
| Ok (a : A)
| Throw (e : exn).
Arguments Ok {A} a.
Arguments Throw {A} e.

Definition bind {A B : Type} (r : result A) (f : A -> result B) : result B :=
  match r with
  | Ok a => f a
  | Throw e => Throw e
  end.

Notation "'do' x <- r ; k" := (bind r (fun x => k))
  (at level 10, x name, r at level 100, k at level 200).

(** *** Property access *)

Fixpoint lookup (k : jstring) (l : list (jstring * JVal)) : option JVal :=
  match l with
  | [] => None
  | (k', v) :: l' => if jstr_eqb k k' then Some v else lookup k l'
  end.

(** [o[k] = v] on the property list of an ordinary object: an existing
    property keeps its place, a new one is added last. *)
Fixpoint assign (k : jstring) (v : JVal) (l : list (jstring * JVal))
  : list (jstring * JVal) :=
  match l with
  | [] => [(k, v)]
  | (k', v') :: l' => if jstr_eqb k k' then (k, v) :: l'
                      else (k', v') :: assign k v l'
  end.

(** [v.k] for a property name that no built-in prototype defines (every
    name the source reads is such a name): [None] is [undefined].  The
    read of a property of [null] throws and is modelled where it occurs. *)
Definition get (v : JVal) (k : jstring) : option JVal :=
  match v with
  | JObj l => lookup k l
  | JArr _ ps => lookup k ps
  | _ => None
  end.

Definition assignment_error : exn :=
  MkExn TypeErrorK (str "Cannot create property on a primitive value").

Definition null_access_error : exn :=
  MkExn TypeErrorK (str "Cannot read properties of null").

(** [v.k = x] in strict-mode code (both source files are modules), for a
    name that is neither an array index nor [length]: an object or array
    takes the property, anything else throws a TypeError. *)
Definition set (v : JVal) (k : jstring) (x : JVal) : result JVal :=
  match v with
  | JObj l => Ok (JObj (assign k x l))
  | JArr es ps => Ok (JArr es (assign k x ps))
  | _ => Throw assignment_error
  end.

(** ToBoolean; [undefined] is [None]. *)
Definition truthy (v : JVal) : bool :=
  match v with
  | JNull => false
  | JBool b => b
  | JNum NaN => false
  | JNum (Inf _) => true
  | JNum (Dec m _) => negb (Z.eqb m 0)
  | JStr s => match s with [] => false | _ => true end
  | JArr _ _ | JObj _ => true
  end.

Definition truthy_opt (o : option JVal) : bool :=
  match o with
  | Some v => truthy v
  | None => false
  end.

Inductive js_type : Type :=
| TUndefined | TObject | TBoolean | TNumber | TString.

Definition typeof (o : option JVal) : js_type :=
  match o with
  | None => TUndefined
  | Some JNull | Some (JArr _ _) | Some (JObj _) => TObject
  | Some (JBool _) => TBoolean
  | Some (JNum _) => TNumber
  | Some (JStr _) => TString
  end.

Definition js_type_eqb (a b : js_type) : bool :=
  match a, b with
  | TUndefined, TUndefined | TObject, TObject | TBoolean, TBoolean
  | TNumber, TNumber | TString, TString => true
  | _, _ => false
  end.

Definition isArray (o : option JVal) : bool :=
  match o with
  | Some (JArr _ _) => true
  | _ => false
  end.

(** ** [JSON.parse]

    The JSON grammar of ECMA-404 as ECMAScript's [JSON.parse] reads it,
    by recursive descent.  The fuel bounds the number of nested calls; a
    text never needs more than twice its length. *)

Definition json_ws (c : char) : bool := one_of [9; 10; 13; 32]%N c.

Fixpoint skip_ws (s : jstring) : jstring :=
  match s with
  | c :: s' => if json_ws c then skip_ws s' else s
  | [] => []
  end.

Definition hex_val (c : char) : option N :=
  if is_digit c then Some (c - 48)%N
  else if N.leb 97 c && N.leb c 102 then Some (c - 87)%N
  else if N.leb 65 c && N.leb c 70 then Some (c - 55)%N
  else None.

Definition hex4 (a b c d : char) : option char :=
  match hex_val a, hex_val b, hex_val c, hex_val d with
  | Some x, Some y, Some z, Some w =>
      Some (((x * 16 + y) * 16 + z) * 16 + w)%N
  | _, _, _, _ => None
  end.

(** The code unit a one-letter escape stands for. *)
Definition unescape (c : char) : option char :=
  if N.eqb c 34 then Some 34%N          (* quote *)
  else if N.eqb c 92 then Some 92%N     (* backslash *)
  else if N.eqb c 47 then Some 47%N     (* slash *)
  else if N.eqb c 98 then Some 8%N      (* b *)
  else if N.eqb c 102 then Some 12%N    (* f *)
  else if N.eqb c 110 then Some 10%N    (* n *)
  else if N.eqb c 114 then Some 13%N    (* r *)
  else if N.eqb c 116 then Some 9%N     (* t *)
  else None.

(** The characters of a string literal after its opening quote, up to
    and including the closing quote. *)
Fixpoint parse_chars (s : jstring) : option (jstring * jstring) :=
  match s with
  | [] => None
  | c :: s' =>
      if N.eqb c 34 then Some ([], s')
      else if N.eqb c 92 then
        match s' with
        | [] => None
        | e :: s'' =>
            if N.eqb e 117 then
              match s'' with
              | h1 :: h2 :: h3 :: h4 :: s3 =>
                  match hex4 h1 h2 h3 h4 with
                  | Some u =>
                      match parse_chars s3 with
                      | Some (t, r) => Some (u :: t, r)
                      | None => None
                      end
                  | None => None
                  end
              | _ => None
              end
            else
              match unescape e with
              | Some u =>
                  match parse_chars s'' with
                  | Some (t, r) => Some (u :: t, r)
                  | None => None
                  end
              | None => None
              end
        end
      else if N.ltb c 32 then None
      else
        match parse_chars s' with
        | Some (t, r) => Some (c :: t, r)
        | None => None
        end
  end.

(** The longest prefix of decimal digits, as digit values. *)
Fixpoint span_digits (s : jstring) : list N * jstring :=
  match s with
  | c :: s' =>
      if is_digit c
      then let (ds, r) := span_digits s' in ((c - 48)%N :: ds, r)
      else ([], s)
  | [] => ([], [])
  end.

Definition digits_value (ds : list N) : N :=
  fold_left (fun acc d => (acc * 10 + d)%N) ds 0%N.

(** The canonical form of [m / 10^d]. *)
Fixpoint normalize (m : Z) (d : nat) : number :=
  match d with
  | O => Dec m 0
  | S d' => if Z.eqb (m mod 10) 0 then normalize (m / 10) d' else Dec m d
  end.

(** [m * 10^e] as a canonical number. *)
Definition decimal (m : Z) (e : Z) : number :=
  if Z.leb 0 e then Dec (m * 10 ^ e) 0 else normalize m (Z.to_nat (- e)).

(** The integer part: a single zero, or digits not starting with zero. *)
Definition parse_int (s : jstring) : option (list N * jstring) :=
  match s with
  | c :: s' =>
      if N.eqb c 48 then Some ([0%N], s')
      else if is_digit c then Some (span_digits s)
      else None
  | [] => None
  end.

Definition parse_frac (s : jstring) : option (list N * jstring) :=
  match s with
  | c :: s' =>
      if N.eqb c 46 then
        match span_digits s' with
        | ([], _) => None
        | (ds, r) => Some (ds, r)
        end
      else Some ([], s)
  | [] => Some ([], s)
  end.

Definition parse_exp (s : jstring) : option (Z * jstring) :=
  match s with
  | c :: s' =>
      if N.eqb c 101 || N.eqb c 69 then
        let (neg, s1) :=
          match s' with
          | x :: s'' => if N.eqb x 45 then (true, s'')
                        else if N.eqb x 43 then (false, s'')
                        else (false, s')
          | [] => (false, s')
          end in
        match span_digits s1 with
        | ([], _) => None
        | (ds, r) =>
            let e := Z.of_N (digits_value ds) in
            Some (if neg then (- e)%Z else e, r)
        end
      else Some (0%Z, s)
  | [] => Some (0%Z, s)
  end.

Definition parse_number (s : jstring) : option (number * jstring) :=
  let (neg, s0) :=
    match s with
    | c :: s' => if N.eqb c 45 then (true, s') else (false, s)
    | [] => (false, s)
    end in
  match parse_int s0 with
  | None => None
  | Some (i, s1) =>
      match parse_frac s1 with
      | None => None
      | Some (f, s2) =>
          match parse_exp s2 with
          | None => None
          | Some (e, s3) =>
              let m := Z.of_N (digits_value (i ++ f)) in
              Some (decimal (if neg then (- m)%Z else m)
                            (e - Z.of_nat (length f)), s3)
          end
      end
  end.

(** A keyword at the head of the text. *)
Fixpoint strip_prefix (p s : jstring) : option jstring :=
  match p, s with
  | [], _ => Some s
  | x :: p', y :: s' => if N.eqb x y then strip_prefix p' s' else None
  | _ :: _, [] => None
  end.

(** The object a member list builds: a repeated key keeps its first
    place and takes the last value. *)
Definition build_object (ms : list (jstring * JVal)) : list (jstring * JVal) :=
  fold_left (fun o kv => assign (fst kv) (snd kv) o) ms [].

Fixpoint parse_value (n : nat) (s : jstring) {struct n}
  : option (JVal * jstring) :=
  match n with
  | O => None
  | S n' =>
      match s with
      | [] => None
      | c :: s' =>
          if N.eqb c 123 then                       (* object *)
            match skip_ws s' with
            | [] => None
            | x :: r =>
                if N.eqb x 125 then Some (JObj [], r)
                else
                  match parse_members n' (x :: r) with
                  | Some (ms, r') => Some (JObj (build_object ms), r')
                  | None => None
                  end
            end
          else if N.eqb c 91 then                   (* array *)
            match skip_ws s' with
            | [] => None
            | x :: r =>
                if N.eqb x 93 then Some (JArr [] [], r)
                else
                  match parse_elements n' (x :: r) with
                  | Some (vs, r') => Some (JArr vs [], r')
                  | None => None
                  end
            end
          else if N.eqb c 34 then                   (* string *)
            match parse_chars s' with
            | Some (t, r) => Some (JStr t, r)
            | None => None
            end
          else if N.eqb c 116 then
            option_map (pair (JBool true)) (strip_prefix (str "true") s)
          else if N.eqb c 102 then
            option_map (pair (JBool false)) (strip_prefix (str "false") s)
          else if N.eqb c 110 then
            option_map (pair JNull) (strip_prefix (str "null") s)
          else
            match parse_number s with
            | Some (x, r) => Some (JNum x, r)
            | None => None
            end
      end
  end

(** Elements after the opening bracket, up to the closing one. *)
with parse_elements (n : nat) (s : jstring) {struct n}
  : option (list JVal * jstring) :=
  match n with
  | O => None
  | S n' =>
      match parse_value n' s with
      | None => None
      | Some (v, r) =>
          match skip_ws r with
          | [] => None
          | x :: r' =>
              if N.eqb x 93 then Some ([v], r')
              else if N.eqb x 44 then
                match parse_elements n' (skip_ws r') with
                | Some (vs, r'') => Some (v :: vs, r'')
                | None => None
                end
              else None
          end
      end
  end

(** Members after the opening brace, up to the closing one. *)
with parse_members (n : nat) (s : jstring) {struct n}
  : option (list (jstring * JVal) * jstring) :=
  match n with
  | O => None
  | S n' =>
      match s with
      | [] => None
      | q :: s' =>
          if negb (N.eqb q 34) then None
          else
            match parse_chars s' with
            | None => None
            | Some (k, r0) =>
                match skip_ws r0 with
                | [] => None
                | c :: r1 =>
                    if negb (N.eqb c 58) then None
                    else
                      match parse_value n' (skip_ws r1) with
                      | None => None
                      | Some (v, r) =>
                          match skip_ws r with
                          | [] => None
                          | x :: r' =>
                              if N.eqb x 125 then Some ([(k, v)], r')
                              else if N.eqb x 44 then
                                match parse_members n' (skip_ws r') with
                                | Some (ms, r'') => Some ((k, v) :: ms, r'')
                                | None => None
                                end
                              else None
                          end
                      end
                end
            end
      end
  end.

(** The value of a whole JSON text, or [None] where [JSON.parse] throws
    a SyntaxError. *)
Definition json_value (s : jstring) : option JVal :=
  match parse_value (2 * length s + 2) (skip_ws s) with
  | Some (v, r) => match skip_ws r with
                   | [] => Some v
                   | _ :: _ => None
                   end
  | None => None
  end.

Example json_value_nested :
  json_value (lit "{~a~: [1, 2.50, -3e2, true, null], ~b~:{~c~:~x\nyA~}, ~a~:[0] }")
  = Some (JObj [(str "a", JArr [JInt 0] []);
                (str "b", JObj [(str "c", JStr (str "x" ++ [10%N] ++ str "yA"))])]).
Proof. vm_compute. reflexivity. Qed.

Example json_value_rejects :
  map json_value [lit "{~a~:1,}"; lit "[1 2]"; lit "{a:1}"; lit "01"; lit "1.";
                  lit "~a"; lit "nul"; lit ""; lit "{~a~:1} x"; lit "'a'"]
  = repeat None 10.
Proof. vm_compute. reflexivity. Qed.

(** ** Conversions to text *)

Definition join (sep : jstring) (parts : list jstring) : jstring :=
  match parts with
  | [] => []
  | p :: ps => p ++ concat (map (fun x => sep ++ x) ps)
  end.

(** The decimal digits of a natural number, most significant first, as
    digit values and as characters. *)
Fixpoint digit_values_aux (fuel : nat) (n : N) (acc : list N) : list N :=
  match fuel with
  | O => acc
  | S f => let acc' := (n mod 10)%N :: acc in
           if N.ltb n 10 then acc' else digit_values_aux f (n / 10) acc'
  end.

Definition digit_values (n : N) : list N :=
  digit_values_aux (S (N.to_nat (N.log2 n))) n [].

Definition digit_chars (ds : list N) : jstring := map (N.add 48) ds.

Definition N_digits (n : N) : jstring := digit_chars (digit_values n).

(** The digits without their trailing zeros, and how many were dropped. *)
Fixpoint drop_zeros (r : list N) (t : nat) : list N * nat :=
  match r with
  | d :: r' => if N.eqb d 0 then drop_zeros r' (S t) else (rev r, t)
  | [] => ([], t)
  end.

Definition strip_zeros (ds : list N) : list N * nat :=
  drop_zeros (rev ds) O.

(** Number::toString (radix 10) of the language specification, applied
    to the exact decimal: [sig] are the significant digits, [k] their
    number and [n] the position of the decimal point. *)
Definition number_to_string (x : number) : jstring :=
  match x with
  | NaN => str "NaN"
  | Inf false => str "Infinity"
  | Inf true => str "-Infinity"
  | Dec m d =>
      if Z.eqb m 0 then str "0"
      else
        let (sig, t) := strip_zeros (digit_values (Z.abs_N m)) in
        let k := Z.of_nat (length sig) in
        let n := (k + Z.of_nat t - Z.of_nat d)%Z in
        (if Z.ltb m 0 then str "-" else []) ++
        (if Z.leb k n && Z.leb n 21 then
           digit_chars sig ++ repeat 48%N (Z.to_nat (n - k))
         else if Z.ltb 0 n && Z.leb n 21 then
           digit_chars (firstn (Z.to_nat n) sig) ++ str "."
           ++ digit_chars (skipn (Z.to_nat n) sig)
         else if Z.ltb (-6) n && Z.leb n 0 then
           str "0." ++ repeat 48%N (Z.to_nat (- n)) ++ digit_chars sig
         else
           let e := (n - 1)%Z in
           let es := str (if Z.ltb e 0 then "e-" else "e+")
                     ++ N_digits (Z.abs_N e) in
           match sig with
           | [] => []
           | [c] => digit_chars [c] ++ es
           | c :: r => digit_chars [c] ++ str "." ++ digit_chars r ++ es
           end)
  end.

Definition hex_digit (n : N) : char :=
  if N.ltb n 10 then (48 + n)%N else (87 + n)%N.

Definition u_escape (c : char) : jstring :=
  [92; 117; hex_digit (c / 4096); hex_digit ((c / 256) mod 16);
   hex_digit ((c / 16) mod 16); hex_digit (c mod 16)]%N.

Definition is_lead (c : char) : bool := N.leb 55296 c && N.leb c 56319.
Definition is_trail (c : char) : bool := N.leb 56320 c && N.leb c 57343.

(** QuoteJSONString without the enclosing quotes. *)
Fixpoint quote_chars (s : jstring) : jstring :=
  match s with
  | [] => []
  | c :: s' =>
      if N.eqb c 34 then [92; 34]%N ++ quote_chars s'
      else if N.eqb c 92 then [92; 92]%N ++ quote_chars s'
      else if N.eqb c 8 then [92; 98]%N ++ quote_chars s'
      else if N.eqb c 12 then [92; 102]%N ++ quote_chars s'
      else if N.eqb c 10 then [92; 110]%N ++ quote_chars s'
      else if N.eqb c 13 then [92; 114]%N ++ quote_chars s'
      else if N.eqb c 9 then [92; 116]%N ++ quote_chars s'
      else if N.ltb c 32 then u_escape c ++ quote_chars s'
      else if is_lead c then
        match s' with
        | d :: s'' => if is_trail d then c :: d :: quote_chars s''
                      else u_escape c ++ quote_chars s'
        | [] => u_escape c
        end
      else if is_trail c then u_escape c ++ quote_chars s'
      else c :: quote_chars s'
  end.

Definition quote (s : jstring) : jstring := 34%N :: quote_chars s ++ [34%N].

(** [JSON.stringify(v)] with no replacer and no indentation.  A value of
    the model has no function-valued [toJSON]. *)
Fixpoint stringify (v : JVal) : jstring :=
  match v with
  | JNull => str "null"
  | JBool true => str "true"
  | JBool false => str "false"
  | JNum (Dec m d) => number_to_string (Dec m d)
  | JNum _ => str "null"
  | JStr s => quote s
  | JArr l _ => str "[" ++ join (str ",") (map stringify l) ++ str "]"
  | JObj l =>
      str "{" ++
      join (str ",")
           (map (fun kv => quote (fst kv) ++ str ":" ++ stringify (snd kv)) l)
      ++ str "}"
  end.

Definition conversion_error : exn :=
  MkExn TypeErrorK (str "Cannot convert object to primitive value").

Fixpoint sequence {A : Type} (l : list (result A)) : result (list A) :=
  match l with
  | [] => Ok []
  | r :: l' => do x <- r; do xs <- sequence l'; Ok (x :: xs)
  end.

(** [String(v)]: ToString, with OrdinaryToPrimitive on objects.  A plain
    object with an own [toString] property (never callable here) falls
    through to [valueOf], which yields no primitive, so the conversion
    throws; an array is joined, [null] elements giving the empty text
    (unless an own property hides [toString] or [join]). *)
Fixpoint ToString (v : JVal) : result jstring :=
  match v with
  | JNull => Ok (str "null")
  | JBool true => Ok (str "true")
  | JBool false => Ok (str "false")
  | JNum x => Ok (number_to_string x)
  | JStr s => Ok s
  | JArr l ps =>
      match lookup (str "toString") ps, lookup (str "join") ps with
      | Some _, _ => Throw conversion_error
      | None, Some _ => Ok (str "[object Array]")
      | None, None =>
          do parts <- sequence (map (fun x => match x with
                                              | JNull => Ok []
                                              | _ => ToString x
                                              end) l);
          Ok (join (str ",") parts)
      end
  | JObj l =>
      match lookup (str "toString") l with
      | Some _ => Throw conversion_error
      | None => Ok (str "[object Object]")
      end
  end.

Example stringify_sample :
  stringify (JObj [(str "a", JArr [JInt 1500; JNum (Dec (-25) 1); JNull;
                                   JNum (Dec 1 7); JNum (Dec 12 22)] []);
                   (str "b", JStr [34; 10; 1; 233]%N)])
  = lit "{~a~:[1500,-2.5,null,1e-7,1.2e-21],~b~:~\~\n\u0001" ++ [233%N] ++ lit "~}".
Proof. vm_compute. reflexivity. Qed.

(** ** jsonParser.js *)

Record options : Type := MkOptions {
  verbose : option bool;
  fallbackData : option JVal;
  dataType : option jstring
}.

(** [parseJSON(text)] called with no options object. *)
Definition no_options : options := MkOptions None None None.

Definition default {A : Type} (d : A) (o : option A) : A :=
  match o with
  | Some a => a
  | None => d
  end.

Definition count (c : char) (s : jstring) : nat :=
  length (filter (N.eqb c) s).

(** The four counters of the source's [counts] object, used to append the
    closers that are missing. *)
Definition balance (s : jstring) : jstring :=
  let opened := count (ch "{") s in
  let closed := count (ch "}") s in
  let s1 := if Nat.ltb closed opened
            then s ++ repeat_str (str "}") (opened - closed)
            else s in
  let opened := count (ch "[") s in
  let closed := count (ch "]") s in
  if Nat.ltb closed opened
  then s1 ++ repeat_str (str "]") (opened - closed)
  else s1.

Definition extractJSONString (inputText : jstring) : jstring :=
  match indexOf (ch "{") inputText, lastIndexOf (ch "}") inputText with
  | Some firstBrace, Some lastBrace =>
      if Nat.leb lastBrace firstBrace then inputText
      else substring firstBrace (lastBrace + 1) inputText
  | _, _ => inputText
  end.

Definition fixComparisonDataStructure (text type : jstring) : jstring :=
  let fixed := text in
  let fixed :=
    if jstr_eqb type (str "comparison")
       || jstr_eqb type (str "countryComparison") then
      let rolesSalariesRegex :=
        seq [Lit (lit "~rolesSalaries~"); ws; C ":"; ws; C "["; ws; C "{";
             Star (Chr (none_of [ch "}"; ch "]"])); Eos] in
      let fixed := if test rolesSalariesRegex fixed
                   then fixed ++ str "}]" else fixed in
      replace_all (seq [C "}"; Grp 1 ws; C "{"])
        (fun _ cs => str "}," ++ [10%N] ++ getcap 1 cs ++ str "{") fixed
    else fixed in
  if jstr_eqb type (str "comparison")
     || jstr_eqb type (str "roleComparison") then
    let requiredSkillsRegex :=
      seq [Lit (lit "~requiredSkills~"); ws; C ":"; ws; C "["; ws;
           Chr (only 34%N); Star (Chr (none_of [34%N; ch "]"])); Eos] in
    let fixed := if test requiredSkillsRegex fixed
                 then fixed ++ lit "~]" else fixed in
    replace_all (seq [Chr (only 34%N); Grp 1 ws; Chr (only 34%N)])
      (fun _ cs => lit "~," ++ [10%N] ++ getcap 1 cs ++ lit "~") fixed
  else fixed.

(** The chain of rewrites of [cleanText], one definition per [replace]
    call and in the order of the source. *)
Definition drop_trailing_commas (s : jstring) : jstring :=
  replace_all (seq [C ","; ws; C "}"]) (const_repl (str "}"))
    (replace_all (seq [C ","; ws; C "]"]) (const_repl (str "]")) s).

Definition quote_property_names : jstring -> jstring :=
  replace_all (seq [Grp 1 (Seq (Chr (one_of [ch "{"; ch ","])) ws);
                    Grp 2 (Plus (Chr is_word));
                    Grp 3 (Seq ws (C ":"))])
    (fun _ cs => getcap 1 cs ++ [34%N] ++ getcap 2 cs ++ [34%N] ++ getcap 3 cs).

Definition fix_single_quotes : jstring -> jstring :=
  replace_all (seq [C ":"; ws; C "'"; Grp 1 (Star (Chr (except (ch "'")))); C "'"])
    (fun _ cs => lit ":~" ++ getcap 1 cs ++ lit "~").

Definition fix_undefined_NaN (s : jstring) : jstring :=
  replace_all (seq [C ":"; ws; Lit (str "NaN")]) (const_repl (str ":0"))
    (replace_all (seq [C ":"; ws; Lit (str "undefined")])
       (const_repl (str ":null")) s).

Definition fix_missing_commas (s : jstring) : jstring :=
  replace_all (seq [C "]"; ws; C "["]) (const_repl (str "],"))
    (replace_all (seq [C "}"; ws; C "["]) (const_repl (str "},"))
       (replace_all (seq [C "]"; ws; C "{"]) (const_repl (str "],["))
          (replace_all (seq [C "}"; ws; C "{"]) (const_repl (str "},{")) s))).

Definition fix_closing_runs (s : jstring) : jstring :=
  replace_all (seq [Plus (C "}"); C "]"]) (const_repl (str "}]"))
    (replace_all (seq [Plus (C "]"); C "]"]) (const_repl (str "]]"))
       (replace_all (seq [Plus (C "}"); C "}"]) (const_repl (str "}}")) s)).

Definition fix_adjacent (s : jstring) : jstring :=
  replace_all (Lit (str "][")) (const_repl (str "],["))
    (replace_all (Lit (str "}{")) (const_repl (str "},{")) s).

Definition fix_truncated : jstring -> jstring :=
  replace_all (seq [Grp 1 (Chr (except (ch "}"))); ws; Eos])
    (fun m cs =>
       let p1 := getcap 1 cs in
       if jstr_eqb p1 (str "{") || jstr_eqb p1 (str "[")
          || jstr_eqb p1 (str ",") || jstr_eqb p1 (str ":")
       then p1 ++ str "null" else m).

(** The syntax rewrites of lines 68 to 97. *)
Definition syntax_rewrites (s : jstring) : jstring :=
  fix_truncated
    (fix_adjacent
       (fix_closing_runs
          (fix_missing_commas
             (fix_undefined_NaN
                (fix_single_quotes
                   (quote_property_names (drop_trailing_commas s))))))).

Definition strip_fences (s : jstring) : jstring :=
  replace_all (Lit (str "```")) (const_repl [])
    (replace_all (Lit (str "```json")) (const_repl []) s).

Definition cleanText (dataType inputText : jstring) : jstring :=
  let cleaned := strip_fences inputText in
  let cleaned := extractJSONString cleaned in
  let cleaned := syntax_rewrites cleaned in
  let cleaned :=
    if jstr_eqb dataType (str "comparison")
       || jstr_eqb dataType (str "countryComparison")
       || jstr_eqb dataType (str "roleComparison")
    then fixComparisonDataStructure cleaned dataType
    else cleaned in
  balance cleaned.

Example cleanText_unquoted :
  cleanText (str "general") (str "{name: 'Engineer', salary: 1000}")
  = lit "{~name~:~Engineer~, ~salary~: 1000}".
Proof. vm_compute. reflexivity. Qed.

Example cleanText_fenced :
  cleanText (str "general")
    (lit "Here you go: ```json {~a~: [1, 2,], ~b~: undefined,} ``` bye")
  = lit "{~a~: [1, 2], ~b~:null}".
Proof. vm_compute. reflexivity. Qed.

(** Method 7: the scan that deletes every closer for which no opener is
    left; the four numbers are the source's counters. *)
Fixpoint remove_extra_closers (s : jstring) (ob cb ok ck : nat) : jstring :=
  match s with
  | [] => []
  | c :: s' =>
      if N.eqb c (ch "{") then c :: remove_extra_closers s' (S ob) cb ok ck
      else if N.eqb c (ch "[") then c :: remove_extra_closers s' ob cb (S ok) ck
      else if N.eqb c (ch "}") then
        if Nat.ltb ob (S cb) then remove_extra_closers s' ob cb ok ck
        else c :: remove_extra_closers s' ob (S cb) ok ck
      else if N.eqb c (ch "]") then
        if Nat.ltb ok (S ck) then remove_extra_closers s' ob cb ok ck
        else c :: remove_extra_closers s' ob cb ok (S ck)
      else c :: remove_extra_closers s' ob cb ok ck
  end.

(** [Object.keys(v).length]; [Object.keys(null)] throws. *)
Definition keys_length (v : JVal) : result nat :=
  match v with
  | JNull => Throw (MkExn TypeErrorK
                      (str "Cannot convert undefined or null to object"))
  | JObj l => Ok (length l)
  | JArr l ps => Ok (length l + length ps)
  | JStr s => Ok (length s)
  | JBool _ | JNum _ => Ok O
  end.

Section ParseJSON.

(** The two libraries the parser imports, and the text of the engine's
    SyntaxError for an unparsable input. *)
Variable JSON5_parse : jstring -> result JVal.
Variable jsonrepair : jstring -> result jstring.
Variable syntax_error_message : jstring -> jstring.

Definition JSON_parse (s : jstring) : result JVal :=
  match json_value s with
  | Some v => Ok v
  | None => Throw (MkExn SyntaxErrorK (syntax_error_message s))
  end.

(** One numbered method of [parseJSON]: its name in the diagnostics and
    what its [try] block does with the cleaned text.  [None] is a block
    that ends without returning or throwing (its pattern did not
    match). *)
Definition method : Type := jstring * (jstring -> option (result JVal)).

Definition method1 : method :=
  (str "JSON.parse", fun cleanedText => Some (JSON_parse cleanedText)).

Definition method2 : method :=
  (str "JSON5", fun cleanedText => Some (JSON5_parse cleanedText)).

Definition method3 : method :=
  (str "jsonrepair",
   fun cleanedText =>
     Some (do repaired <- jsonrepair cleanedText; JSON_parse repaired)).

Definition method4 : method :=
  (str "truncation-fixing",
   fun cleanedText =>
     let fixedText := cleanedText in
     let fixedText :=
       if test (seq [Chr (one_of [ch "{"; ch ","]); ws; Chr (only 34%N);
                     Plus (Chr (except 34%N)); Chr (only 34%N); ws; C ":";
                     Grp 1 ws; Eos]) fixedText
       then fixedText ++ str "null" else fixedText in
     let fixedText :=
       if test (seq [C ","; ws; Eos]) fixedText
       then replace_first (seq [C ","; ws; Eos]) (const_repl []) fixedText
       else fixedText in
     Some (JSON_parse fixedText)).

Definition method5 : method :=
  (str "rolesSalaries-fixing",
   fun cleanedText =>
     let rolesSalariesRegex :=
       seq [Lit (lit "~rolesSalaries~"); ws; C ":"; ws; C "["; ws; C "{";
            Star (Chr (except (ch "}"))); C "}"; ws; Eos] in
     if test rolesSalariesRegex cleanedText
     then Some (JSON_parse (balance (cleanedText ++ str "]")))
     else None).

Definition method6 : method :=
  (str "nested-objects-fixing",
   fun cleanedText =>
     let nestedObjectRegex :=
       seq [Chr (only 34%N);
            Grp 1 (Alt (Lit (str "currentCountry"))
                       (Lit (str "targetCountry")));
            Chr (only 34%N); ws; C ":"; ws; C "{";
            Star (Chr (except (ch "}"))); C "}"; ws; Plus (C "}"); ws;
            Opt (C "]"); ws; Opt (C "]"); ws; Opt (C "}"); ws; Eos] in
     if test nestedObjectRegex cleanedText
     then Some (JSON_parse (balance cleanedText))
     else None).

Definition method7 : method :=
  (str "multiple-closing-braces-fixing",
   fun cleanedText =>
     if test (seq [Plus (C "}"); Plus (C "]"); Eos]) cleanedText
     then Some (JSON_parse (remove_extra_closers cleanedText 0 0 0 0))
     else None).

Definition methods : list method :=
  [method1; method2; method3; method4; method5; method6; method7].

(** One recorded failure: [{ method, error: error.message }]. *)
Definition attempt : Type := jstring * jstring.

(** The methods in turn: the first value returned, or the failures
    recorded by [logError] when no method returned. *)
Fixpoint run_methods (ms : list method) (cleanedText : jstring)
         (attempts : list attempt) : JVal + list attempt :=
  match ms with
  | [] => inr attempts
  | (name, body) :: ms' =>
      match body cleanedText with
      | Some (Ok v) => inl v
      | Some (Throw e) =>
          run_methods ms' cleanedText (attempts ++ [(name, message e)])
      | None => run_methods ms' cleanedText attempts
      end
  end.

Definition errorDetails (attempts : list attempt) : jstring :=
  join (str "; ")
       (map (fun a => fst a ++ str ": " ++ snd a) attempts).

Definition all_failed (attempts : list attempt) : exn :=
  MkExn ErrorK
    (str "All JSON parsing methods failed: " ++ errorDetails attempts).

Definition parseJSON (text : jstring) (opts : options) : result JVal :=
  let fallbackData := default (JObj []) (fallbackData opts) in
  let dataType := default (str "general") (dataType opts) in
  let cleanedText := cleanText dataType text in
  match run_methods methods cleanedText [] with
  | inl v => Ok v
  | inr attempts =>
      let error := all_failed attempts in
      do n <- keys_length fallbackData;
      if Nat.ltb 0 n then Ok fallbackData else Throw error
  end.

End ParseJSON.

(** ** aiDashboard.js: validateComparisonData *)

(** [v !== expected] for a string [expected]. *)
Definition differs (o : option JVal) (expected : jstring) : bool :=
  match o with
  | Some (JStr s) => negb (jstr_eqb s expected)
  | _ => true
  end.

Definition nat_to_string (n : nat) : jstring := N_digits (N.of_nat n).

(** The effect of [v.k = x] where [v] is known to be an object or an
    array; see [set_put]. *)
Definition put (v : JVal) (k : jstring) (x : JVal) : JVal :=
  match v with
  | JObj l => JObj (assign k x l)
  | JArr es ps => JArr es (assign k x ps)
  | _ => v
  end.

Definition is_object (v : JVal) : bool :=
  truthy v && js_type_eqb (typeof (Some v)) TObject.

Definition empty_array : JVal := JArr [] [].

(** The callback of [topCities.forEach]: the city as the callback leaves
    it and the messages it pushes. *)
Definition check_city (country : jstring) (index : nat) (city : JVal)
  : JVal * list jstring :=
  let path := str "countrySalaryComparison." ++ country ++ str ".topCities["
              ++ nat_to_string index ++ str "]" in
  if negb (truthy city) || negb (js_type_eqb (typeof (Some city)) TObject)
  then (city, [path ++ str " is not a valid object"])
  else if negb (isArray (get city (str "rolesSalaries")))
  then (put city (str "rolesSalaries") empty_array,
        [path ++ str ".rolesSalaries is not an array"])
  else (city, []).

Fixpoint check_cities (country : jstring) (index : nat) (cities : list JVal)
  : list JVal * list jstring :=
  match cities with
  | [] => ([], [])
  | city :: rest =>
      let (city', m) := check_city country index city in
      let (rest', ms) := check_cities country (S index) rest in
      (city' :: rest', m ++ ms)
  end.

(** The checks of one country below [data.countrySalaryComparison]
    ([key] is [currentCountry] or [targetCountry]): the comparison object
    after the checks, and the messages pushed. *)
Definition check_country (key expected : jstring) (comparison : JVal)
  : JVal * list jstring :=
  let path := str "countrySalaryComparison." ++ key in
  match get comparison key with
  | None => (comparison, [path])
  | Some country =>
      if negb (truthy country) then (comparison, [path])
      else
        let m1 := if differs (get country (str "name")) expected
                  then [path ++ str ".name (expected: " ++ expected ++ str ")"]
                  else [] in
        match get country (str "topCities") with
        | Some (JArr (c :: cs) ps) =>
            let (cities', ms) := check_cities key 0 (c :: cs) in
            (put comparison key
                 (put country (str "topCities") (JArr cities' ps)),
             m1 ++ ms)
        | _ => (comparison, m1 ++ [path ++ str ".topCities"])
        end
  end.

Definition nonempty_array (o : option JVal) : bool :=
  match o with
  | Some (JArr (_ :: _) _) => true
  | _ => false
  end.

Definition check_role (key expected : jstring) (roles : JVal) : list jstring :=
  let path := str "roleComparison." ++ key in
  match get roles key with
  | None => [path]
  | Some role =>
      if negb (truthy role) then [path]
      else
        (if differs (get role (str "title")) expected
         then [path ++ str ".title (expected: " ++ expected ++ str ")"]
         else [])
        ++ (if negb (nonempty_array (get role (str "requiredSkills")))
            then [path ++ str ".requiredSkills"] else [])
  end.

Record validation : Type := MkValidation {
  isComplete : bool;
  missingFields : list jstring
}.

Definition is_nil {A : Type} (l : list A) : bool :=
  match l with
  | [] => true
  | _ :: _ => false
  end.

(** [validateComparisonData]: the report it returns and, because it
    writes to the cities it visits, the data as it leaves them. *)
Definition validateComparisonData
           (data : JVal) (currentCountry targetCountry currentRole targetRole : jstring)
  : JVal * validation :=
  if negb (truthy data)
  then (data, MkValidation false [str "entire data structure"])
  else
    let (data, m1) :=
      match get data (str "countrySalaryComparison") with
      | None => (data, [str "countrySalaryComparison"])
      | Some comparison =>
          if negb (truthy comparison)
          then (data, [str "countrySalaryComparison"])
          else
            let (comparison, mc) :=
              check_country (str "currentCountry") currentCountry comparison in
            let (comparison, mt) :=
              check_country (str "targetCountry") targetCountry comparison in
            (put data (str "countrySalaryComparison") comparison, mc ++ mt)
      end in
    let m2 :=
      match get data (str "roleComparison") with
      | None => [str "roleComparison"]
      | Some roles =>
          if negb (truthy roles) then [str "roleComparison"]
          else
            check_role (str "currentRole") currentRole roles
            ++ check_role (str "targetRole") targetRole roles
            ++ (if negb (isArray (get roles (str "skillGaps")))
                then [str "roleComparison.skillGaps"] else [])
            ++ (if negb (isArray (get roles (str "transferableSkills")))
                then [str "roleComparison.transferableSkills"] else [])
      end in
    let m3 :=
      match get data (str "salaryExpectationAnalysis") with
      | None => [str "salaryExpectationAnalysis"]
      | Some analysis =>
          if negb (truthy analysis) then [str "salaryExpectationAnalysis"]
          else
            (if negb (js_type_eqb (typeof (get analysis (str "isRealistic")))
                                  TBoolean)
             then [str "salaryExpectationAnalysis.isRealistic"] else [])
            ++ (if negb (js_type_eqb (typeof (get analysis (str "percentile")))
                                     TNumber)
                then [str "salaryExpectationAnalysis.percentile"] else [])
            ++ (if negb (truthy_opt (get analysis (str "recommendation")))
                then [str "salaryExpectationAnalysis.recommendation"] else [])
      end in
    let missingFields := m1 ++ m2 ++ m3 in
    (data, MkValidation (is_nil missingFields) missingFields).

(** ** aiDashboard.js: generateComparisonInsights *)

(** The fields of [userData] the retry loop reads; the others only shape
    the prompt. *)
Record UserData : Type := MkUserData {
  currentCountry : option jstring;
  targetCountry : option jstring;
  currentRole : option jstring;
  targetRole : option jstring
}.

(** [field || fallback] for a string field: absent or empty selects the
    fallback. *)
Definition or_else (field : option jstring) (fallback : jstring) : jstring :=
  match field with
  | Some (c :: s) => c :: s
  | _ => fallback
  end.

Definition MAX_RETRIES : nat := 3.

(** The variables of the retry loop, and the number of calls made to the
    generation service so far. *)
Record loop_state : Type := MkLoop {
  attempts : nat;
  data : JVal;
  complete : bool;
  calls : nat
}.

Definition default_role (title : jstring) : JVal :=
  JObj [(str "title", JStr title);
        (str "requiredSkills", empty_array);
        (str "avgSalary", JInt 0);
        (str "growthOutlook", JStr (str "Neutral"));
        (str "demandLevel", JStr (str "Medium"))].

Definition default_roleComparison (currentRole targetRole : jstring) : JVal :=
  JObj [(str "currentRole", default_role currentRole);
        (str "targetRole", default_role targetRole);
        (str "skillGaps", empty_array);
        (str "transferableSkills", empty_array)].

Definition default_salaryExpectationAnalysis : JVal :=
  JObj [(str "isRealistic", JBool true);
        (str "differenceFromMedian", JInt 0);
        (str "percentile", JInt 50);
        (str "recommendation",
         JStr (str "No salary analysis available. Please try again later."))].

(** [v.k] as an expression: only the read of a property of [null]
    throws. *)
Definition read (v : JVal) (k : jstring) : result (option JVal) :=
  match v with
  | JNull => Throw null_access_error
  | _ => Ok (get v k)
  end.

Section Dashboard.

Variable JSON5_parse : jstring -> result JVal.
Variable jsonrepair : jstring -> result jstring.
Variable syntax_error_message : jstring -> jstring.

(** The environment of one invocation: whether the API key is set, the
    outcome of the n-th call of [model.generateContent] followed by
    [response.text()], and the clock read for [generatedAt]. *)
Variable GEMINI_API_KEY : bool.
Variable generateContent : nat -> result jstring.
Variable now : jstring.

Definition parse (text : jstring) (opts : options) : result JVal :=
  parseJSON JSON5_parse jsonrepair syntax_error_message text opts.

(** The body of the [while] loop; a failure of the call or of the
    parse is caught, and leaves [data] as it was. *)
Definition attempt_once (u : UserData) (st : loop_state) : loop_state :=
  let attempts := S (attempts st) in
  let calls := S (calls st) in
  match generateContent calls with
  | Throw _ => MkLoop attempts (data st) (complete st) calls
  | Ok text =>
      match parse text (MkOptions (Some true) None None) with
      | Throw _ => MkLoop attempts (data st) (complete st) calls
      | Ok parsed =>
          let (data, validationResult) :=
            validateComparisonData parsed
              (or_else (currentCountry u) (str "US"))
              (or_else (targetCountry u) (str "US"))
              (or_else (currentRole u) (str "Software Developer"))
              (or_else (targetRole u) (str "Software Developer")) in
          MkLoop attempts data
                 (if isComplete validationResult then true else complete st)
                 calls
      end
  end.

(** [while (attempts < MAX_RETRIES && !isComplete)], unrolled at most
    [fuel] times. *)
Fixpoint retry_loop (fuel : nat) (u : UserData) (st : loop_state)
  : loop_state :=
  match fuel with
  | O => st
  | S fuel' =>
      if Nat.ltb (attempts st) MAX_RETRIES && negb (complete st)
      then retry_loop fuel' u (attempt_once u st)
      else st
  end.

Definition meta (attempts : nat) (isComplete : bool) : JVal :=
  JObj [(str "generatedAt", JStr now);
        (str "source", JStr (str "Gemini AI"));
        (str "attempts", JInt (Z.of_nat attempts));
        (str "isComplete", JBool isComplete)].

(** The code after the loop: the backfill of an incomplete result and
    the metadata. *)
Definition finish (u : UserData) (st : loop_state) : result JVal :=
  let data := data st in
  do data <-
    (if negb (complete st) then
       do roles <- read data (str "roleComparison");
       do data <-
         (if negb (truthy_opt roles)
          then set data (str "roleComparison")
                   (default_roleComparison
                      (or_else (currentRole u) (str "Software Developer"))
                      (or_else (targetRole u) (str "Software Developer")))
          else Ok data);
       do analysis <- read data (str "salaryExpectationAnalysis");
       if negb (truthy_opt analysis)
       then set data (str "salaryExpectationAnalysis")
                default_salaryExpectationAnalysis
       else Ok data
     else Ok data);
  set data (str "_meta") (meta (attempts st) (complete st)).

Definition initial : loop_state := MkLoop 0 JNull false 0.

(** The value the returned promise settles with, and the number of
    generation calls the invocation made. *)
Definition generateComparisonInsights (u : UserData) : result JVal * nat :=
  if negb GEMINI_API_KEY
  then (Throw (MkExn ErrorK (str "API key configuration error")), O)
  else
    let st := retry_loop MAX_RETRIES u initial in
    (finish u st, calls st).

End Dashboard.

(** ** aiDashboard.js: generateIndustryInsights

    The code between the parse and the [return data] of the source
    ("Validate and sanitize the data"), then the function around it. *)

Definition number_or_string (o : option JVal) : bool :=
  js_type_eqb (typeof o) TNumber || js_type_eqb (typeof o) TString.

Definition has (item : JVal) (k : string) : bool :=
  truthy_opt (get item (str k)).

(** The predicates of the [filter] calls. *)
Definition quickInsight_ok (item : JVal) : bool :=
  is_object item && (has item "title" || has item "name")
  && (has item "type" || has item "category").

Definition marketDemand_ok (item : JVal) : bool :=
  is_object item && has item "skill"
  && number_or_string (get item (str "demandScore")).

Definition company_ok (item : JVal) : bool :=
  is_object item && has item "name".

Definition city_ok (item : JVal) : bool :=
  is_object item && has item "city"
  && number_or_string (get item (str "avgSalary")).

Definition roleSalary_ok (role : JVal) : bool :=
  is_object role && has role "role"
  && number_or_string (get role (str "minSalary"))
  && number_or_string (get role (str "medianSalary"))
  && number_or_string (get role (str "maxSalary")).

Definition careerPath_ok (item : JVal) : bool :=
  is_object item && has item "title" && has item "description".

Definition trend_ok (item : JVal) : bool :=
  is_object item && has item "name" && has item "description".

Definition course_ok (item : JVal) : bool :=
  is_object item && has item "name" && has item "platform".

Definition skillBoost_ok (item : JVal) : bool :=
  is_object item && has item "skill"
  && number_or_string (get item (str "salaryIncrease")).

(** [a || b || c || d]: the first truthy operand, else the last. *)
Fixpoint first_truthy (candidates : list (option JVal)) (last : JVal) : JVal :=
  match candidates with
  | [] => last
  | Some v :: rest => if truthy v then v else first_truthy rest last
  | None :: rest => first_truthy rest last
  end.

(** The callback of [company.roles.map]. *)
Definition role_text (role : JVal) : result JVal :=
  match role with
  | JStr s => Ok (JStr s)
  | _ =>
      if is_object role then
        do s <- ToString (first_truthy [get role (str "name");
                                        get role (str "title");
                                        get role (str "role")]
                                       (JStr (stringify role)));
        Ok (JStr s)
      else
        do s <- ToString role; Ok (JStr s)
  end.

(** The callback of the [map] over the filtered companies. *)
Definition fix_company (company : JVal) : result JVal :=
  match get company (str "roles") with
  | Some (JArr roles _) =>
      do texts <- sequence (map role_text roles);
      set company (str "roles") (JArr texts [])
  | _ => set company (str "roles") empty_array
  end.

(** The callback of the [map] over the filtered cities. *)
Definition fix_city (city : JVal) : result JVal :=
  match get city (str "rolesSalaries") with
  | Some (JArr roles _) =>
      set city (str "rolesSalaries") (JArr (filter roleSalary_ok roles) [])
  | _ => set city (str "rolesSalaries") empty_array
  end.

Definition arrayFields : list jstring :=
  map str ["marketDemand"; "quickInsights"; "topSkills"; "citySalaryData";
           "skillBasedBoosts"; "topCompanies"; "recommendedCourses";
           "careerPathInsights"; "emergingTrends"; "nextActions"]%string.

(** The [switch] on the field name: the array to store back, when a case
    of the switch is taken. *)
Definition validate_items (field : jstring) (items : list JVal)
  : result (option JVal) :=
  let is_field f := jstr_eqb field (str f) in
  let filtered ok := Ok (Some (JArr (filter ok items) [])) in
  if is_field "quickInsights"%string then filtered quickInsight_ok
  else if is_field "marketDemand"%string then filtered marketDemand_ok
  else if is_field "topCompanies"%string then
    do companies <- sequence (map fix_company (filter company_ok items));
    Ok (Some (JArr companies []))
  else if is_field "citySalaryData"%string then
    do cities <- sequence (map fix_city (filter city_ok items));
    Ok (Some (JArr cities []))
  else if is_field "careerPathInsights"%string then filtered careerPath_ok
  else if is_field "emergingTrends"%string then filtered trend_ok
  else if is_field "recommendedCourses"%string then filtered course_ok
  else if is_field "skillBasedBoosts"%string then filtered skillBoost_ok
  else Ok None.

(** The callback of [arrayFields.forEach]. *)
Definition process_field (data : JVal) (field : jstring) : result JVal :=
  match get data field with
  | Some (JArr items _) =>
      do replacement <- validate_items field items;
      match replacement with
      | Some array => set data field array
      | None => Ok data
      end
  | _ => set data field empty_array
  end.

Fixpoint forEach (fields : list jstring) (data : JVal) : result JVal :=
  match fields with
  | [] => Ok data
  | f :: rest => do data <- process_field data f; forEach rest data
  end.

Fixpoint trim_start (s : jstring) : jstring :=
  match s with
  | c :: s' => if is_space c then trim_start s' else s
  | [] => []
  end.

Definition trim (s : jstring) : jstring :=
  rev (trim_start (rev (trim_start s))).

Definition clean_overview (s : jstring) : jstring :=
  trim
    (replace_all (Plus (Chr is_space)) (const_repl (str " "))
       (replace_all (Lit [92; 34]%N) (const_repl [34%N])
          (replace_all (Lit [92; 110]%N) (const_repl [10%N]) s))).

Definition not_a_function : exn :=
  MkExn TypeErrorK (str "data.industryOverview.replace is not a function").

Definition process_overview (data : JVal) : result JVal :=
  let key := str "industryOverview" in
  match get data key with
  | Some overview =>
      if truthy overview then
        do data <-
          (if negb (js_type_eqb (typeof (Some overview)) TString)
           then do s <- ToString overview; set data key (JStr s)
           else Ok data);
        let attempt :=
          match get data key with
          | Some (JStr s) => set data key (JStr (clean_overview s))
          | _ => Throw not_a_function
          end in
        match attempt with
        | Ok data => Ok data
        | Throw _ =>
            set data key
              (JStr (str "Industry overview information not available due to formatting issues."))
        end
      else set data key (JStr (str "Industry overview information not available."))
  | None => set data key (JStr (str "Industry overview information not available."))
  end.

Definition default_salary_range : JVal :=
  JObj [(str "min", JInt 80000); (str "max", JInt 120000);
        (str "currency", JStr (str "USD"))].

Definition process_salary_range (data : JVal) : result JVal :=
  let key := str "expectedSalaryRange" in
  match get data key with
  | Some range =>
      if is_object range then Ok data else set data key default_salary_range
  | None => set data key default_salary_range
  end.

Definition validate_and_sanitize (data : JVal) : result JVal :=
  if negb (truthy data)
  then Throw (MkExn ErrorK (str "Empty data object after parsing"))
  else
    do data <- process_overview data;
    do data <- forEach arrayFields data;
    process_salary_range data.

Definition industry_fallbackData : JVal :=
  JObj [(str "growthRate", JInt 10);
        (str "demandLevel", JStr (str "Medium"));
        (str "topSkills", empty_array);
        (str "marketOutlook", JStr (str "Data unavailable due to parsing error"));
        (str "industryOverview",
         JStr (str "Industry overview information not available due to parsing error."));
        (str "marketDemand", empty_array);
        (str "expectedSalaryRange", default_salary_range);
        (str "citySalaryData", empty_array);
        (str "skillBasedBoosts", empty_array);
        (str "topCompanies", empty_array);
        (str "recommendedCourses", empty_array);
        (str "careerPathInsights", empty_array);
        (str "emergingTrends", empty_array);
        (str "quickInsights", empty_array)].

Section Insights.

Variable JSON5_parse : jstring -> result JVal.
Variable jsonrepair : jstring -> result jstring.
Variable syntax_error_message : jstring -> jstring.
Variable GEMINI_API_KEY : bool.
Variable generateContent : result jstring.

Definition rethrow (prefix : string) (r : result JVal) : result JVal :=
  match r with
  | Ok v => Ok v
  | Throw e => Throw (MkExn ErrorK (str prefix ++ message e))
  end.

Definition generateIndustryInsights : result JVal :=
  rethrow "Failed to generate insights: "
    (if negb GEMINI_API_KEY
     then Throw (MkExn ErrorK (str "API key configuration error"))
     else
       rethrow "Gemini API error: "
         (do text <- generateContent;
          rethrow "Failed to parse response: "
            (do data <- parseJSON JSON5_parse jsonrepair syntax_error_message
                          text
                          (MkOptions (Some true) (Some industry_fallbackData)
                                     None);
             validate_and_sanitize data))).

End Insights.

(** * Properties *)

(** ** Property lists *)

Lemma lookup_assign_same (k : jstring) (x : JVal) (l : list (jstring * JVal)) :
  lookup k (assign k x l) = Some x.
Proof.
  induction l as [|[k' v'] l IH]; simpl.
  - now rewrite jstr_eqb_refl.
  - destruct (jstr_eqb k k') eqn:E; simpl.
    + now rewrite jstr_eqb_refl.
    + now rewrite E.
Qed.

Lemma lookup_assign_other (k k' : jstring) (x : JVal)
      (l : list (jstring * JVal)) :
  k <> k' -> lookup k' (assign k x l) = lookup k' l.
Proof.
  intros Hne. induction l as [|[k0 v0] l IH]; simpl.
  - destruct (jstr_eqb_spec k' k); congruence.
  - destruct (jstr_eqb_spec k k0) as [->|Hk]; simpl.
    + destruct (jstr_eqb_spec k' k0); congruence.
    + destruct (jstr_eqb_spec k' k0); congruence.
Qed.

Lemma is_object_cases (v : JVal) :
  is_object v = true ->
  (exists l, v = JObj l) \/ (exists es ps, v = JArr es ps).
Proof.
  destruct v; unfold is_object; simpl;
    rewrite ?andb_false_r; try discriminate; eauto.
Qed.

Lemma get_put_same (v : JVal) (k : jstring) (x : JVal) :
  is_object v = true -> get (put v k x) k = Some x.
Proof.
  intros H; destruct (is_object_cases v H) as [[l ->]|[es [ps ->]]]; simpl;
    apply lookup_assign_same.
Qed.

Lemma get_put_other (v : JVal) (k k' : jstring) (x : JVal) :
  k <> k' -> get (put v k x) k' = get v k'.
Proof.
  intros Hne; destruct v; simpl; try reflexivity;
    now apply lookup_assign_other.
Qed.

(** In the branches where the source assigns, the target is an object or
    an array, and the assignment cannot throw. *)
Lemma set_put (v : JVal) (k : jstring) (x : JVal) :
  is_object v = true -> set v k x = Ok (put v k x).
Proof.
  intros H; destruct (is_object_cases v H) as [[l ->]|[es [ps ->]]];
    reflexivity.
Qed.

Lemma is_object_put (v : JVal) (k : jstring) (x : JVal) :
  is_object (put v k x) = is_object v.
Proof. destruct v; reflexivity. Qed.

Lemma get_some_is_object (v : JVal) (k : jstring) (x : JVal) :
  get v k = Some x -> is_object v = true.
Proof. destruct v; simpl; try discriminate; reflexivity. Qed.

(** ** Deep equality

    Structural comparison as a test's deep-equality assertion makes it:
    numbers by value, arrays by position, objects by key whatever the
    order of their properties. *)

Definition number_eqb (x y : number) : bool :=
  match x, y with
  | NaN, NaN => true
  | Inf a, Inf b => Bool.eqb a b
  | Dec m d, Dec m' d' =>
      Z.eqb (m * 10 ^ Z.of_nat d') (m' * 10 ^ Z.of_nat d)
  | _, _ => false
  end.

Fixpoint deepEqual (a b : JVal) {struct a} : bool :=
  let props :=
    fix props (ps qs : list (jstring * JVal)) {struct ps} : bool :=
      match ps with
      | [] => true
      | kv :: ps' =>
          match lookup (fst kv) qs with
          | Some y => deepEqual (snd kv) y && props ps' qs
          | None => false
          end
      end in
  match a, b with
  | JNull, JNull => true
  | JBool x, JBool y => Bool.eqb x y
  | JNum x, JNum y => number_eqb x y
  | JStr x, JStr y => jstr_eqb x y
  | JArr xs ps, JArr ys qs =>
      (fix elems (xs ys : list JVal) {struct xs} : bool :=
         match xs, ys with
         | [], [] => true
         | x :: xs', y :: ys' => deepEqual x y && elems xs' ys'
         | _, _ => false
         end) xs ys
      && Nat.eqb (length ps) (length qs) && props ps qs
  | JObj ps, JObj qs => Nat.eqb (length ps) (length qs) && props ps qs
  | _, _ => false
  end.

(** ** parseJSON: the first method *)

Section ParseJSONFacts.

Variable JSON5_parse : jstring -> result JVal.
Variable jsonrepair : jstring -> result jstring.
Variable syntax_error_message : jstring -> jstring.


(** When the cleaned text is valid JSON, the first method returns its
    value and no other method runs. *)
Lemma parseJSON_strict (text : jstring) (opts : options) (v : JVal) :
  json_value (cleanText (default (str "general") (dataType opts)) text)
  = Some v ->
  parseJSON JSON5_parse jsonrepair syntax_error_message text opts = Ok v.
Proof.
  intros H. unfold parseJSON. simpl.
  unfold JSON_parse. rewrite H. reflexivity.
Qed.

(** What the methods leave behind when none of them returns: the
    failures recorded, in the order of the methods. *)
Definition failed (cleanedText : jstring) (m : method) : bool :=
  match snd m cleanedText with
  | Some (Ok _) => false
  | _ => true
  end.

Definition failure_of (cleanedText : jstring) (m : method) : list attempt :=
  match snd m cleanedText with
  | Some (Throw e) => [(fst m, message e)]
  | _ => []
  end.

Lemma run_methods_all_failed (ms : list method) (cleanedText : jstring)
      (acc : list attempt) :
  forallb (failed cleanedText) ms = true ->
  run_methods ms cleanedText acc
  = inr (acc ++ flat_map (failure_of cleanedText) ms).
Proof.
  revert acc; induction ms as [|[name body] ms IH]; intros acc H; simpl.
  - now rewrite app_nil_r.
  - simpl in H. apply andb_true_iff in H as [H1 H2].
    unfold failed, failure_of in *; simpl in *.
    destruct (body cleanedText) as [[v|e]|]; try discriminate.
    + rewrite IH by assumption. now rewrite <- app_assoc.
    + now rewrite IH.
Qed.

Lemma run_methods_failed_inv (ms : list method) (cleanedText : jstring)
      (acc failures : list attempt) :
  run_methods ms cleanedText acc = inr failures ->
  forallb (failed cleanedText) ms = true.
Proof.
  revert acc; induction ms as [|[name body] ms IH]; intros acc H; simpl.
  - reflexivity.
  - simpl in H. unfold failed at 1; simpl.
    destruct (body cleanedText) as [[v|e]|]; try discriminate; eauto.
Qed.

End ParseJSONFacts.

(** Sample environments for closed instances: libraries that reject every
    text, and an engine whose SyntaxError has one fixed message. *)
Definition rejecting_JSON5 : jstring -> result JVal :=
  fun _ => Throw (MkExn SyntaxErrorK (str "JSON5: invalid end of input")).
Definition rejecting_jsonrepair : jstring -> result jstring :=
  fun _ => Throw (MkExn ErrorK (str "Unexpected end of json string")).
Definition fixed_message : jstring -> jstring :=
  fun _ => str "Unexpected end of JSON input".

(** C9: [parseJSON] on the text [{name: 'Engineer', salary: 1000}]
    succeeds and returns the object with [name] "Engineer" and [salary]
    1000, whatever the two libraries would do: the cleaning quotes the
    keys and the value, and the strict parse of the first method reads
    the result. *)
Theorem C9_unquoted_keys_single_quotes
        (JSON5_parse : jstring -> result JVal)
        (jsonrepair : jstring -> result jstring)
        (syntax_error_message : jstring -> jstring) :
  parseJSON JSON5_parse jsonrepair syntax_error_message
            (str "{name: 'Engineer', salary: 1000}") no_options
  = Ok (JObj [(str "name", JStr (str "Engineer"));
              (str "salary", JInt 1000)]).
Proof. apply parseJSON_strict. vm_compute. reflexivity. Qed.

(** C7 (the code at the failing input): in [{"a":[[1][2]]}] the rewrite
    of line 83 replaces the adjacent pair [][] by a bracket and a comma
    and so drops the opening bracket, where the claim expects both
    delimiters kept; the pair of braces in [{"a":[{"b":1}{"c":2}]}]
    does get its comma. *)
Theorem C7_adjacent_brackets_lose_opener :
  syntax_rewrites (lit "{~a~:[[1][2]]}") = lit "{~a~:[[1],2]]}"
  /\ syntax_rewrites (lit "{~a~:[{~b~:1}{~c~:2}]}")
     = lit "{~a~:[{~b~:1},{~c~:2}]}".
Proof. split; vm_compute; reflexivity. Qed.




(** C3 (counterexample): on the empty text, with both libraries
    rejecting it, every method fails; the caller supplies the empty
    object as fallback data, and [parseJSON] throws instead of returning
    it. *)
Lemma C3_counterexample :
  forallb (failed (cleanText (str "general") []))
          (methods rejecting_JSON5 rejecting_jsonrepair fixed_message) = true
  /\ parseJSON rejecting_JSON5 rejecting_jsonrepair fixed_message []
               (MkOptions None (Some (JObj [])) None)
     = Throw (all_failed
                [(str "JSON.parse", str "Unexpected end of JSON input");
                 (str "JSON5", str "JSON5: invalid end of input");
                 (str "jsonrepair", str "Unexpected end of json string");
                 (str "truncation-fixing",
                  str "Unexpected end of JSON input")]).
Proof. split; vm_compute; reflexivity. Qed.

(** C3 (amended): when every method fails on the cleaned text,
    [parseJSON] returns the caller's fallback data unchanged if that
    value has at least one own key; with no fallback data, or with the
    empty object, it throws an Error whose message is "All JSON parsing
    methods failed: " followed by the "method: message" entries of the
    methods that threw, in method order, joined by "; ". *)
Theorem C3_fallback_or_diagnostics
        (JSON5_parse : jstring -> result JVal)
        (jsonrepair : jstring -> result jstring)
        (syntax_error_message : jstring -> jstring)
        (text : jstring) (opts : options) :
  let ms := methods JSON5_parse jsonrepair syntax_error_message in
  let cleanedText := cleanText (default (str "general") (dataType opts)) text in
  let failures := flat_map (failure_of cleanedText) ms in
  forallb (failed cleanedText) ms = true ->
  (forall fallback n,
      fallbackData opts = Some fallback ->
      keys_length fallback = Ok (S n) ->
      parseJSON JSON5_parse jsonrepair syntax_error_message text opts
      = Ok fallback)
  /\ (fallbackData opts = None \/ fallbackData opts = Some (JObj []) ->
      exists e,
        parseJSON JSON5_parse jsonrepair syntax_error_message text opts
        = Throw e
        /\ kind e = ErrorK
        /\ message e
           = str "All JSON parsing methods failed: "
             ++ join (str "; ")
                     (map (fun a => fst a ++ str ": " ++ snd a) failures)).
Proof.
  intros ms cleanedText failures Hfail.
  assert (Hrun : run_methods ms cleanedText [] = inr failures)
    by exact (run_methods_all_failed ms cleanedText [] Hfail).
  split.
  - intros fallback n Hfb Hkeys. unfold parseJSON.
    fold ms. fold cleanedText. rewrite Hrun, Hfb. simpl.
    rewrite Hkeys. reflexivity.
  - intros Hnone. exists (all_failed failures).
    split; [|split; reflexivity].
    unfold parseJSON. fold ms. fold cleanedText. rewrite Hrun.
    destruct Hnone as [-> | ->]; reflexivity.
Qed.

Lemma C3_witness :
  parseJSON rejecting_JSON5 rejecting_jsonrepair fixed_message []
            (MkOptions None (Some industry_fallbackData) None)
  = Ok industry_fallbackData.
Proof.
  refine (proj1 (C3_fallback_or_diagnostics rejecting_JSON5
                   rejecting_jsonrepair fixed_message []
                   (MkOptions None (Some industry_fallbackData) None) _)
                industry_fallbackData 13 _ _);
    vm_compute; reflexivity.
Defined.


(** ** validateComparisonData writes to the data *)

Lemma assign_lookup_id (k : jstring) (x : JVal) (l : list (jstring * JVal)) :
  lookup k l = Some x -> assign k x l = l.
Proof.
  induction l as [|[k' v'] l IH]; simpl; [discriminate|].
  destruct (jstr_eqb_spec k k') as [->|Hne].
  - now intros [= ->].
  - intros H. now rewrite IH.
Qed.

Lemma put_get_id (v : JVal) (k : jstring) (x : JVal) :
  get v k = Some x -> put v k x = v.
Proof.
  destruct v; simpl; try discriminate; intros H;
    now rewrite assign_lookup_id.
Qed.

(** The effect the claim describes, written from its words: below
    [countrySalaryComparison], in [currentCountry] and [targetCountry],
    every [topCities] entry that is an object and whose [rolesSalaries]
    is not an array gets the empty array there; nothing else changes. *)
Definition at_key (k : jstring) (f : JVal -> JVal) (v : JVal) : JVal :=
  match get v k with
  | Some x => put v k (f x)
  | None => v
  end.

Definition each_element (f : JVal -> JVal) (v : JVal) : JVal :=
  match v with
  | JArr es ps => JArr (map f es) ps
  | _ => v
  end.

Definition ensure_rolesSalaries (city : JVal) : JVal :=
  if is_object city && negb (isArray (get city (str "rolesSalaries")))
  then put city (str "rolesSalaries") empty_array
  else city.

Definition ensure_in_country (key : jstring) : JVal -> JVal :=
  at_key key (at_key (str "topCities") (each_element ensure_rolesSalaries)).

Definition in_place_effect : JVal -> JVal :=
  at_key (str "countrySalaryComparison")
         (fun comparison =>
            ensure_in_country (str "targetCountry")
              (ensure_in_country (str "currentCountry") comparison)).

Lemma falsy_has_no_property (v : JVal) (k : jstring) :
  truthy v = false -> get v k = None.
Proof. destruct v; simpl; try reflexivity; discriminate. Qed.

Lemma check_city_effect (key : jstring) (i : nat) (city : JVal) :
  fst (check_city key i city) = ensure_rolesSalaries city.
Proof.
  unfold check_city, ensure_rolesSalaries, is_object.
  destruct (truthy city);
    destruct (js_type_eqb (typeof (Some city)) TObject);
    destruct (isArray (get city (str "rolesSalaries"))); reflexivity.
Qed.

Lemma check_cities_effect (key : jstring) (cities : list JVal) (i : nat) :
  fst (check_cities key i cities) = map ensure_rolesSalaries cities.
Proof.
  revert i; induction cities as [|city rest IH]; intros i; simpl.
  - reflexivity.
  - specialize (IH (S i)). pose proof (check_city_effect key i city) as E.
    destruct (check_cities key (S i) rest) as [rest' ms].
    destruct (check_city key i city) as [city' m].
    simpl in *. now rewrite IH, E.
Qed.

Lemma check_country_effect (key expected : jstring) (comparison : JVal) :
  fst (check_country key expected comparison)
  = ensure_in_country key comparison.
Proof.
  unfold check_country, ensure_in_country, at_key.
  destruct (get comparison key) as [country|] eqn:Hc; [|reflexivity].
  destruct (truthy country) eqn:Ht; cbn [negb].
  - destruct (get country (str "topCities")) as [cities|] eqn:Hcities.
    + destruct cities as [| | | | [|c cs] ps |];
        try (cbn [fst each_element map];
             now rewrite (put_get_id _ _ _ Hcities), (put_get_id _ _ _ Hc)).
      pose proof (check_cities_effect key (c :: cs) 0) as E.
      destruct (check_cities key 0 (c :: cs)) as [cities' ms].
      cbn [fst each_element] in *. now rewrite E.
    + cbn [fst]. now rewrite (put_get_id _ _ _ Hc).
  - rewrite (falsy_has_no_property _ (str "topCities") Ht).
    cbn [fst]. now rewrite (put_get_id _ _ _ Hc).
Qed.

(** C10: [validateComparisonData] is not a read-only check.  The data it
    leaves behind is the data it was given with the empty array assigned
    to [rolesSalaries] in every [topCities] entry, of [currentCountry]
    and of [targetCountry], that is an object whose [rolesSalaries] is
    not an array, and with every other field as it was; a city without
    [rolesSalaries] shows that the data does change. *)
Theorem C10_validation_assigns_rolesSalaries
        (data : JVal)
        (currentCountry targetCountry currentRole targetRole : jstring) :
  fst (validateComparisonData data currentCountry targetCountry
                              currentRole targetRole)
  = in_place_effect data
  /\ (forall city k,
         is_object city = true ->
         isArray (get city (str "rolesSalaries")) = false ->
         get (ensure_rolesSalaries city) (str "rolesSalaries")
         = Some empty_array
         /\ (k <> str "rolesSalaries" ->
             get (ensure_rolesSalaries city) k = get city k))
  /\ json_value (lit "{~countrySalaryComparison~:{~currentCountry~:{~topCities~:[{~city~:~Pune~}]}}}")
     <> option_map in_place_effect
          (json_value (lit "{~countrySalaryComparison~:{~currentCountry~:{~topCities~:[{~city~:~Pune~}]}}}")).
Proof.
  split; [|split].
  - unfold validateComparisonData, in_place_effect, at_key.
    destruct (truthy data) eqn:Ht; simpl.
    + destruct (get data (str "countrySalaryComparison"))
        as [comparison|] eqn:Hc;
        [|now repeat match goal with |- context [let (_, _) := ?p in _] =>
                       destruct p end].
      destruct (truthy comparison) eqn:Htc; simpl.
      * pose proof (check_country_effect (str "currentCountry")
                      currentCountry comparison) as E1.
        destruct (check_country (str "currentCountry") currentCountry
                                comparison) as [c1 m1]; simpl in E1.
        pose proof (check_country_effect (str "targetCountry")
                      targetCountry c1) as E2.
        destruct (check_country (str "targetCountry") targetCountry c1)
          as [c2 m2]; simpl in E2.
        simpl. now rewrite E2, E1.
      * simpl. unfold ensure_in_country, at_key.
        rewrite !(falsy_has_no_property _ _ Htc).
        now rewrite (put_get_id _ _ _ Hc).
    + now rewrite (falsy_has_no_property _ _ Ht).
  - intros city k Hobj Harr. unfold ensure_rolesSalaries.
    rewrite Hobj, Harr. simpl. split.
    + now apply get_put_same.
    + intros Hk. apply get_put_other. congruence.
  - vm_compute. discriminate.
Qed.

(** ** The retry loop of generateComparisonInsights *)

Lemma complete_data_is_object
      (parsed : JVal) (cc tc cr tr : jstring) :
  isComplete (snd (validateComparisonData parsed cc tc cr tr)) = true ->
  is_object (fst (validateComparisonData parsed cc tc cr tr)) = true.
Proof.
  unfold validateComparisonData.
  destruct (truthy parsed) eqn:Ht; simpl; [|discriminate].
  destruct (get parsed (str "countrySalaryComparison")) as [comparison|] eqn:Hc;
    [|discriminate].
  destruct (truthy comparison); simpl; [|discriminate].
  destruct (check_country (str "currentCountry") cc comparison) as [c1 m1].
  destruct (check_country (str "targetCountry") tc c1) as [c2 m2].
  simpl. intros _. rewrite is_object_put.
  eapply get_some_is_object; eassumption.
Qed.

Section RetryFacts.

Variable JSON5_parse : jstring -> result JVal.
Variable jsonrepair : jstring -> result jstring.
Variable syntax_error_message : jstring -> jstring.
Variable generateContent : nat -> result jstring.
Variable now : jstring.
Variable u : UserData.

(** What the n-th call yields when the call and the parse succeed: the
    validated data and the report. *)
Definition attempt_result (n : nat) : option (JVal * validation) :=
  match generateContent n with
  | Throw _ => None
  | Ok text =>
      match parse JSON5_parse jsonrepair syntax_error_message text
                  (MkOptions (Some true) None None) with
      | Throw _ => None
      | Ok parsed =>
          Some (validateComparisonData parsed
                  (or_else (currentCountry u) (str "US"))
                  (or_else (targetCountry u) (str "US"))
                  (or_else (currentRole u) (str "Software Developer"))
                  (or_else (targetRole u) (str "Software Developer")))
      end
  end.

Definition complete_at (n : nat) : bool :=
  match attempt_result n with
  | Some (_, report) => isComplete report
  | None => false
  end.

Lemma attempt_once_spec (st : loop_state) :
  attempt_once JSON5_parse jsonrepair syntax_error_message generateContent
               u st
  = match attempt_result (S (calls st)) with
    | Some (d, report) =>
        MkLoop (S (attempts st)) d
               (if isComplete report then true else complete st)
               (S (calls st))
    | None => MkLoop (S (attempts st)) (data st) (complete st) (S (calls st))
    end.
Proof.
  unfold attempt_once, attempt_result.
  destruct (generateContent (S (calls st))) as [text|e]; [|reflexivity].
  destruct (parse _ _ _ text _) as [parsed|e]; [|reflexivity].
  destruct (validateComparisonData _ _ _ _ _); reflexivity.
Qed.

(** Each pass makes one call, and the loop never runs with [attempts]
    at the maximum. *)
Lemma retry_loop_calls (fuel : nat) (st : loop_state) :
  attempts st = calls st ->
  attempts st <= MAX_RETRIES ->
  let st' := retry_loop JSON5_parse jsonrepair syntax_error_message
                        generateContent fuel u st in
  attempts st' = calls st' /\ calls st' <= MAX_RETRIES.
Proof.
  assert (Hdone : forall st0 : loop_state,
             attempts st0 = calls st0 -> attempts st0 <= MAX_RETRIES ->
             attempts st0 = calls st0 /\ calls st0 <= MAX_RETRIES)
    by (intros st0 H1 H2; split; [assumption | now rewrite <- H1]).
  revert st; induction fuel as [|fuel IH]; intros st Heq Hle;
    cbn [retry_loop]; [now apply Hdone|].
  destruct (Nat.ltb_spec (attempts st) MAX_RETRIES) as [Hlt|Hge];
    cbn [andb]; [|now apply Hdone].
  destruct (complete st); cbn [negb]; [now apply Hdone|].
  apply IH; rewrite attempt_once_spec;
    destruct (attempt_result (S (calls st))) as [[d r]|];
    cbn [attempts calls]; lia.
Qed.

End RetryFacts.

Section RetryClaims.

Variable JSON5_parse : jstring -> result JVal.
Variable jsonrepair : jstring -> result jstring.
Variable syntax_error_message : jstring -> jstring.
Variable generateContent : nat -> result jstring.
Variable now : jstring.
Variable u : UserData.

Lemma retry_loop_step (fuel : nat) (st : loop_state) :
  retry_loop JSON5_parse jsonrepair syntax_error_message generateContent
             (S fuel) u st
  = if Nat.ltb (attempts st) MAX_RETRIES && negb (complete st)
    then retry_loop JSON5_parse jsonrepair syntax_error_message
                    generateContent fuel u
                    (attempt_once JSON5_parse jsonrepair
                                  syntax_error_message generateContent u st)
    else st.
Proof. reflexivity. Qed.

(** A pass whose call, parse or validation does not give complete data
    leaves the loop running. *)
Lemma incomplete_pass (st : loop_state) :
  complete st = false ->
  complete_at JSON5_parse jsonrepair syntax_error_message generateContent
              u (S (calls st)) = false ->
  let st' := attempt_once JSON5_parse jsonrepair syntax_error_message
                          generateContent u st in
  attempts st' = S (attempts st) /\ calls st' = S (calls st)
  /\ complete st' = false.
Proof.
  intros Hc Hk. rewrite attempt_once_spec. unfold complete_at in Hk.
  destruct (attempt_result _ _ _ _ _ _) as [[d r]|]; simpl.
  - now rewrite Hk.
  - auto.
Qed.

(** A pass that gives complete data ends the loop with that data. *)
Lemma complete_pass (fuel : nat) (st : loop_state) :
  complete_at JSON5_parse jsonrepair syntax_error_message generateContent
              u (S (calls st)) = true ->
  exists d report,
    attempt_result JSON5_parse jsonrepair syntax_error_message
                   generateContent u (S (calls st)) = Some (d, report)
    /\ isComplete report = true
    /\ retry_loop JSON5_parse jsonrepair syntax_error_message
                  generateContent fuel u
                  (attempt_once JSON5_parse jsonrepair syntax_error_message
                                generateContent u st)
       = MkLoop (S (attempts st)) d true (S (calls st)).
Proof.
  intros Hk. rewrite attempt_once_spec. unfold complete_at in Hk.
  destruct (attempt_result _ _ _ _ _ _) as [[d r]|]; [|discriminate].
  exists d, r. repeat split; trivial. rewrite Hk.
  destruct fuel; simpl; [reflexivity|].
  now rewrite andb_false_r.
Qed.

End RetryClaims.

Section RetryTheorems.

Variable JSON5_parse : jstring -> result JVal.
Variable jsonrepair : jstring -> result jstring.
Variable syntax_error_message : jstring -> jstring.
Variable generateContent : nat -> result jstring.
Variable now : jstring.
Variable u : UserData.

Lemma complete_attempt_is_object (k : nat) (d : JVal) (report : validation) :
  attempt_result JSON5_parse jsonrepair syntax_error_message generateContent
                 u k = Some (d, report) ->
  isComplete report = true ->
  is_object d = true.
Proof.
  unfold attempt_result.
  destruct (generateContent k) as [text|e]; [|discriminate].
  destruct (parse _ _ _ text _) as [parsed|e]; [|discriminate].
  intros [= E] Hc.
  pose proof (complete_data_is_object parsed
                (or_else (currentCountry u) (str "US"))
                (or_else (targetCountry u) (str "US"))
                (or_else (currentRole u) (str "Software Developer"))
                (or_else (targetRole u) (str "Software Developer"))) as H.
  rewrite E in H. now apply H.
Qed.

(** From a state in which the loop is still running, the loop stops at
    the first call whose data validates as complete, with that data. *)
Lemma loop_stops_at_first_complete (fuel k : nat) (st : loop_state) :
  complete st = false ->
  attempts st = calls st ->
  calls st < k <= MAX_RETRIES ->
  k - calls st <= fuel ->
  complete_at JSON5_parse jsonrepair syntax_error_message generateContent
              u k = true ->
  (forall j, calls st < j < k ->
             complete_at JSON5_parse jsonrepair syntax_error_message
                         generateContent u j = false) ->
  exists d report,
    attempt_result JSON5_parse jsonrepair syntax_error_message
                   generateContent u k = Some (d, report)
    /\ isComplete report = true
    /\ retry_loop JSON5_parse jsonrepair syntax_error_message
                  generateContent fuel u st
       = MkLoop k d true k.
Proof.
  revert st; induction fuel as [|fuel IH];
    intros st Hc Heq Hk Hfuel Hcomplete Hbefore; [lia|].
  rewrite retry_loop_step, Hc.
  destruct (Nat.ltb_spec (attempts st) MAX_RETRIES) as [_|Hge]; [|lia].
  cbn [andb negb].
  destruct (Nat.eq_dec (S (calls st)) k) as [Ek|Hne].
  - subst k.
    destruct (complete_pass JSON5_parse jsonrepair syntax_error_message
                            generateContent u fuel st Hcomplete)
      as (d & report & H1 & H2 & H3).
    exists d, report. rewrite H3, Heq. auto.
  - assert (Hinc : complete_at JSON5_parse jsonrepair syntax_error_message
                               generateContent u (S (calls st)) = false)
      by (apply Hbefore; lia).
    destruct (incomplete_pass JSON5_parse jsonrepair syntax_error_message
                              generateContent u st Hc Hinc)
      as (Ha & Hcalls & Hc').
    apply IH; try assumption; rewrite ?Ha, ?Hcalls; try lia.
    intros j Hj. apply Hbefore. lia.
Qed.

End RetryTheorems.

(** C4: an invocation makes at most three generation calls; and when the
    k-th call is the first whose parsed data validates as complete, the
    invocation makes exactly k calls and returns that data (as the
    validation left it) with [_meta] holding [attempts] = k and
    [isComplete] = true. *)
Theorem C4_at_most_three_calls_stop_at_first_complete
        (JSON5_parse : jstring -> result JVal)
        (jsonrepair : jstring -> result jstring)
        (syntax_error_message : jstring -> jstring)
        (GEMINI_API_KEY : bool)
        (generateContent : nat -> result jstring)
        (now : jstring) (u : UserData) :
  snd (generateComparisonInsights JSON5_parse jsonrepair syntax_error_message
                                  GEMINI_API_KEY generateContent now u)
  <= 3
  /\ (GEMINI_API_KEY = true ->
      forall k,
        1 <= k <= 3 ->
        complete_at JSON5_parse jsonrepair syntax_error_message
                    generateContent u k = true ->
        (forall j, 1 <= j < k ->
                   complete_at JSON5_parse jsonrepair syntax_error_message
                               generateContent u j = false) ->
        exists d report,
          attempt_result JSON5_parse jsonrepair syntax_error_message
                         generateContent u k = Some (d, report)
          /\ generateComparisonInsights JSON5_parse jsonrepair
               syntax_error_message GEMINI_API_KEY generateContent now u
             = (Ok (put d (str "_meta")
                        (JObj [(str "generatedAt", JStr now);
                               (str "source", JStr (str "Gemini AI"));
                               (str "attempts", JInt (Z.of_nat k));
                               (str "isComplete", JBool true)])),
                k)).
Proof.
  split.
  - unfold generateComparisonInsights.
    destruct GEMINI_API_KEY; cbn [negb snd]; [|lia].
    apply (retry_loop_calls JSON5_parse jsonrepair syntax_error_message
                            generateContent u MAX_RETRIES initial);
      cbn; unfold MAX_RETRIES; lia.
  - intros -> k Hk Hcomplete Hbefore.
    destruct (loop_stops_at_first_complete JSON5_parse jsonrepair
                syntax_error_message generateContent u MAX_RETRIES k initial)
      as (d & report & H1 & H2 & H3);
      try reflexivity; try assumption;
      try (cbn [calls initial]; unfold MAX_RETRIES; lia).
    exists d, report. split; [assumption|].
    unfold generateComparisonInsights. cbn [negb]. rewrite H3.
    unfold finish. cbn [complete data attempts calls negb bind].
    rewrite set_put
      by (eapply complete_attempt_is_object; eassumption).
    reflexivity.
Qed.

(** Sample invocations. *)
Definition no_user_data : UserData := MkUserData None None None None.

Definition complete_comparison_text : jstring :=
  lit "{~countrySalaryComparison~:{~currentCountry~:{~name~:~US~,~topCities~:[{~city~:~Austin~,~rolesSalaries~:[]}]},~targetCountry~:{~name~:~US~,~topCities~:[{~city~:~Boston~,~rolesSalaries~:[]}]}},~roleComparison~:{~currentRole~:{~title~:~Software Developer~,~requiredSkills~:[~Git~]},~targetRole~:{~title~:~Software Developer~,~requiredSkills~:[~Go~]},~skillGaps~:[],~transferableSkills~:[]},~salaryExpectationAnalysis~:{~isRealistic~:true,~percentile~:50,~recommendation~:~Fine~}}".

(** The service answers with an incomplete object, then fails, then
    answers with complete data: three calls, [attempts] = 3 and
    [isComplete] = true. *)
Example complete_on_third_call :
  let generateContent n :=
    match n with
    | 1 => Ok (lit "{~roleComparison~:{}}")
    | 2 => Throw (MkExn ErrorK (str "fetch failed"))
    | _ => Ok complete_comparison_text
    end in
  exists d,
    generateComparisonInsights rejecting_JSON5 rejecting_jsonrepair
      fixed_message true generateContent (str "2025-01-01T00:00:00.000Z")
      no_user_data
    = (Ok d, 3)
    /\ get d (str "_meta")
       = Some (JObj [(str "generatedAt", JStr (str "2025-01-01T00:00:00.000Z"));
                     (str "source", JStr (str "Gemini AI"));
                     (str "attempts", JInt 3);
                     (str "isComplete", JBool true)])
    /\ json_value complete_comparison_text
       = Some (JObj (removelast match d with JObj l => l | _ => [] end)).
Proof. eexists. split; [vm_compute; reflexivity|]. vm_compute. auto. Qed.

(** C2 (the code at two failing inputs).  When all three generation
    calls fail, no data object exists after the loop and the read of
    [data.roleComparison] throws a TypeError: the invocation rejects
    instead of returning an object with [_meta].  When the three calls
    each answer with the empty object, the result carries the default
    [roleComparison] and [salaryExpectationAnalysis] and [_meta] with
    [attempts] = 3 and [isComplete] = false, but no
    [countrySalaryComparison]: that section is never backfilled. *)
Theorem C2_exhausted_without_data_throws :
  (forall u : UserData,
      generateComparisonInsights rejecting_JSON5 rejecting_jsonrepair
        fixed_message true
        (fun _ => Throw (MkExn ErrorK (str "fetch failed")))
        (str "2025-01-01T00:00:00.000Z") u
      = (Throw null_access_error, 3))
  /\ generateComparisonInsights rejecting_JSON5 rejecting_jsonrepair
       fixed_message true (fun _ => Ok (str "{}"))
       (str "2025-01-01T00:00:00.000Z") no_user_data
     = (Ok (JObj [(str "roleComparison",
                   default_roleComparison (str "Software Developer")
                                          (str "Software Developer"));
                  (str "salaryExpectationAnalysis",
                   default_salaryExpectationAnalysis);
                  (str "_meta",
                   JObj [(str "generatedAt",
                          JStr (str "2025-01-01T00:00:00.000Z"));
                         (str "source", JStr (str "Gemini AI"));
                         (str "attempts", JInt 3);
                         (str "isComplete", JBool false)])]),
        3).
Proof. split; [intros u|]; vm_compute; reflexivity. Qed.

(** ** The validation step of generateIndustryInsights *)

(** Some object or array inside the value (or the value itself) has an
    own property named [toString]: the values whose conversion to a
    string may throw. *)
Fixpoint mentions_toString (v : JVal) : bool :=
  let props :=
    fix props (l : list (jstring * JVal)) : bool :=
      match l with
      | [] => false
      | kv :: l' => jstr_eqb (fst kv) (str "toString")
                    || mentions_toString (snd kv) || props l'
      end in
  match v with
  | JArr es ps => existsb mentions_toString es || props ps
  | JObj l => props l
  | _ => false
  end.

Definition props_mention (l : list (jstring * JVal)) : bool :=
  existsb (fun kv => jstr_eqb (fst kv) (str "toString")
                     || mentions_toString (snd kv)) l.

Lemma mentions_JObj (l : list (jstring * JVal)) :
  mentions_toString (JObj l) = props_mention l.
Proof.
  unfold props_mention. induction l as [|kv l IH]; [reflexivity|].
  cbn [mentions_toString existsb] in *. now rewrite IH.
Qed.

Lemma mentions_JArr (es : list JVal) (ps : list (jstring * JVal)) :
  mentions_toString (JArr es ps)
  = existsb mentions_toString es || props_mention ps.
Proof.
  rewrite <- mentions_JObj. reflexivity.
Qed.

Lemma props_mention_lookup (l : list (jstring * JVal)) (k : jstring) (x : JVal) :
  props_mention l = false -> lookup k l = Some x ->
  mentions_toString x = false.
Proof.
  unfold props_mention. induction l as [|[k' v'] l IH]; [discriminate|].
  cbn [existsb lookup fst snd]. intros H.
  apply orb_false_iff in H as [H1 H2]. apply orb_false_iff in H1 as [_ H1].
  destruct (jstr_eqb k k'); [now intros [= <-]|now apply IH].
Qed.

Lemma props_mention_no_toString (l : list (jstring * JVal)) :
  props_mention l = false -> lookup (str "toString") l = None.
Proof.
  unfold props_mention. induction l as [|[k' v'] l IH]; [reflexivity|].
  cbn [existsb lookup fst snd]. intros H.
  apply orb_false_iff in H as [H1 H2]. apply orb_false_iff in H1 as [H1 _].
  destruct (jstr_eqb_spec (str "toString") k') as [<-|Hne].
  - now rewrite jstr_eqb_refl in H1.
  - now apply IH.
Qed.

Lemma props_mention_assign (l : list (jstring * JVal)) (k : jstring) (x : JVal) :
  props_mention l = false -> mentions_toString x = false ->
  jstr_eqb k (str "toString") = false ->
  props_mention (assign k x l) = false.
Proof.
  unfold props_mention. intros Hl Hx Hk.
  induction l as [|[k' v'] l IH]; cbn [assign existsb fst snd].
  - now rewrite Hk, Hx.
  - cbn [existsb fst snd] in Hl.
    apply orb_false_iff in Hl as [H1 H2].
    destruct (jstr_eqb k k'); cbn [existsb fst snd].
    + now rewrite Hk, Hx, H2.
    + now rewrite H1, IH.
Qed.

(** A value free of [toString] properties has only such values inside,
    and stays free of them when a property with another name is
    assigned a value free of them. *)
Lemma mentions_get (v : JVal) (k : jstring) (x : JVal) :
  mentions_toString v = false -> get v k = Some x ->
  mentions_toString x = false.
Proof.
  destruct v; try discriminate; cbn [get].
  - rewrite mentions_JArr. intros H. apply orb_false_iff in H as [_ H].
    now apply props_mention_lookup.
  - rewrite mentions_JObj. now apply props_mention_lookup.
Qed.

Lemma mentions_put (v : JVal) (k : jstring) (x : JVal) :
  mentions_toString v = false -> mentions_toString x = false ->
  jstr_eqb k (str "toString") = false ->
  mentions_toString (put v k x) = false.
Proof.
  intros Hv Hx Hk. destruct v; try assumption; cbn [put].
  - rewrite mentions_JArr in *. apply orb_false_iff in Hv as [H1 H2].
    now rewrite H1, props_mention_assign.
  - rewrite mentions_JObj in *. now apply props_mention_assign.
Qed.

Lemma mentions_elements (es : list JVal) (ps : list (jstring * JVal)) (x : JVal) :
  mentions_toString (JArr es ps) = false -> In x es ->
  mentions_toString x = false.
Proof.
  rewrite mentions_JArr. intros H Hin.
  apply orb_false_iff in H as [H _].
  destruct (mentions_toString x) eqn:E; [|reflexivity].
  assert (existsb mentions_toString es = true)
    by (apply existsb_exists; eauto).
  congruence.
Qed.

Lemma mentions_array_of (es : list JVal) :
  (forall x, In x es -> mentions_toString x = false) ->
  mentions_toString (JArr es []) = false.
Proof.
  intros H. rewrite mentions_JArr. cbn [props_mention existsb].
  rewrite orb_false_r.
  destruct (existsb mentions_toString es) eqn:E; [|reflexivity].
  apply existsb_exists in E as (x & Hin & Hx). rewrite H in Hx; [discriminate|assumption].
Qed.

Lemma sequence_throw {A : Type} (l : list (result A)) (e : exn) :
  sequence l = Throw e -> In (Throw e) l.
Proof.
  induction l as [|r l IH]; cbn [sequence bind]; [discriminate|].
  destruct r as [x|e']; [|intros [= ->]; now left].
  destruct (sequence l) as [xs|e'']; [discriminate|].
  intros [= ->]. right. now apply IH.
Qed.

Lemma sequence_ok {A : Type} (l : list (result A)) (xs : list A) :
  sequence l = Ok xs -> l = map Ok xs.
Proof.
  revert xs; induction l as [|r l IH]; intros xs; cbn [sequence bind].
  - now intros [= <-].
  - destruct r as [x|e]; [|discriminate].
    destruct (sequence l) as [ys|e]; [|discriminate].
    intros [= <-]. cbn [map]. now rewrite (IH ys).
Qed.

Lemma sequence_total {A : Type} (l : list (result A)) :
  (forall r, In r l -> exists x, r = Ok x) -> exists xs, sequence l = Ok xs.
Proof.
  induction l as [|r l IH]; intros H; cbn [sequence bind]; [eauto|].
  destruct (H r (or_introl eq_refl)) as [x ->].
  destruct IH as [xs ->]; [intros; apply H; now right|].
  cbn [bind]. eauto.
Qed.

Lemma lookup_toString_mentions (l : list (jstring * JVal)) (x : JVal) :
  lookup (str "toString") l = Some x -> props_mention l = true.
Proof.
  intros H. destruct (props_mention l) eqn:E; [reflexivity|].
  now rewrite (props_mention_no_toString l E) in H.
Qed.

(** A conversion to a string throws only the TypeError of
    OrdinaryToPrimitive, and only on a value that holds a [toString]
    property. *)
Lemma ToString_throws (v : JVal) (e : exn) :
  ToString v = Throw e ->
  e = conversion_error /\ mentions_toString v = true.
Proof.
  revert e. induction v as [| b | n | s | l ps IHl _ | l _] using JVal_ind;
    intros e; cbn [ToString]; try discriminate.
  - destruct b; discriminate.
  - destruct (lookup (str "toString") ps) as [x|] eqn:Hts.
    + intros [= <-]. split; [reflexivity|]. rewrite mentions_JArr.
      rewrite (lookup_toString_mentions ps x Hts). apply orb_true_r.
    + destruct (lookup (str "join") ps); [discriminate|].
      destruct (sequence _) as [parts|e'] eqn:Hseq; cbn [bind];
        [discriminate|].
      intros [= ->]. apply sequence_throw in Hseq.
      apply in_map_iff in Hseq as (x & Hx & Hin).
      rewrite Forall_forall in IHl. specialize (IHl x Hin e).
      assert (Hthrow : ToString x = Throw e)
        by (destruct x; cbv beta iota in Hx;
            first [discriminate Hx | exact Hx]).
      destruct (IHl Hthrow) as [-> Hm]. split; [reflexivity|].
      rewrite mentions_JArr. apply orb_true_iff. left.
      apply existsb_exists. eauto.
  - destruct (lookup (str "toString") l) as [x|] eqn:Hts; [|discriminate].
    intros [= <-]. split; [reflexivity|]. rewrite mentions_JObj.
    now apply (lookup_toString_mentions l x).
Qed.

Lemma is_object_true (v : JVal) :
  is_object v = true ->
  truthy v = true /\ typeof (Some v) = TObject.
Proof.
  intros H; destruct (is_object_cases v H) as [[l ->]|[es [ps ->]]];
    split; reflexivity.
Qed.

Lemma stringify_no_mention (v : JVal) : mentions_toString (JStr (stringify v)) = false.
Proof. reflexivity. Qed.

Lemma first_truthy_source (candidates : list (option JVal)) (last : JVal) :
  first_truthy candidates last = last
  \/ In (Some (first_truthy candidates last)) candidates.
Proof.
  induction candidates as [|[v|] rest IH]; cbn [first_truthy].
  - now left.
  - destruct (truthy v); [right; now left|].
    destruct IH; [now left|right; now right].
  - destruct IH; [now left|right; now right].
Qed.

(** The callback of [roles.map] throws only on a role that holds a
    [toString] property, and yields a string otherwise. *)
Lemma role_text_spec (role : JVal) :
  match role_text role with
  | Ok t => exists s, t = JStr s
  | Throw e => e = conversion_error /\ mentions_toString role = true
  end.
Proof.
  unfold role_text.
  assert (Hconv : forall x, (mentions_toString x = true ->
                             mentions_toString role = true) ->
            match (do s <- ToString x; Ok (JStr s)) with
            | Ok t => exists s, t = JStr s
            | Throw e => e = conversion_error /\ mentions_toString role = true
            end).
  { intros x Hx. destruct (ToString x) as [s|e] eqn:E; cbn [bind]; [eauto|].
    destruct (ToString_throws x e E) as [-> Hm]. auto. }
  destruct role as [| b | n | s | es ps | l]; cbv beta iota;
    try (eexists; reflexivity);
    (destruct (is_object _); apply Hconv; intros Hm; [|exact Hm]);
    match goal with
    | |- mentions_toString ?r = true =>
        destruct (first_truthy_source
                    [get r (str "name"); get r (str "title");
                     get r (str "role")]
                    (JStr (stringify r))) as [E|Hin];
        [rewrite E in Hm; discriminate
        |destruct (mentions_toString r) eqn:Hrole; [reflexivity|];
         cbn [In] in Hin;
         destruct Hin as [H|[H|[H|[]]]];
         rewrite (mentions_get _ _ _ Hrole H) in Hm; discriminate]
    end.
Qed.

Lemma fix_city_spec (city : JVal) :
  is_object city = true ->
  fix_city city
  = Ok (put city (str "rolesSalaries")
            match get city (str "rolesSalaries") with
            | Some (JArr roles _) => JArr (filter roleSalary_ok roles) []
            | _ => empty_array
            end).
Proof.
  intros H. unfold fix_city.
  destruct (get city (str "rolesSalaries")) as [[| | | | roles ps |]|];
    now rewrite set_put.
Qed.

Lemma fix_city_no_mention (city : JVal) :
  mentions_toString city = false ->
  mentions_toString
    (put city (str "rolesSalaries")
         match get city (str "rolesSalaries") with
         | Some (JArr roles _) => JArr (filter roleSalary_ok roles) []
         | _ => empty_array
         end) = false.
Proof.
  intros Hm. apply mentions_put; [assumption| |reflexivity].
  destruct (get city (str "rolesSalaries")) as [[| | | | roles ps |]|] eqn:E;
    try reflexivity.
  apply mentions_array_of. intros x Hin. apply filter_In in Hin as [Hin _].
  eapply mentions_elements; [|eassumption].
  eapply mentions_get; eassumption.
Qed.

Lemma fix_company_spec (company : JVal) :
  is_object company = true ->
  match fix_company company with
  | Ok c => is_object c = true
            /\ (mentions_toString company = false ->
                mentions_toString c = false)
  | Throw e => e = conversion_error /\ mentions_toString company = true
  end.
Proof.
  intros Hobj. unfold fix_company.
  assert (Hempty : match set company (str "roles") empty_array with
                   | Ok c => is_object c = true
                             /\ (mentions_toString company = false ->
                                 mentions_toString c = false)
                   | Throw e => e = conversion_error
                                /\ mentions_toString company = true
                   end).
  { rewrite set_put by assumption. rewrite is_object_put. split; [assumption|].
    intros Hm. now apply mentions_put. }
  destruct (get company (str "roles")) as [[| | | | roles ps |]|] eqn:E;
    try exact Hempty.
  destruct (sequence (map role_text roles)) as [texts|e] eqn:Hseq; cbn [bind].
  - rewrite set_put by assumption. rewrite is_object_put.
    split; [assumption|]. intros Hm.
    apply mentions_put; [assumption| |reflexivity].
    apply mentions_array_of. intros t Hin.
    apply sequence_ok in Hseq.
    assert (Hin' : In (Ok t) (map role_text roles))
      by (rewrite Hseq; now apply in_map).
    apply in_map_iff in Hin' as (role & Hrole & _).
    pose proof (role_text_spec role) as Hspec. rewrite Hrole in Hspec.
    destruct Hspec as [s ->]. reflexivity.
  - apply sequence_throw in Hseq.
    apply in_map_iff in Hseq as (role & Hrole & Hin).
    pose proof (role_text_spec role) as Hspec. rewrite Hrole in Hspec.
    destruct Hspec as [-> Hm]. split; [reflexivity|].
    destruct (mentions_toString company) eqn:Hc; [reflexivity|].
    pose proof (mentions_get _ _ _ Hc E) as Hroles.
    rewrite (mentions_elements _ _ _ Hroles Hin) in Hm. discriminate.
Qed.

Lemma filtered_no_mention (ok : JVal -> bool) (items : list JVal) :
  (forall x, In x items -> mentions_toString x = false) ->
  mentions_toString (JArr (filter ok items) []) = false.
Proof.
  intros H. apply mentions_array_of. intros x Hin.
  apply filter_In in Hin as [Hin _]. now apply H.
Qed.

(** The [switch]: it yields an array free of [toString] properties when
    the items are, and throws only the conversion error, on an item that
    holds such a property. *)
Lemma validate_items_spec (field : jstring) (items : list JVal) :
  match validate_items field items with
  | Ok (Some array) =>
      isArray (Some array) = true
      /\ ((forall x, In x items -> mentions_toString x = false) ->
          mentions_toString array = false)
  | Ok None => True
  | Throw e =>
      e = conversion_error
      /\ exists x, In x items /\ mentions_toString x = true
  end.
Proof.
  unfold validate_items.
  repeat match goal with
         | |- context [if jstr_eqb ?a ?b then _ else _] =>
             destruct (jstr_eqb a b)
         end;
    try exact I;
    try (split; [reflexivity|apply filtered_no_mention]).
  - (* topCompanies *)
    destruct (sequence _) as [companies|e] eqn:Hseq; cbn [bind].
    + split; [reflexivity|]. intros Hitems.
      apply mentions_array_of. intros c Hin.
      apply sequence_ok in Hseq.
      assert (Hin' : In (Ok c) (map fix_company (filter company_ok items)))
        by (rewrite Hseq; now apply in_map).
      apply in_map_iff in Hin' as (item & Hfix & Hitem).
      apply filter_In in Hitem as [Hitem Hok].
      assert (Hobj : is_object item = true).
      { unfold company_ok in Hok. now apply andb_true_iff in Hok as [Hok _]. }
      pose proof (fix_company_spec item Hobj) as Hspec.
      rewrite Hfix in Hspec. destruct Hspec as [_ Hspec]. auto.
    + apply sequence_throw in Hseq.
      apply in_map_iff in Hseq as (item & Hfix & Hitem).
      apply filter_In in Hitem as [Hitem Hok].
      assert (Hobj : is_object item = true).
      { unfold company_ok in Hok. now apply andb_true_iff in Hok as [Hok _]. }
      pose proof (fix_company_spec item Hobj) as Hspec.
      rewrite Hfix in Hspec. destruct Hspec as [-> Hm]. eauto.
  - (* citySalaryData *)
    assert (Hcities :
              sequence (map fix_city (filter city_ok items))
              = Ok (map (fun city =>
                           put city (str "rolesSalaries")
                               match get city (str "rolesSalaries") with
                               | Some (JArr roles _) =>
                                   JArr (filter roleSalary_ok roles) []
                               | _ => empty_array
                               end)
                        (filter city_ok items))).
    { assert (Hall : forall c, In c (filter city_ok items) ->
                               is_object c = true).
      { intros c Hin. apply filter_In in Hin as [_ Hok].
        unfold city_ok in Hok.
        apply andb_true_iff in Hok as [Hok _].
        now apply andb_true_iff in Hok as [Hok _]. }
      induction (filter city_ok items) as [|c cs IH]; [reflexivity|].
      cbn [map sequence]. rewrite fix_city_spec by (apply Hall; now left).
      cbn [bind]. rewrite IH by (intros; apply Hall; now right).
      reflexivity. }
    rewrite Hcities. cbn [bind]. split; [reflexivity|]. intros Hitems.
    apply mentions_array_of. intros c Hin.
    apply in_map_iff in Hin as (city & <- & Hcity).
    apply filter_In in Hcity as [Hcity _].
    apply fix_city_no_mention. now apply Hitems.
Qed.

Lemma items_no_mention (d : JVal) (field : jstring)
      (items : list JVal) (ps : list (jstring * JVal)) :
  get d field = Some (JArr items ps) ->
  mentions_toString d = false ->
  forall x, In x items -> mentions_toString x = false.
Proof.
  intros E Hm x Hin. eapply mentions_elements; [|eassumption].
  eapply mentions_get; eassumption.
Qed.

(** What one step of the validation guarantees: the data stays an object,
    a stated fact holds of the field the step owns, the other fields are
    untouched, and a throw is the conversion error on data that holds a
    [toString] property. *)
Definition step_ok (d : JVal) (field : jstring) (fact : option JVal -> bool)
           (r : result JVal) : Prop :=
  match r with
  | Ok d' =>
      is_object d' = true
      /\ fact (get d' field) = true
      /\ (forall k, k <> field -> get d' k = get d k)
      /\ (mentions_toString d = false -> mentions_toString d' = false)
  | Throw e => e = conversion_error /\ mentions_toString d = true
  end.

Lemma step_ok_put (d : JVal) (field : jstring) (fact : option JVal -> bool)
      (x : JVal) :
  is_object d = true ->
  jstr_eqb field (str "toString") = false ->
  fact (Some x) = true ->
  mentions_toString x = false ->
  step_ok d field fact (set d field x).
Proof.
  intros Hobj Hkey Hfact Hx. rewrite set_put by assumption.
  unfold step_ok. rewrite is_object_put, get_put_same by assumption.
  repeat split; try assumption.
  - intros k Hk. apply get_put_other. congruence.
  - intros Hm. now apply mentions_put.
Qed.

Lemma process_field_spec (d : JVal) (field : jstring) :
  is_object d = true ->
  jstr_eqb field (str "toString") = false ->
  step_ok d field isArray (process_field d field).
Proof.
  intros Hobj Hkey. unfold process_field.
  destruct (get d field) as [[| | | | items ps |]|] eqn:E;
    try (now apply step_ok_put).
  pose proof (validate_items_spec field items) as Hspec.
  destruct (validate_items field items) as [[array|]|e]; cbn [bind].
  - destruct Hspec as [Harr Hm].
    rewrite set_put by assumption. unfold step_ok.
    rewrite is_object_put, get_put_same by assumption.
    repeat split; try assumption.
    + intros k Hk. apply get_put_other. congruence.
    + intros Hd. apply mentions_put; try assumption.
      apply Hm. eapply items_no_mention; eassumption.
  - unfold step_ok. rewrite E. repeat split; auto.
  - destruct Hspec as [-> (x & Hin & Hx)]. split; [reflexivity|].
    destruct (mentions_toString d) eqn:Hd; [reflexivity|].
    rewrite (items_no_mention d field items ps E Hd x Hin) in Hx.
    discriminate.
Qed.

Lemma forEach_spec (fields : list jstring) (d : JVal) :
  is_object d = true ->
  NoDup fields ->
  (forall f, In f fields -> jstr_eqb f (str "toString") = false) ->
  match forEach fields d with
  | Ok d' =>
      is_object d' = true
      /\ (forall f, In f fields -> isArray (get d' f) = true)
      /\ (forall k, ~ In k fields -> get d' k = get d k)
      /\ (mentions_toString d = false -> mentions_toString d' = false)
  | Throw e => e = conversion_error /\ mentions_toString d = true
  end.
Proof.
  revert d; induction fields as [|f fields IH]; intros d Hobj Hnodup Hkeys;
    cbn [forEach].
  - repeat split; auto; intros f [].
  - pose proof (process_field_spec d f Hobj (Hkeys f (or_introl eq_refl)))
      as Hstep.
    destruct (process_field d f) as [d1|e]; cbn [bind]; [|exact Hstep].
    destruct Hstep as (Hobj1 & Harr1 & Hframe1 & Hm1).
    inversion Hnodup as [|? ? Hnotin Hnodup']; subst.
    specialize (IH d1 Hobj1 Hnodup' (fun g Hg => Hkeys g (or_intror Hg))).
    destruct (forEach fields d1) as [d2|e].
    + destruct IH as (Hobj2 & Harr2 & Hframe2 & Hm2).
      repeat split; auto.
      * intros g [<-|Hg]; [|now apply Harr2].
        rewrite Hframe2 by assumption. assumption.
      * intros k Hk. rewrite Hframe2 by (intros Hin; apply Hk; now right).
        apply Hframe1. intros ->. apply Hk. now left.
    + destruct IH as [-> Hm]. split; [reflexivity|].
      destruct (mentions_toString d); [reflexivity|].
      rewrite Hm1 in Hm by reflexivity. discriminate.
Qed.

Definition is_string (o : option JVal) : bool :=
  js_type_eqb (typeof o) TString.

Definition is_object_opt (o : option JVal) : bool :=
  match o with
  | Some v => is_object v
  | None => false
  end.

Lemma step_ok_put_twice (d : JVal) (field : jstring)
      (fact : option JVal -> bool) (x y : JVal) :
  is_object d = true ->
  jstr_eqb field (str "toString") = false ->
  fact (Some y) = true ->
  mentions_toString x = false -> mentions_toString y = false ->
  step_ok d field fact (Ok (put (put d field x) field y)).
Proof.
  intros Hobj Hkey Hfact Hx Hy. unfold step_ok.
  rewrite !is_object_put, get_put_same by (now rewrite is_object_put).
  repeat split; try assumption.
  - intros k Hk. rewrite !get_put_other by congruence. reflexivity.
  - intros Hm. repeat apply mentions_put; auto.
Qed.

Lemma process_overview_spec (d : JVal) :
  is_object d = true ->
  step_ok d (str "industryOverview") is_string (process_overview d).
Proof.
  intros Hobj. unfold process_overview.
  destruct (get d (str "industryOverview")) as [overview|] eqn:E;
    [|now apply step_ok_put].
  destruct (truthy overview); [|now apply step_ok_put].
  destruct (js_type_eqb (typeof (Some overview)) TString) eqn:Hty;
    cbn [negb bind].
  - (* already a string *)
    destruct overview; try discriminate. rewrite E.
    pose proof (step_ok_put d (str "industryOverview") is_string
                  (JStr (clean_overview s)) Hobj eq_refl eq_refl eq_refl)
      as Hstep.
    rewrite set_put in * by assumption. exact Hstep.
  - (* converted first *)
    destruct (ToString overview) as [s|e] eqn:Hconv; cbn [bind].
    + rewrite set_put by assumption. cbn [bind].
      rewrite get_put_same by assumption.
      rewrite set_put by (now rewrite is_object_put).
      now apply step_ok_put_twice.
    + destruct (ToString_throws _ _ Hconv) as [-> Hm].
      split; [reflexivity|].
      destruct (mentions_toString d) eqn:Hd; [reflexivity|].
      rewrite (mentions_get _ _ _ Hd E) in Hm. discriminate.
Qed.

Lemma process_salary_range_spec (d : JVal) :
  is_object d = true ->
  step_ok d (str "expectedSalaryRange") is_object_opt
          (process_salary_range d).
Proof.
  intros Hobj. unfold process_salary_range.
  destruct (get d (str "expectedSalaryRange")) as [range|] eqn:E;
    [|now apply step_ok_put].
  destruct (is_object range) eqn:Hr; [|now apply step_ok_put].
  unfold step_ok. rewrite E. repeat split; auto.
Qed.

Definition well_shaped (d : JVal) : bool :=
  forallb (fun f => isArray (get d f)) arrayFields
  && is_string (get d (str "industryOverview"))
  && is_object_opt (get d (str "expectedSalaryRange")).

Fixpoint distinct (l : list jstring) : bool :=
  match l with
  | [] => true
  | k :: l' => negb (existsb (jstr_eqb k) l') && distinct l'
  end.

Lemma not_in_by_eqb (k : jstring) (l : list jstring) :
  existsb (jstr_eqb k) l = false -> ~ In k l.
Proof.
  intros H Hin.
  assert (existsb (jstr_eqb k) l = true)
    by (apply existsb_exists; exists k; split; [assumption|apply jstr_eqb_refl]).
  congruence.
Qed.

Lemma distinct_NoDup (l : list jstring) : distinct l = true -> NoDup l.
Proof.
  induction l as [|k l IH]; cbn [distinct]; intros H; constructor.
  - apply andb_true_iff in H as [H _]. apply not_in_by_eqb.
    now destruct (existsb (jstr_eqb k) l).
  - apply andb_true_iff in H as [_ H]. now apply IH.
Qed.

Lemma arrayFields_facts :
  NoDup arrayFields
  /\ (forall f, In f arrayFields -> jstr_eqb f (str "toString") = false)
  /\ ~ In (str "industryOverview") arrayFields
  /\ ~ In (str "expectedSalaryRange") arrayFields.
Proof.
  repeat split.
  - apply distinct_NoDup. vm_compute. reflexivity.
  - intros f Hin.
    assert (H : forallb (fun g => negb (jstr_eqb g (str "toString")))
                        arrayFields = true) by (vm_compute; reflexivity).
    rewrite forallb_forall in H. specialize (H f Hin).
    now destruct (jstr_eqb f (str "toString")).
  - apply not_in_by_eqb. vm_compute. reflexivity.
  - apply not_in_by_eqb. vm_compute. reflexivity.
Qed.

(** C5 (counterexample): the service answers with the valid JSON object
    [{"industryOverview":{"toString":1}}]; the parse returns it, and the
    validation step throws on [String(data.industryOverview)], so the
    invocation rejects. *)
Lemma C5_counterexample :
  json_value (lit "{~industryOverview~:{~toString~:1}}")
  = Some (JObj [(str "industryOverview", JObj [(str "toString", JInt 1)])])
  /\ validate_and_sanitize
       (JObj [(str "industryOverview", JObj [(str "toString", JInt 1)])])
     = Throw conversion_error
  /\ (forall J5 JR SM,
         generateIndustryInsights J5 JR SM true
           (Ok (lit "{~industryOverview~:{~toString~:1}}"))
         = Throw (MkExn ErrorK
                    (str "Failed to generate insights: Gemini API error: Failed to parse response: Cannot convert object to primitive value"))).
Proof.
  split; [vm_compute; reflexivity|]. split; [vm_compute; reflexivity|].
  intros. unfold generateIndustryInsights. cbn [negb bind].
  rewrite (parseJSON_strict J5 JR SM (lit "{~industryOverview~:{~toString~:1}}")
             (MkOptions (Some true) (Some industry_fallbackData) None)
             (JObj [(str "industryOverview",
                     JObj [(str "toString", JInt 1)])]))
    by (vm_compute; reflexivity).
  vm_compute. reflexivity.
Qed.

(** C5 (amended): for every parsed object or array, the validation step
    either returns an object in which each of the ten array fields is an
    array, [industryOverview] is a string and [expectedSalaryRange] is
    an object, or throws the TypeError of a failed conversion to string;
    it throws only when the input holds, somewhere inside, an own
    property named [toString]. *)
Theorem C5_validation_shape_or_conversion_error (data : JVal) :
  is_object data = true ->
  match validate_and_sanitize data with
  | Ok d => well_shaped d = true
  | Throw e => e = conversion_error /\ mentions_toString data = true
  end.
Proof.
  intros Hobj. unfold validate_and_sanitize.
  destruct (is_object_true data Hobj) as [-> _]. cbn [negb].
  destruct arrayFields_facts as (Hnodup & Hkeys & Hio & Hrange).
  pose proof (process_overview_spec data Hobj) as H1.
  destruct (process_overview data) as [d1|e]; cbn [bind]; [|exact H1].
  destruct H1 as (Hobj1 & Hstr1 & Hframe1 & Hm1).
  pose proof (forEach_spec arrayFields d1 Hobj1 Hnodup Hkeys) as H2.
  destruct (forEach arrayFields d1) as [d2|e]; cbn [bind].
  - destruct H2 as (Hobj2 & Harr2 & Hframe2 & Hm2).
    pose proof (process_salary_range_spec d2 Hobj2) as H3.
    destruct (process_salary_range d2) as [d3|e].
    + destruct H3 as (Hobj3 & Hrange3 & Hframe3 & Hm3).
      unfold well_shaped. rewrite Hrange3, andb_true_r.
      apply andb_true_iff; split.
      * apply forallb_forall. intros f Hf.
        rewrite Hframe3 by (intros ->; contradiction). now apply Harr2.
      * rewrite Hframe3 by (intros E; vm_compute in E; discriminate).
        rewrite Hframe2 by assumption. assumption.
    + destruct H3 as [-> Hm]. split; [reflexivity|].
      destruct (mentions_toString data); [reflexivity|].
      rewrite Hm2 in Hm by auto. discriminate.
  - destruct H2 as [-> Hm]. split; [reflexivity|].
    destruct (mentions_toString data); [reflexivity|].
    rewrite Hm1 in Hm by reflexivity. discriminate.
Qed.

Lemma C5_witness :
  match validate_and_sanitize industry_fallbackData with
  | Ok d => well_shaped d = true
  | Throw e =>
      e = conversion_error /\ mentions_toString industry_fallbackData = true
  end.
Proof.
  apply (C5_validation_shape_or_conversion_error industry_fallbackData).
  reflexivity.
Defined.

Example fallback_data_is_completed :
  exists d,
    validate_and_sanitize industry_fallbackData = Ok d
    /\ get d (str "nextActions") = Some empty_array
    /\ well_shaped d = true.
Proof. eexists. repeat split; vm_compute; reflexivity. Qed.

(** ** The role salaries of each city *)

Definition validated_roles (city : JVal) : JVal :=
  match get city (str "rolesSalaries") with
  | Some (JArr roles _) => JArr (filter roleSalary_ok roles) []
  | _ => empty_array
  end.

Lemma fix_cities_ok (items : list JVal) :
  sequence (map fix_city (filter city_ok items))
  = Ok (map (fun city => put city (str "rolesSalaries") (validated_roles city))
            (filter city_ok items)).
Proof.
  assert (Hall : forall c, In c (filter city_ok items) -> is_object c = true).
  { intros c Hin. apply filter_In in Hin as [_ Hok]. unfold city_ok in Hok.
    apply andb_true_iff in Hok as [Hok _].
    now apply andb_true_iff in Hok as [Hok _]. }
  induction (filter city_ok items) as [|c cs IH]; [reflexivity|].
  cbn [map sequence]. rewrite fix_city_spec by (apply Hall; now left).
  cbn [bind]. rewrite IH by (intros; apply Hall; now right).
  reflexivity.
Qed.

Lemma process_citySalaryData (d : JVal) (cities : list JVal)
      (ps : list (jstring * JVal)) :
  get d (str "citySalaryData") = Some (JArr cities ps) ->
  process_field d (str "citySalaryData")
  = Ok (put d (str "citySalaryData")
            (JArr (map (fun city => put city (str "rolesSalaries")
                                        (validated_roles city))
                       (filter city_ok cities)) [])).
Proof.
  intros E. unfold process_field. rewrite E.
  change (validate_items (str "citySalaryData") cities)
    with (do cs <- sequence (map fix_city (filter city_ok cities));
          Ok (Some (JArr cs []))).
  rewrite fix_cities_ok. cbn [bind].
  apply set_put. eapply get_some_is_object; eassumption.
Qed.

Lemma forEach_app (fs gs : list jstring) (d : JVal) :
  forEach (fs ++ gs) d = do d' <- forEach fs d; forEach gs d'.
Proof.
  revert d; induction fs as [|f fs IH]; intros d; cbn [app forEach bind].
  - reflexivity.
  - destruct (process_field d f) as [d1|e]; cbn [bind]; [apply IH|reflexivity].
Qed.

(** The fields other than [citySalaryData] leave [citySalaryData] as it
    is. *)
Lemma forEach_frame (fields : list jstring) (d d' : JVal) (k : jstring) :
  is_object d = true ->
  NoDup fields ->
  (forall f, In f fields -> jstr_eqb f (str "toString") = false) ->
  ~ In k fields ->
  forEach fields d = Ok d' ->
  is_object d' = true /\ get d' k = get d k.
Proof.
  intros Hobj Hnodup Hkeys Hk E.
  pose proof (forEach_spec fields d Hobj Hnodup Hkeys) as H.
  rewrite E in H. destruct H as (H1 & _ & H2 & _). auto.
Qed.

Lemma none_is_toString (l : list jstring) :
  forallb (fun g => negb (jstr_eqb g (str "toString"))) l = true ->
  forall f, In f l -> jstr_eqb f (str "toString") = false.
Proof.
  intros H f Hin. rewrite forallb_forall in H. specialize (H f Hin).
  now destruct (jstr_eqb f (str "toString")).
Qed.

(** C6 (counterexample): a city whose first role entry has the empty
    string as [role] and numeric salaries.  The entry is an object with a
    role field and salaries of type number, and the validator drops it;
    its complete sibling survives. *)
Lemma C6_counterexample :
  match
    option_map validate_and_sanitize
      (json_value (lit "{~citySalaryData~:[{~city~:~Pune~,~avgSalary~:5,~rolesSalaries~:[{~role~:~~,~minSalary~:1,~medianSalary~:2,~maxSalary~:3},{~role~:~Dev~,~minSalary~:4,~medianSalary~:5,~maxSalary~:6}]}]}"))
  with
  | Some (Ok d) =>
      option_map stringify (get d (str "citySalaryData"))
      = Some (lit "[{~city~:~Pune~,~avgSalary~:5,~rolesSalaries~:[{~role~:~Dev~,~minSalary~:4,~medianSalary~:5,~maxSalary~:6}]}]")
  | _ => False
  end.
Proof. vm_compute. reflexivity. Qed.

Definition fields_before : list jstring :=
  map str ["marketDemand"; "quickInsights"; "topSkills"]%string.

Definition fields_after : list jstring :=
  map str ["skillBasedBoosts"; "topCompanies"; "recommendedCourses";
           "careerPathInsights"; "emergingTrends"; "nextActions"]%string.

Lemma arrayFields_split :
  arrayFields = fields_before ++ [str "citySalaryData"] ++ fields_after.
Proof. reflexivity. Qed.

Lemma fields_around_citySalaryData (fields : list jstring) :
  (distinct fields
   && forallb (fun g => negb (jstr_eqb g (str "toString"))) fields
   && negb (existsb (jstr_eqb (str "citySalaryData")) fields)) = true ->
  NoDup fields
  /\ (forall f, In f fields -> jstr_eqb f (str "toString") = false)
  /\ ~ In (str "citySalaryData") fields.
Proof.
  intros H. apply andb_true_iff in H as [H H3].
  apply andb_true_iff in H as [H1 H2].
  repeat split.
  - now apply distinct_NoDup.
  - now apply none_is_toString.
  - apply not_in_by_eqb.
    now destruct (existsb (jstr_eqb (str "citySalaryData")) fields).
Qed.

(** A role entry the validator keeps, in the words of the amended
    claim. *)
Definition complete_entry (entry : JVal) : bool :=
  is_object entry
  && truthy_opt (get entry (str "role"))
  && number_or_string (get entry (str "minSalary"))
  && number_or_string (get entry (str "medianSalary"))
  && number_or_string (get entry (str "maxSalary")).

(** A validated city next to the input city it comes from. *)
Definition city_validated (city city' : JVal) : Prop :=
  (forall k, k <> str "rolesSalaries" -> get city' k = get city k)
  /\ get city' (str "rolesSalaries")
     = Some (JArr match get city (str "rolesSalaries") with
                  | Some (JArr roles _) => filter complete_entry roles
                  | _ => []
                  end []).

(** C6 (amended): whenever the validation step returns, the
    [citySalaryData] it returns holds, in their original order, the
    input cities that pass the city filter, each unchanged except for
    [rolesSalaries]; and the [rolesSalaries] of each is the array of
    exactly those entries of the city's input array, in their original
    order, that are objects with a truthy [role] and with [minSalary],
    [medianSalary] and [maxSalary] each of type number or string (the
    empty array when the input is not an array). *)
Theorem C6_rolesSalaries_filtered
        (data d : JVal) (cities : list JVal) (ps : list (jstring * JVal)) :
  get data (str "citySalaryData") = Some (JArr cities ps) ->
  validate_and_sanitize data = Ok d ->
  exists validated,
    get d (str "citySalaryData") = Some (JArr validated [])
    /\ Forall2 city_validated (filter city_ok cities) validated.
Proof.
  intros Hget Hok.
  assert (Hobj : is_object data = true)
    by (eapply get_some_is_object; eassumption).
  set (fixed := map (fun city => put city (str "rolesSalaries")
                                     (validated_roles city))
                    (filter city_ok cities)).
  exists fixed. split.
  - unfold validate_and_sanitize in Hok.
    destruct (is_object_true data Hobj) as [Ht _]. rewrite Ht in Hok.
    cbn [negb] in Hok.
    pose proof (process_overview_spec data Hobj) as H1.
    destruct (process_overview data) as [d1|e]; [|discriminate].
    destruct H1 as (Hobj1 & _ & Hframe1 & _). cbn [bind] in Hok.
    rewrite arrayFields_split, forEach_app in Hok.
    destruct (fields_around_citySalaryData fields_before eq_refl)
      as (Hnodup1 & Hkeys1 & Hnotin1).
    destruct (fields_around_citySalaryData fields_after eq_refl)
      as (Hnodup2 & Hkeys2 & Hnotin2).
    destruct (forEach fields_before d1) as [da|e] eqn:Ea; [|discriminate].
    cbn [bind forEach app] in Hok.
    destruct (forEach_frame fields_before d1 da (str "citySalaryData") Hobj1
                Hnodup1 Hkeys1 Hnotin1 Ea) as [Hobja Hgeta].
    rewrite Hframe1 in Hgeta by (intros E; vm_compute in E; discriminate).
    rewrite Hget in Hgeta.
    rewrite (process_citySalaryData da cities ps Hgeta) in Hok.
    cbn [bind] in Hok. fold fixed in Hok.
    destruct (forEach fields_after _) as [db|e] eqn:Eb; [|discriminate].
    cbn [bind] in Hok.
    destruct (forEach_frame fields_after _ db (str "citySalaryData")
                (eq_trans (is_object_put da _ _) Hobja)
                Hnodup2 Hkeys2 Hnotin2 Eb) as [Hobjb Hgetb].
    rewrite get_put_same in Hgetb by assumption.
    pose proof (process_salary_range_spec db Hobjb) as H3.
    rewrite Hok in H3. destruct H3 as (_ & _ & Hframe3 & _).
    rewrite Hframe3 by (intros E; vm_compute in E; discriminate).
    assumption.
  - subst fixed.
    assert (Hall : forall c, In c (filter city_ok cities) -> is_object c = true).
    { intros c Hin. apply filter_In in Hin as [_ Hc]. unfold city_ok in Hc.
      apply andb_true_iff in Hc as [Hc _].
      now apply andb_true_iff in Hc as [Hc _]. }
    induction (filter city_ok cities) as [|c cs IH]; cbn [map]; constructor.
    + split.
      * intros k Hk. apply get_put_other. congruence.
      * rewrite get_put_same by (apply Hall; now left).
        unfold validated_roles.
        destruct (get c (str "rolesSalaries")) as [[| | | | roles qs |]|];
          reflexivity.
    + apply IH. intros; apply Hall; now right.
Qed.

(** A sample: one city, whose second role entry lacks [maxSalary]. *)
Definition sample_cities : list JVal :=
  [JObj [(str "city", JStr (str "Pune"));
         (str "avgSalary", JInt 5);
         (str "rolesSalaries",
          JArr [JObj [(str "role", JStr (str "Dev"));
                      (str "minSalary", JInt 4);
                      (str "medianSalary", JStr (str "5"));
                      (str "maxSalary", JInt 6)];
                JObj [(str "role", JStr (str "QA"));
                      (str "minSalary", JInt 1);
                      (str "medianSalary", JInt 2)]] [])]].

Definition sample_insights : JVal :=
  JObj [(str "growthRate", JInt 12);
        (str "citySalaryData", JArr sample_cities [])].

Definition sample_validated : JVal :=
  Eval vm_compute in
    match validate_and_sanitize sample_insights with
    | Ok d => d
    | Throw _ => JNull
    end.

Lemma C6_witness :
  exists validated,
    get sample_validated (str "citySalaryData") = Some (JArr validated [])
    /\ Forall2 city_validated (filter city_ok sample_cities) validated.
Proof.
  apply (C6_rolesSalaries_filtered sample_insights sample_validated
                                   sample_cities []);
    vm_compute; reflexivity.
Defined.

Example sample_keeps_complete_entry :
  option_map stringify (get sample_validated (str "citySalaryData"))
  = Some (lit "[{~city~:~Pune~,~avgSalary~:5,~rolesSalaries~:[{~role~:~Dev~,~minSalary~:4,~medianSalary~:~5~,~maxSalary~:6}]}]").
Proof. vm_compute. reflexivity. Qed.

(** ** Reading a serialization back

    [JSON.parse] applied to what [JSON.stringify] wrote: string literals
    first, then numbers, then whole values. *)

Lemma hex_val_digit (x : N) : (x < 16)%N -> hex_val (hex_digit x) = Some x.
Proof.
  intros H. unfold hex_val, hex_digit, is_digit.
  destruct (N.ltb_spec x 10).
  - replace (N.leb 48 (48 + x)) with true by (symmetry; apply N.leb_le; lia).
    replace (N.leb (48 + x) 57) with true by (symmetry; apply N.leb_le; lia).
    cbn [andb]. f_equal. lia.
  - replace (N.leb (87 + x) 57) with false by (symmetry; apply N.leb_gt; lia).
    rewrite andb_false_r.
    replace (N.leb 97 (87 + x)) with true by (symmetry; apply N.leb_le; lia).
    replace (N.leb (87 + x) 102) with true by (symmetry; apply N.leb_le; lia).
    cbn [andb]. f_equal. lia.
Qed.

Lemma hex4_u_escape (c : char) (rest : jstring) :
  (c < 65536)%N ->
  exists h1 h2 h3 h4,
    u_escape c = [92; 117; h1; h2; h3; h4]%N
    /\ hex4 h1 h2 h3 h4 = Some c.
Proof.
  intros H. unfold u_escape. do 4 eexists. split; [reflexivity|].
  unfold hex4.
  rewrite !hex_val_digit.
  - f_equal.
    replace (c / 4096)%N with (c / 16 / 16 / 16)%N
      by (rewrite !N.Div0.div_div; reflexivity).
    replace (c / 256)%N with (c / 16 / 16)%N
      by (rewrite !N.Div0.div_div; reflexivity).
    pose proof (N.Div0.div_mod c 16).
    pose proof (N.Div0.div_mod (c / 16) 16).
    pose proof (N.Div0.div_mod (c / 16 / 16) 16).
    lia.
  - apply N.mod_lt; lia.
  - apply N.mod_lt; lia.
  - apply N.mod_lt; lia.
  - apply N.Div0.div_lt_upper_bound; lia.
Qed.

Lemma parse_chars_cons (c : char) (t rest s : jstring) :
  N.eqb c 34 = false -> N.eqb c 92 = false -> N.ltb c 32 = false ->
  parse_chars s = Some (t, rest) ->
  parse_chars (c :: s) = Some (c :: t, rest).
Proof.
  intros H1 H2 H3 H. cbn [parse_chars]. now rewrite H1, H2, H3, H.
Qed.

Lemma parse_chars_escape (e u : char) (t rest s : jstring) :
  N.eqb e 117 = false -> unescape e = Some u ->
  parse_chars s = Some (t, rest) ->
  parse_chars (92 :: e :: s)%N = Some (u :: t, rest).
Proof.
  intros H1 H2 H. cbn [parse_chars].
  change (N.eqb 92 34) with false. change (N.eqb 92 92) with true.
  cbv iota. now rewrite H1, H2, H.
Qed.

Lemma parse_chars_u_escape (c : char) (t rest s : jstring) :
  (c < 65536)%N ->
  parse_chars s = Some (t, rest) ->
  parse_chars (u_escape c ++ s) = Some (c :: t, rest).
Proof.
  intros Hc H. destruct (hex4_u_escape c rest Hc) as (h1 & h2 & h3 & h4 & -> & Hhex).
  cbn [app parse_chars].
  change (N.eqb 92 34) with false. change (N.eqb 92 92) with true.
  change (N.eqb 117 117) with true. cbv iota. now rewrite Hhex, H.
Qed.

Lemma parse_chars_quote (s rest : jstring) :
  parse_chars (quote_chars s ++ 34%N :: rest) = Some (s, rest).
Proof.
  remember (length s) as n eqn:Hn.
  revert s Hn. induction n as [n IH] using lt_wf_ind. intros s Hn.
  destruct s as [|c s']; [reflexivity|].
  assert (IH1 : parse_chars (quote_chars s' ++ 34%N :: rest) = Some (s', rest))
    by (apply (IH (length s')); [subst; cbn; lia|reflexivity]).
  cbn [quote_chars].
  destruct (N.eqb_spec c 34) as [->|H34];
    [rewrite <- app_assoc; now apply parse_chars_escape|].
  destruct (N.eqb_spec c 92) as [->|H92];
    [rewrite <- app_assoc; now apply parse_chars_escape|].
  destruct (N.eqb_spec c 8) as [->|H8];
    [rewrite <- app_assoc; now apply parse_chars_escape|].
  destruct (N.eqb_spec c 12) as [->|H12];
    [rewrite <- app_assoc; now apply parse_chars_escape|].
  destruct (N.eqb_spec c 10) as [->|H10];
    [rewrite <- app_assoc; now apply parse_chars_escape|].
  destruct (N.eqb_spec c 13) as [->|H13];
    [rewrite <- app_assoc; now apply parse_chars_escape|].
  destruct (N.eqb_spec c 9) as [->|H9];
    [rewrite <- app_assoc; now apply parse_chars_escape|].
  destruct (N.ltb_spec c 32) as [H32|H32];
    [rewrite <- app_assoc; apply parse_chars_u_escape; [lia|assumption]|].
  assert (Hlit : forall t s0, parse_chars s0 = Some (t, rest) ->
                              parse_chars (c :: s0) = Some (c :: t, rest)).
  { intros t s0 H0. apply parse_chars_cons; trivial.
    - now apply N.eqb_neq.
    - now apply N.eqb_neq.
    - now apply N.ltb_ge. }
  unfold is_lead, is_trail.
  destruct (N.leb_spec 55296 c); destruct (N.leb_spec c 56319); cbn [andb];
    try (destruct (N.leb_spec 56320 c); destruct (N.leb_spec c 57343);
         cbn [andb];
         first [ now apply Hlit
               | rewrite <- app_assoc; apply parse_chars_u_escape;
                 [lia|assumption] ]).
  destruct s' as [|d s''].
  - apply parse_chars_u_escape; [lia|reflexivity].
  - destruct (N.leb_spec 56320 d); destruct (N.leb_spec d 57343); cbn [andb];
      try (rewrite <- app_assoc; apply parse_chars_u_escape; [lia|assumption]).
    cbn [app]. apply Hlit. apply parse_chars_cons.
    + apply N.eqb_neq; lia.
    + apply N.eqb_neq; lia.
    + apply N.ltb_ge; lia.
    + apply (IH (length s'')); [subst; cbn; lia|reflexivity].
Qed.

(** *** Numbers *)

Lemma digits_value_acc (l : list N) (acc : N) :
  fold_left (fun a d => (a * 10 + d)%N) l acc
  = (acc * 10 ^ N.of_nat (length l) + digits_value l)%N.
Proof.
  unfold digits_value. revert acc; induction l as [|d l IH]; intros acc.
  - cbn. lia.
  - cbn [fold_left length]. rewrite IH, (IH (0 * 10 + d)%N).
    rewrite Nat2N.inj_succ, N.pow_succ_r'. lia.
Qed.

Lemma digits_value_app (a b : list N) :
  digits_value (a ++ b)
  = (digits_value a * 10 ^ N.of_nat (length b) + digits_value b)%N.
Proof.
  unfold digits_value at 1. rewrite fold_left_app.
  fold (digits_value a). apply digits_value_acc.
Qed.

Lemma digits_value_zeros (t : nat) : digits_value (repeat 0%N t) = 0%N.
Proof.
  induction t as [|t IH]; [reflexivity|].
  change (repeat 0%N (S t)) with ([0%N] ++ repeat 0%N t).
  rewrite digits_value_app, IH. reflexivity.
Qed.

Lemma digit_values_aux_acc (fuel : nat) (n : N) (acc : list N) :
  digit_values_aux fuel n acc = digit_values_aux fuel n [] ++ acc.
Proof.
  revert n acc; induction fuel as [|f IH]; intros n acc; [reflexivity|].
  cbn [digit_values_aux]. destruct (N.ltb n 10); [reflexivity|].
  rewrite IH, (IH _ [_]), <- app_assoc. reflexivity.
Qed.

Lemma log2_tenth (n : N) (f : nat) :
  (10 <= n)%N -> N.to_nat (N.log2 n) < S f -> N.to_nat (N.log2 (n / 10)) < f.
Proof.
  intros Hn Hf.
  assert (H1 : (n < 2 ^ N.of_nat (S f))%N) by (apply N.log2_lt_pow2; lia).
  rewrite Nat2N.inj_succ, N.pow_succ_r' in H1.
  assert (H2 : (0 < n / 10)%N) by (apply N.div_str_pos; lia).
  assert (H3 : (n / 10 < 2 ^ N.of_nat f)%N)
    by (apply N.Div0.div_lt_upper_bound; lia).
  apply N.log2_lt_pow2 in H3; lia.
Qed.

Lemma digit_values_aux_spec (fuel : nat) (n : N) :
  N.to_nat (N.log2 n) < fuel ->
  let ds := digit_values_aux fuel n [] in
  digits_value ds = n
  /\ Forall (fun d => (d < 10)%N) ds
  /\ (exists init, ds = init ++ [(n mod 10)%N])
  /\ (n <> 0%N -> exists d rest, ds = d :: rest /\ d <> 0%N).
Proof.
  revert n; induction fuel as [|f IH]; intros n Hf; [lia|].
  cbn [digit_values_aux]. destruct (N.ltb_spec n 10) as [Hlt|Hge].
  - cbn zeta. rewrite N.mod_small by assumption.
    refine (conj _ (conj _ (conj _ _))).
    + unfold digits_value. cbn [fold_left]. lia.
    + constructor; [assumption|constructor].
    + now exists [].
    + intros Hn. now exists n, [].
  - cbn zeta. rewrite digit_values_aux_acc.
    destruct (IH (n / 10)%N (log2_tenth n f Hge Hf))
      as (Hval & Hall & _ & Hhead).
    refine (conj _ (conj _ (conj _ _))).
    + rewrite digits_value_app, Hval. cbn [length].
      change (digits_value [(n mod 10)%N]) with (0 * 10 + n mod 10)%N.
      pose proof (N.Div0.div_mod n 10). cbn. lia.
    + apply Forall_app. split; [assumption|].
      constructor; [apply N.mod_lt; lia|constructor].
    + eauto.
    + intros _. destruct Hhead as (d & rest & -> & Hd).
      * assert (0 < n / 10)%N by (apply N.div_str_pos; lia). lia.
      * exists d, (rest ++ [(n mod 10)%N]). now split.
Qed.

Lemma digit_values_spec (n : N) :
  digits_value (digit_values n) = n
  /\ Forall (fun d => (d < 10)%N) (digit_values n)
  /\ (exists init, digit_values n = init ++ [(n mod 10)%N])
  /\ (n <> 0%N -> exists d rest, digit_values n = d :: rest /\ d <> 0%N).
Proof. apply digit_values_aux_spec. lia. Qed.

(** What may follow a number in a serialization: nothing, or a comma or
    a closing bracket or brace. *)
Definition closes (rest : jstring) : bool :=
  match rest with
  | [] => true
  | c :: _ => one_of [44; 93; 125]%N c
  end.

Lemma closes_head (rest : jstring) :
  closes rest = true ->
  rest = [] \/ exists c r, rest = c :: r /\ (c = 44 \/ c = 93 \/ c = 125)%N.
Proof.
  destruct rest as [|c r]; [now left|]. cbn [closes one_of existsb].
  intros H. right. exists c, r. split; [reflexivity|].
  destruct (N.eqb_spec c 44); [auto|].
  destruct (N.eqb_spec c 93); [auto|].
  destruct (N.eqb_spec c 125); [auto|]. discriminate.
Qed.

Lemma is_digit_char (d : N) : (d < 10)%N -> is_digit (48 + d)%N = true.
Proof.
  intros H. unfold is_digit. apply andb_true_iff. split; apply N.leb_le; lia.
Qed.

Lemma span_digits_chars (ds : list N) (rest : jstring) :
  Forall (fun d => (d < 10)%N) ds ->
  match rest with [] => True | c :: _ => is_digit c = false end ->
  span_digits (digit_chars ds ++ rest) = (ds, rest).
Proof.
  intros Hds Hrest. induction Hds as [|d ds Hd _ IH]; cbn [digit_chars map app].
  - destruct rest as [|c r]; [reflexivity|]. cbn [span_digits]. now rewrite Hrest.
  - cbn [span_digits]. rewrite is_digit_char by assumption.
    fold (digit_chars ds). rewrite IH. f_equal. f_equal. lia.
Qed.

Lemma closes_no_digit (rest : jstring) :
  closes rest = true ->
  match rest with [] => True | c :: _ => is_digit c = false end.
Proof.
  intros H. destruct (closes_head rest H) as [ -> | (c & r & -> & [ -> | [ -> | -> ] ]) ];
    trivial.
Qed.

Lemma parse_int_digits (ds : list N) (rest : jstring) :
  Forall (fun d => (d < 10)%N) ds ->
  (exists d ds', ds = d :: ds' /\ d <> 0%N) ->
  match rest with [] => True | c :: _ => is_digit c = false end ->
  parse_int (digit_chars ds ++ rest) = Some (ds, rest).
Proof.
  intros Hds (d & ds' & -> & Hd) Hrest.
  pose proof (span_digits_chars (d :: ds') rest Hds Hrest) as Hspan.
  cbn [digit_chars map app] in *. unfold parse_int.
  inversion Hds as [|? ? Hd10 _]; subst.
  replace (N.eqb (48 + d)%N 48%N) with false by (symmetry; apply N.eqb_neq; lia).
  rewrite is_digit_char by assumption. now rewrite Hspan.
Qed.

Lemma parse_frac_digits (ds : list N) (rest : jstring) :
  Forall (fun d => (d < 10)%N) ds -> ds <> [] ->
  match rest with [] => True | c :: _ => is_digit c = false end ->
  parse_frac (46%N :: digit_chars ds ++ rest) = Some (ds, rest).
Proof.
  intros Hds Hne Hrest. unfold parse_frac.
  change (N.eqb 46 46) with true. cbv iota.
  rewrite span_digits_chars by assumption. destruct ds; [contradiction|reflexivity].
Qed.

Lemma parse_frac_absent (rest : jstring) :
  match rest with [] => True | c :: _ => N.eqb c 46 = false end ->
  parse_frac rest = Some ([], rest).
Proof.
  intros H. unfold parse_frac. destruct rest as [|c r]; [reflexivity|now rewrite H].
Qed.

Lemma parse_exp_absent (rest : jstring) :
  match rest with
  | [] => True
  | c :: _ => N.eqb c 101 = false /\ N.eqb c 69 = false
  end ->
  parse_exp rest = Some (0%Z, rest).
Proof.
  intros H. unfold parse_exp. destruct rest as [|c r]; [reflexivity|].
  destruct H as [-> ->]. reflexivity.
Qed.

Lemma closes_not_mark (rest : jstring) :
  closes rest = true ->
  match rest with [] => True | c :: _ => N.eqb c 46 = false end
  /\ match rest with
     | [] => True
     | c :: _ => N.eqb c 101 = false /\ N.eqb c 69 = false
     end.
Proof.
  intros H. destruct (closes_head rest H) as [ -> | (c & r & -> & [ -> | [ -> | -> ] ]) ];
    repeat split.
Qed.

(** The exponent part Number::toString writes. *)
Lemma parse_exp_printed (e : Z) (rest : jstring) :
  closes rest = true ->
  parse_exp (str (if Z.ltb e 0 then "e-" else "e+") ++ N_digits (Z.abs_N e)
             ++ rest) = Some (e, rest).
Proof.
  intros Hrest. destruct (digit_values_spec (Z.abs_N e)) as (Hval & Hall & _ & _).
  assert (Hne : digit_values (Z.abs_N e) <> []).
  { destruct (digit_values_spec (Z.abs_N e)) as (_ & _ & (init & ->) & _).
    now destruct init. }
  unfold N_digits.
  destruct (Z.ltb_spec e 0) as [Hneg|Hpos].
  - change (str "e-") with [101; 45]%N. cbn [app]. unfold parse_exp.
    change (N.eqb 101 101 || N.eqb 101 69) with true.
    change (N.eqb 45 45) with true. cbv iota.
    rewrite span_digits_chars
      by (first [assumption | now apply closes_no_digit]).
    destruct (digit_values (Z.abs_N e)); [contradiction|].
    rewrite Hval. f_equal. f_equal. lia.
  - change (str "e+") with [101; 43]%N. cbn [app]. unfold parse_exp.
    change (N.eqb 101 101 || N.eqb 101 69) with true.
    change (N.eqb 43 45) with false. change (N.eqb 43 43) with true.
    cbv iota.
    rewrite span_digits_chars
      by (first [assumption | now apply closes_no_digit]).
    destruct (digit_values (Z.abs_N e)); [contradiction|].
    rewrite Hval. f_equal. f_equal. lia.
Qed.

(** The text of an exponent part: none, or the one Number::toString
    writes for [e]. *)
Definition exponent_text (e : option Z) : jstring :=
  match e with
  | None => []
  | Some e => str (if Z.ltb e 0 then "e-" else "e+") ++ N_digits (Z.abs_N e)
  end.

Definition fraction_text (F : list N) : jstring :=
  match F with
  | [] => []
  | _ :: _ => 46%N :: digit_chars F
  end.

Definition sign_text (neg : bool) : jstring := if neg then [45%N] else [].

Lemma exponent_head (e : option Z) (rest : jstring) :
  closes rest = true ->
  match exponent_text e ++ rest with
  | [] => True
  | c :: _ => is_digit c = false /\ N.eqb c 46 = false
  end.
Proof.
  intros H. destruct e as [e|]; cbn [exponent_text].
  - destruct (Z.ltb e 0);
      [change (str "e-") with [101; 45]%N|change (str "e+") with [101; 43]%N];
      cbn [app]; split; reflexivity.
  - cbn [app].
    destruct (closes_head rest H) as [ -> | (c & r & -> & [ -> | [ -> | -> ] ]) ];
      try exact I; split; reflexivity.
Qed.

Lemma parse_exp_text (e : option Z) (rest : jstring) :
  closes rest = true ->
  parse_exp (exponent_text e ++ rest)
  = Some (match e with Some z => z | None => 0%Z end, rest).
Proof.
  intros H. destruct e as [e|]; cbn [exponent_text].
  - rewrite <- app_assoc. now apply parse_exp_printed.
  - cbn [app]. apply parse_exp_absent. now apply closes_not_mark.
Qed.

Lemma parse_frac_text (F : list N) (s : jstring) :
  Forall (fun d => (d < 10)%N) F ->
  match s with
  | [] => True
  | c :: _ => is_digit c = false /\ N.eqb c 46 = false
  end ->
  parse_frac (fraction_text F ++ s) = Some (F, s).
Proof.
  intros HF Hs. destruct F as [|d F]; cbn [fraction_text app].
  - apply parse_frac_absent. destruct s; [trivial|apply Hs].
  - apply parse_frac_digits; [assumption|discriminate|].
    destruct s; [trivial|apply Hs].
Qed.

Lemma parse_number_printed (neg : bool) (I F : list N) (e : option Z)
      (rest : jstring) :
  Forall (fun d => (d < 10)%N) I ->
  (I = [0%N] \/ exists d ds, I = d :: ds /\ d <> 0%N) ->
  Forall (fun d => (d < 10)%N) F ->
  closes rest = true ->
  parse_number (sign_text neg ++ digit_chars I ++ fraction_text F
                ++ exponent_text e ++ rest)
  = Some (decimal (let m := Z.of_N (digits_value (I ++ F)) in
                   if neg then (- m)%Z else m)
                  (match e with Some z => z | None => 0%Z end
                   - Z.of_nat (length F)),
          rest).
Proof.
  intros HI Hhead HF Hrest.
  assert (Hint : parse_int (digit_chars I ++ fraction_text F
                            ++ exponent_text e ++ rest)
                 = Some (I, fraction_text F ++ exponent_text e ++ rest)).
  { destruct Hhead as [->|Hhead]; [reflexivity|].
    apply parse_int_digits; try assumption.
    destruct F as [|d F]; cbn [fraction_text app].
    - pose proof (exponent_head e rest Hrest) as H.
      destruct (exponent_text e ++ rest); [trivial|apply H].
    - reflexivity. }
  assert (Hfirst : exists c s, digit_chars I = c :: s /\ N.eqb c 45 = false).
  { destruct Hhead as [->|(d & ds & -> & _)].
    - now exists 48%N, [].
    - exists (48 + d)%N, (digit_chars ds). split; [reflexivity|].
      apply N.eqb_neq. lia. }
  unfold parse_number.
  assert (Hsign :
            (let (neg0, s0) :=
               match sign_text neg ++ digit_chars I ++ fraction_text F
                     ++ exponent_text e ++ rest with
               | c :: s' => if N.eqb c 45 then (true, s')
                            else (false, sign_text neg ++ digit_chars I
                                         ++ fraction_text F
                                         ++ exponent_text e ++ rest)
               | [] => (false, sign_text neg ++ digit_chars I
                               ++ fraction_text F ++ exponent_text e ++ rest)
               end in (neg0, s0))
            = (neg, digit_chars I ++ fraction_text F ++ exponent_text e ++ rest)).
  { destruct neg; cbn [sign_text app]; [reflexivity|].
    destruct Hfirst as (c & s & -> & Hc). cbn [app]. now rewrite Hc. }
  destruct (match sign_text neg ++ digit_chars I ++ fraction_text F
                  ++ exponent_text e ++ rest with
            | [] => _ | _ :: _ => _ end) as [neg0 s0].
  injection Hsign as -> ->.
  rewrite Hint.
  rewrite parse_frac_text
    by (first [assumption | now apply exponent_head]).
  rewrite parse_exp_text by assumption.
  reflexivity.
Qed.

Lemma drop_zeros_spec (r : list N) (t : nat) :
  exists z,
    snd (drop_zeros r t) = t + z
    /\ rev r = fst (drop_zeros r t) ++ repeat 0%N z
    /\ (fst (drop_zeros r t) = []
        \/ exists init x, fst (drop_zeros r t) = init ++ [x] /\ x <> 0%N).
Proof.
  revert t; induction r as [|d r IH]; intros t; cbn [drop_zeros].
  - exists 0. cbn. auto.
  - destruct (N.eqb_spec d 0) as [->|Hd].
    + destruct (IH (S t)) as (z & H1 & H2 & H3). exists (S z).
      refine (conj _ (conj _ H3)); [lia|].
      cbn [rev]. rewrite H2, <- app_assoc. f_equal.
      change [0%N] with (repeat 0%N 1). rewrite <- repeat_app.
      f_equal. lia.
    + exists 0. cbn [fst snd repeat]. rewrite app_nil_r.
      refine (conj _ (conj eq_refl _)); [lia|].
      right. exists (rev r), d. split; [reflexivity|assumption].
Qed.

Lemma strip_zeros_spec (ds sig : list N) (t : nat) :
  strip_zeros ds = (sig, t) ->
  ds = sig ++ repeat 0%N t
  /\ (sig = [] \/ exists init x, sig = init ++ [x] /\ x <> 0%N).
Proof.
  unfold strip_zeros. intros E.
  destruct (drop_zeros_spec (rev ds) 0) as (z & H1 & H2 & H3).
  rewrite E in *. cbn [fst snd] in *. rewrite rev_involutive in H2.
  cbn in H1. subst z. auto.
Qed.

Lemma digit_chars_app (a b : list N) :
  digit_chars (a ++ b) = digit_chars a ++ digit_chars b.
Proof. apply map_app. Qed.

Lemma digit_chars_zeros (t : nat) : digit_chars (repeat 0%N t) = repeat 48%N t.
Proof. induction t; cbn; [reflexivity|]. f_equal. assumption. Qed.

Lemma digits_value_leading_zeros (t : nat) (ds : list N) :
  digits_value (repeat 0%N t ++ ds) = digits_value ds.
Proof. rewrite digits_value_app, digits_value_zeros. lia. Qed.

Lemma normalize_canonical (m : Z) (d : nat) :
  d = 0 \/ (m mod 10 <> 0)%Z -> normalize m d = Dec m d.
Proof.
  destruct d as [|d]; [reflexivity|]. intros [H|H]; [discriminate|].
  cbn [normalize]. destruct (Z.eqb_spec (m mod 10) 0); [contradiction|reflexivity].
Qed.

(** The value read back from the significant digits and the exponent
    Number::toString chose. *)
Lemma decimal_exact (M m : Z) (t d : nat) :
  (M * 10 ^ Z.of_nat t)%Z = m ->
  d = 0 \/ (t = 0 /\ (m mod 10 <> 0)%Z) ->
  decimal M (Z.of_nat t - Z.of_nat d) = Dec m d.
Proof.
  intros Hm Hc. unfold decimal.
  destruct Hc as [->|[-> Hmod]].
  - rewrite Z.sub_0_r.
    destruct (Z.leb_spec 0 (Z.of_nat t)); [|lia]. now rewrite Hm.
  - cbn [Z.of_nat Z.pow] in Hm. rewrite Z.mul_1_r in Hm. subst M.
    destruct d as [|d]; [cbn; now rewrite Z.mul_1_r|].
    destruct (Z.leb_spec 0 (Z.of_nat 0 - Z.of_nat (S d))); [lia|].
    replace (Z.to_nat (- (Z.of_nat 0 - Z.of_nat (S d)))) with (S d) by lia.
    apply normalize_canonical. now right.
Qed.

Definition canonical (m : Z) (d : nat) : Prop := d = 0 \/ (m mod 10 <> 0)%Z.

Lemma abs_mod_10 (m : Z) :
  (Z.abs_N m mod 10 = 0)%N -> (m mod 10 = 0)%Z.
Proof.
  intros H. assert (H' : (Z.abs m mod 10 = 0)%Z).
  { rewrite <- N2Z.inj_abs_N. change 10%Z with (Z.of_N 10).
    rewrite <- N2Z.inj_mod. now rewrite H. }
  apply Z.mod_divide in H'; [|lia]. apply Z.mod_divide; [lia|].
  exact (proj1 (Z.divide_abs_r 10 m) H').
Qed.

Lemma significant_digits (m : Z) (d : nat) (sig : list N) (t : nat) :
  m <> 0%Z -> canonical m d ->
  strip_zeros (digit_values (Z.abs_N m)) = (sig, t) ->
  Forall (fun x => (x < 10)%N) sig
  /\ (exists c r, sig = c :: r /\ c <> 0%N)
  /\ (Z.of_N (digits_value sig) * 10 ^ Z.of_nat t)%Z = Z.abs m
  /\ (d = 0 \/ (t = 0 /\ (m mod 10 <> 0)%Z)).
Proof.
  intros Hm Hc E.
  destruct (digit_values_spec (Z.abs_N m)) as (Hval & Hall & (init & Hlast) & Hhead).
  destruct (strip_zeros_spec _ _ _ E) as (Hds & Hsig).
  destruct Hhead as (c0 & r0 & Hc0 & Hnz); [lia|].
  refine (conj _ (conj _ (conj _ _))).
  - rewrite Hds in Hall. now apply Forall_app in Hall as [Hall _].
  - destruct sig as [|c r].
    + exfalso. cbn [app] in Hds. rewrite Hds in Hc0.
      destruct t; [discriminate|]. cbn in Hc0. congruence.
    + exists c, r. split; [reflexivity|].
      rewrite Hds in Hc0. cbn [app] in Hc0. congruence.
  - rewrite <- N2Z.inj_abs_N, <- Hval, Hds, digits_value_app, digits_value_zeros.
    rewrite repeat_length, N.add_0_r, N2Z.inj_mul, N2Z.inj_pow, nat_N_Z.
    reflexivity.
  - destruct Hc as [->|Hmod]; [now left|]. right. split; [|assumption].
    destruct t as [|t]; [reflexivity|]. exfalso. apply Hmod.
    apply abs_mod_10.
    rewrite Hlast in Hds.
    replace (repeat 0%N (S t)) with (repeat 0%N t ++ [0%N]) in Hds
      by (change [0%N] with (repeat 0%N 1); rewrite <- repeat_app;
          f_equal; lia).
    rewrite app_assoc in Hds. apply app_inj_tail in Hds as [_ Hds].
    exact Hds.
Qed.

Lemma firstn_head (n : nat) (c : N) (r : list N) :
  0 < n -> exists ds, firstn n (c :: r) = c :: ds.
Proof. destruct n; [lia|]. intros _. cbn. eauto. Qed.

Definition signed (neg : bool) (ds : list N) : Z :=
  if neg then (- Z.of_N (digits_value ds))%Z else Z.of_N (digits_value ds).

Definition valid_int (I : list N) : Prop :=
  Forall (fun d => (d < 10)%N) I
  /\ (I = [0%N] \/ exists d ds, I = d :: ds /\ d <> 0%N).

Lemma printed_int (neg : bool) (I : list N) (rest : jstring) :
  valid_int I -> closes rest = true ->
  parse_number (sign_text neg ++ digit_chars I ++ rest)
  = Some (decimal (signed neg I) 0, rest).
Proof.
  intros [H1 H2] Hrest.
  pose proof (parse_number_printed neg I [] None rest H1 H2 (Forall_nil _) Hrest)
    as H.
  cbn [fraction_text exponent_text app length Z.of_nat] in H.
  rewrite app_nil_r in H. exact H.
Qed.

Lemma printed_fraction (neg : bool) (I F : list N) (rest : jstring) :
  valid_int I -> Forall (fun d => (d < 10)%N) F -> F <> [] ->
  closes rest = true ->
  parse_number (sign_text neg ++ digit_chars I ++ str "." ++ digit_chars F
                ++ rest)
  = Some (decimal (signed neg (I ++ F)) (- Z.of_nat (length F)), rest).
Proof.
  intros [H1 H2] HF Hne Hrest.
  pose proof (parse_number_printed neg I F None rest H1 H2 HF Hrest) as H.
  destruct F as [|x F]; [contradiction|].
  cbn [fraction_text exponent_text app] in H. exact H.
Qed.

Lemma printed_exponent (neg : bool) (I F : list N) (e : Z) (rest : jstring) :
  valid_int I -> Forall (fun d => (d < 10)%N) F ->
  closes rest = true ->
  parse_number (sign_text neg ++ digit_chars I ++ fraction_text F
                ++ str (if Z.ltb e 0 then "e-" else "e+")
                ++ N_digits (Z.abs_N e) ++ rest)
  = Some (decimal (signed neg (I ++ F)) (e - Z.of_nat (length F)), rest).
Proof.
  intros [H1 H2] HF Hrest.
  pose proof (parse_number_printed neg I F (Some e) rest H1 H2 HF Hrest) as H.
  cbn [exponent_text] in H.
  rewrite <- (app_assoc (str _) (N_digits _) rest) in H. exact H.
Qed.

Lemma valid_int_cons (c : N) (ds : list N) :
  Forall (fun d => (d < 10)%N) (c :: ds) -> c <> 0%N -> valid_int (c :: ds).
Proof. intros H Hc. split; [assumption|]. right. eauto. Qed.

Lemma valid_int_zero : valid_int [0%N].
Proof.
  split; [constructor; [reflexivity|constructor]|now left].
Qed.

Lemma Forall_zeros (j : nat) : Forall (fun d => (d < 10)%N) (repeat 0%N j).
Proof.
  apply Forall_forall. intros x Hx. apply repeat_spec in Hx. now subst x.
Qed.

(** Reading back what Number::toString writes for a canonical finite
    number. *)
Lemma parse_number_to_string (m : Z) (d : nat) (rest : jstring) :
  canonical m d -> closes rest = true ->
  parse_number (number_to_string (Dec m d) ++ rest) = Some (Dec m d, rest).
Proof.
  intros Hc Hrest. cbn [number_to_string].
  destruct (Z.eqb_spec m 0) as [->|Hm].
  - assert (d = 0) as -> by (destruct Hc as [H|H]; [assumption|now elim H]).
    exact (printed_int false [0%N] rest valid_int_zero Hrest).
  - destruct (strip_zeros (digit_values (Z.abs_N m))) as [sig t] eqn:E.
    destruct (significant_digits m d sig t Hm Hc E)
      as (Hall & (c & r & -> & Hnz) & Hval & Hshape).
    assert (Hfinal : forall e,
               e = (Z.of_nat t - Z.of_nat d)%Z ->
               decimal (signed (Z.ltb m 0) (c :: r)) e = Dec m d).
    { intros e ->. apply decimal_exact; [|assumption]. unfold signed.
      destruct (Z.ltb_spec m 0); lia. }
    set (k := Z.of_nat (length (c :: r))).
    set (n := (k + Z.of_nat t - Z.of_nat d)%Z).
    assert (Hk : k = Z.of_nat (S (length r))) by reflexivity.
    assert (Hn : n = (k + Z.of_nat t - Z.of_nat d)%Z) by reflexivity.
    clearbody k n.
    destruct (Z.leb k n && Z.leb n 21) eqn:C1;
      [|destruct (Z.ltb 0 n && Z.leb n 21) eqn:C2;
        [|destruct (Z.ltb (-6) n && Z.leb n 0) eqn:C3]].
    + (* digits followed by zeros *)
      apply andb_true_iff in C1. destruct C1 as [C1 _].
      apply Z.leb_le in C1.
      rewrite <- digit_chars_zeros, <- digit_chars_app, <- !app_assoc.
      refine (eq_trans (printed_int (Z.ltb m 0) _ rest _ Hrest) _).
      * apply (valid_int_cons c (r ++ repeat 0%N (Z.to_nat (n - k))));
          [|assumption].
        change (Forall (fun x => (x < 10)%N)
                       ((c :: r) ++ repeat 0%N (Z.to_nat (n - k)))).
        apply Forall_app. split; [assumption|apply Forall_zeros].
      * f_equal. f_equal.
        assert (d = 0) as -> by (destruct Hshape as [?|[? ?]]; lia).
        replace (Z.to_nat (n - k)) with t by lia.
        apply (decimal_exact _ m 0 0); [|now left]. unfold signed.
        rewrite digits_value_app, digits_value_zeros, repeat_length, N.add_0_r.
        rewrite N2Z.inj_mul, N2Z.inj_pow, nat_N_Z.
        change (Z.of_N 10) with 10%Z.
        destruct (Z.ltb_spec m 0); lia.
    + (* decimal point inside the digits *)
      assert (H0n : (0 < n < k)%Z).
      { destruct (Z.leb_spec k n), (Z.leb_spec n 21), (Z.ltb_spec 0 n);
          cbn in C1, C2; try discriminate; lia. }
      assert (Ht : t = 0) by (destruct Hshape as [?|[? ?]]; lia).
      destruct (firstn_head (Z.to_nat n) c r ltac:(lia)) as [ds Hds].
      pose proof (firstn_skipn (Z.to_nat n) (c :: r)) as Hsplit.
      assert (HF : Forall (fun x => (x < 10)%N) (firstn (Z.to_nat n) (c :: r))
                   /\ Forall (fun x => (x < 10)%N)
                             (skipn (Z.to_nat n) (c :: r))).
      { apply Forall_app. rewrite Hsplit. assumption. }
      destruct HF as [HI HF].
      assert (Hlen : length (skipn (Z.to_nat n) (c :: r)) = d).
      { rewrite length_skipn. cbn [length]. lia. }
      rewrite <- !app_assoc.
      refine (eq_trans (printed_fraction (Z.ltb m 0) _ _ rest _ HF _ Hrest) _).
      * rewrite Hds. apply valid_int_cons; [rewrite <- Hds|]; assumption.
      * intros Hnil. rewrite Hnil in Hlen. cbn [length] in Hlen. lia.
      * rewrite Hsplit, Hlen. f_equal. f_equal. apply Hfinal. lia.
    + (* zeros between the point and the digits *)
      assert (H0n : (n <= 0)%Z).
      { destruct (Z.ltb_spec (-6) n), (Z.leb_spec n 0);
          cbn in C3; try discriminate; lia. }
      assert (Ht : t = 0) by (destruct Hshape as [?|[? ?]]; lia).
      rewrite <- digit_chars_zeros, <- digit_chars_app, <- !app_assoc.
      refine (eq_trans (printed_fraction (Z.ltb m 0) [0%N] _ rest
                          valid_int_zero _ _ Hrest) _).
      * apply Forall_app. split; [apply Forall_zeros|assumption].
      * intros Hnil. apply app_eq_nil in Hnil. destruct Hnil; discriminate.
      * f_equal. f_equal.
        replace (signed (Z.ltb m 0) ([0%N] ++ repeat 0%N (Z.to_nat (- n))
                                      ++ c :: r))
          with (signed (Z.ltb m 0) (c :: r)).
        -- apply Hfinal. rewrite length_app, repeat_length. cbn [length]. lia.
        -- unfold signed.
           change ([0%N] ++ repeat 0%N (Z.to_nat (- n)) ++ c :: r)
             with (repeat 0%N (S (Z.to_nat (- n))) ++ c :: r).
           now rewrite digits_value_leading_zeros.
    + (* exponent notation *)
      cbv zeta.
      destruct r as [|x r'].
      * rewrite <- !app_assoc.
        refine (eq_trans (printed_exponent (Z.ltb m 0) [c] [] (n - 1) rest
                            _ (Forall_nil _) Hrest) _).
        -- apply valid_int_cons; assumption.
        -- f_equal. f_equal. apply Hfinal. cbn [length] in *. lia.
      * rewrite <- !app_assoc.
        refine (eq_trans (printed_exponent (Z.ltb m 0) [c] (x :: r') (n - 1)
                            rest _ _ Hrest) _).
        -- apply valid_int_cons; [|assumption].
           constructor; [now inversion Hall|constructor].
        -- now inversion Hall.
        -- f_equal. f_equal. apply Hfinal. cbn [length] in *. lia.
Qed.

(** *** Values *)

Definition canonicalb (m : Z) (d : nat) : bool :=
  Nat.eqb d 0 || negb (Z.eqb (m mod 10) 0).

Lemma canonicalb_spec (m : Z) (d : nat) :
  canonicalb m d = true -> canonical m d.
Proof.
  unfold canonicalb, canonical. intros H.
  apply orb_true_iff in H. destruct H as [H|H].
  - left. now apply Nat.eqb_eq.
  - right. apply negb_true_iff in H. now apply Z.eqb_neq.
Qed.

(** The values [JSON.parse] can return: finite numbers in canonical form,
    arrays without named properties, objects whose keys are distinct. *)
Fixpoint json_data (v : JVal) : bool :=
  match v with
  | JNull | JBool _ | JStr _ => true
  | JNum (Dec m d) => canonicalb m d
  | JNum _ => false
  | JArr l ps =>
      forallb json_data l && match ps with [] => true | _ :: _ => false end
  | JObj l =>
      forallb (fun kv => json_data (snd kv)) l && distinct (map fst l)
  end.

(** Recursion depth that reading a value back takes. *)
Fixpoint weight (v : JVal) : nat :=
  match v with
  | JArr l _ => S (list_sum (map (fun x => S (weight x)) l))
  | JObj l => S (list_sum (map (fun kv => S (weight (snd kv))) l))
  | _ => 1
  end.

Definition member_text (kv : jstring * JVal) : jstring :=
  quote (fst kv) ++ str ":" ++ stringify (snd kv).

Lemma parse_number_head (c : char) (s : jstring) :
  parse_number (c :: s) <> None -> c = 45%N \/ is_digit c = true.
Proof.
  unfold parse_number. destruct (N.eqb_spec c 45) as [->|Hc]; [now left|].
  intros H. right. cbn [parse_int] in H.
  destruct (N.eqb_spec c 48) as [->|H48]; [reflexivity|].
  destruct (is_digit c); [reflexivity|]. now elim H.
Qed.

Lemma number_head (m : Z) (d : nat) :
  canonical m d ->
  exists c s, number_to_string (Dec m d) = c :: s
              /\ (c = 45%N \/ is_digit c = true).
Proof.
  intros Hc.
  pose proof (parse_number_to_string m d [] Hc eq_refl) as H.
  rewrite app_nil_r in H.
  destruct (number_to_string (Dec m d)) as [|c s]; [discriminate H|].
  exists c, s. split; [reflexivity|].
  apply (parse_number_head c s). rewrite H. discriminate.
Qed.

Lemma digit_or_minus (c : char) :
  c = 45%N \/ is_digit c = true ->
  json_ws c = false
  /\ N.eqb c 123 = false /\ N.eqb c 91 = false /\ N.eqb c 34 = false
  /\ N.eqb c 116 = false /\ N.eqb c 102 = false /\ N.eqb c 110 = false.
Proof.
  intros [->|H]; [repeat split|].
  unfold is_digit in H. apply andb_true_iff in H. destruct H as [H1 H2].
  apply N.leb_le in H1, H2.
  unfold json_ws, one_of. cbn [existsb].
  repeat split;
    repeat match goal with
           | |- context [N.eqb ?a ?b] => destruct (N.eqb_spec a b); [lia|]
           end; reflexivity.
Qed.

Lemma parse_value_number (m : Z) (d n : nat) (rest : jstring) :
  canonical m d -> closes rest = true ->
  parse_value (S n) (number_to_string (Dec m d) ++ rest)
  = Some (JNum (Dec m d), rest).
Proof.
  intros Hc Hrest.
  pose proof (parse_number_to_string m d rest Hc Hrest) as Hp.
  destruct (number_head m d Hc) as (c & s & E & Hhead).
  rewrite E in *.
  destruct (digit_or_minus c Hhead) as (_ & H1 & H2 & H3 & H4 & H5 & H6).
  cbn [app parse_value]. rewrite H1, H2, H3, H4, H5, H6.
  change (c :: s ++ rest) with ((c :: s) ++ rest). now rewrite Hp.
Qed.

Lemma stringify_head (v : JVal) :
  json_data v = true ->
  exists c s, stringify v = c :: s
              /\ json_ws c = false /\ N.eqb c 93 = false.
Proof.
  destruct v as [|[|]|[| |m d]|s|l ps|l]; try discriminate;
    try (intros _; do 2 eexists; split; [reflexivity|split; reflexivity]).
  cbn [json_data stringify]. intros H. apply canonicalb_spec in H.
  destruct (number_head m d H) as (c & s & -> & Hhead).
  exists c, s. split; [reflexivity|].
  destruct (digit_or_minus c Hhead) as (Hws & _). split; [assumption|].
  destruct Hhead as [->|Hdig]; [reflexivity|].
  unfold is_digit in Hdig. apply andb_true_iff in Hdig.
  destruct Hdig as [H1 H2]. apply N.leb_le in H1, H2.
  apply N.eqb_neq. lia.
Qed.

Lemma skip_ws_stringify (v : JVal) (rest : jstring) :
  json_data v = true -> skip_ws (stringify v ++ rest) = stringify v ++ rest.
Proof.
  intros H. destruct (stringify_head v H) as (c & s & -> & Hws & _).
  cbn [app skip_ws]. now rewrite Hws.
Qed.

(** Reading a value back from its serialization, whatever closes it. *)
Definition reads_back (v : JVal) : Prop :=
  forall n rest, closes rest = true -> weight v <= n ->
                 parse_value n (stringify v ++ rest) = Some (v, rest).

Lemma join_cons (sep p q : jstring) (ps : list jstring) :
  join sep (p :: q :: ps) = p ++ sep ++ join sep (q :: ps).
Proof. cbn [join map concat]. now rewrite <- app_assoc. Qed.

Lemma parse_elements_join (l : list JVal) :
  Forall reads_back l -> Forall (fun v => json_data v = true) l ->
  forall v0 n rest,
    reads_back v0 ->
    list_sum (map (fun x => S (weight x)) (v0 :: l)) <= n ->
    parse_elements n (join (str ",") (map stringify (v0 :: l)) ++ 93%N :: rest)
    = Some (v0 :: l, rest).
Proof.
  induction 1 as [|v1 l Hv1 Hl IH]; intros Hdata v0 n rest Hv0 Hn;
    (destruct n as [|n]; [cbn in Hn; lia|]);
    simpl in Hn; cbn [parse_elements map].
  - cbn [join map concat]. rewrite app_nil_r.
    rewrite (Hv0 n (93%N :: rest) eq_refl) by lia. reflexivity.
  - rewrite join_cons, <- !app_assoc.
    change (str "," ++ join (str ",") (stringify v1 :: map stringify l)
              ++ 93%N :: rest)
      with (44%N :: join (str ",") (map stringify (v1 :: l)) ++ 93%N :: rest).
    rewrite (Hv0 n (44%N :: _) eq_refl) by lia.
    cbn [skip_ws]. change (json_ws 44%N) with false. cbv iota.
    change (N.eqb 44 93) with false. change (N.eqb 44 44) with true. cbv iota.
    inversion Hdata as [|? ? Hd1 Hdl]; subst.
    assert (Hskip : skip_ws (join (str ",") (map stringify (v1 :: l))
                             ++ 93%N :: rest)
                    = join (str ",") (map stringify (v1 :: l)) ++ 93%N :: rest).
    { cbn [map join]. rewrite <- app_assoc. now apply skip_ws_stringify. }
    rewrite Hskip, (IH Hdl v1 n rest Hv1) by (simpl; lia).
    reflexivity.
Qed.

Lemma parse_member (kv : jstring * JVal) (n : nat) (tail : jstring) :
  reads_back (snd kv) -> json_data (snd kv) = true ->
  closes tail = true -> weight (snd kv) <= n ->
  match member_text kv ++ tail with
  | q :: s' =>
      negb (N.eqb q 34) = false
      /\ parse_chars s' = Some (fst kv, 58%N :: stringify (snd kv) ++ tail)
  | [] => False
  end
  /\ parse_value n (skip_ws (stringify (snd kv) ++ tail))
     = Some (snd kv, tail).
Proof.
  intros Hv Hd Htail Hn. destruct kv as [k v]. cbn [fst snd] in *. split.
  - unfold member_text, quote. cbn [fst snd app]. split; [reflexivity|].
    rewrite <- !app_assoc.
    exact (parse_chars_quote k (58%N :: stringify v ++ tail)).
  - rewrite skip_ws_stringify by assumption. now apply Hv.
Qed.

Lemma parse_members_join (l : list (jstring * JVal)) :
  Forall (fun kv => reads_back (snd kv)) l ->
  Forall (fun kv => json_data (snd kv) = true) l ->
  forall kv0 n rest,
    reads_back (snd kv0) -> json_data (snd kv0) = true ->
    list_sum (map (fun kv => S (weight (snd kv))) (kv0 :: l)) <= n ->
    parse_members n (join (str ",") (map member_text (kv0 :: l))
                     ++ 125%N :: rest)
    = Some (kv0 :: l, rest).
Proof.
  induction 1 as [|kv1 l Hv1 Hl IH]; intros Hdata kv0 n rest Hv0 Hd0 Hn;
    (destruct n as [|n]; [cbn in Hn; lia|]);
    simpl in Hn; cbn [map].
  - cbn [join map concat]. rewrite app_nil_r.
    destruct (parse_member kv0 n (125%N :: rest) Hv0 Hd0 eq_refl ltac:(lia))
      as [Hhead Hval].
    destruct (member_text kv0 ++ 125%N :: rest) as [|q s'] eqn:E;
      [contradiction|].
    destruct Hhead as [Hq Hk]. cbn [parse_members].
    rewrite Hq, Hk. cbn [skip_ws]. change (json_ws 58%N) with false.
    cbv iota. change (N.eqb 58 58) with true. cbn [negb].
    rewrite Hval. destruct kv0 as [k v]. reflexivity.
  - rewrite join_cons, <- !app_assoc.
    change (str "," ++ join (str ",") (member_text kv1 :: map member_text l)
              ++ 125%N :: rest)
      with (44%N :: join (str ",") (map member_text (kv1 :: l))
                 ++ 125%N :: rest).
    destruct (parse_member kv0 n
                (44%N :: join (str ",") (map member_text (kv1 :: l))
                      ++ 125%N :: rest) Hv0 Hd0 eq_refl ltac:(lia))
      as [Hhead Hval].
    destruct (member_text kv0 ++ 44%N :: _) as [|q s'] eqn:E;
      [contradiction|].
    destruct Hhead as [Hq Hk]. cbn [parse_members].
    rewrite Hq, Hk. cbn [skip_ws]. change (json_ws 58%N) with false.
    cbv iota. change (N.eqb 58 58) with true. cbn [negb].
    rewrite Hval. cbn [skip_ws]. change (json_ws 44%N) with false. cbv iota.
    change (N.eqb 44 125) with false. change (N.eqb 44 44) with true. cbv iota.
    inversion Hdata as [|? ? Hd1 Hdl]; subst.
    assert (Hskip : skip_ws (join (str ",") (map member_text (kv1 :: l))
                             ++ 125%N :: rest)
                    = join (str ",") (map member_text (kv1 :: l))
                      ++ 125%N :: rest) by reflexivity.
    rewrite Hskip, (IH Hdl kv1 n rest Hv1 Hd1) by (simpl; lia).
    destruct kv0 as [k v]. reflexivity.
Qed.

Lemma assign_fresh (k : jstring) (v : JVal) (l : list (jstring * JVal)) :
  ~ In k (map fst l) -> assign k v l = l ++ [(k, v)].
Proof.
  induction l as [|[k' v'] l IH]; cbn [assign map fst In app];
    [reflexivity|].
  intros H. destruct (jstr_eqb_spec k k') as [->|Hne].
  - elim H. now left.
  - rewrite IH; [reflexivity|]. intros Hin. apply H. now right.
Qed.

Lemma fold_assign (ms acc : list (jstring * JVal)) :
  NoDup (map fst (acc ++ ms)) ->
  fold_left (fun o kv => assign (fst kv) (snd kv) o) ms acc = acc ++ ms.
Proof.
  revert acc. induction ms as [|[k v] ms IH]; intros acc H; cbn [fold_left].
  - now rewrite app_nil_r.
  - cbn [fst snd]. rewrite assign_fresh.
    + rewrite IH; rewrite <- app_assoc; [reflexivity|assumption].
    + rewrite map_app in H. cbn [map fst] in H.
      apply NoDup_remove_2 in H. intros Hin. apply H.
      apply in_or_app. now left.
Qed.

Lemma build_object_distinct (l : list (jstring * JVal)) :
  distinct (map fst l) = true -> build_object l = l.
Proof.
  intros H. unfold build_object. rewrite fold_assign; [reflexivity|].
  now apply distinct_NoDup.
Qed.

Lemma forallb_Forall {A : Type} (f : A -> bool) (l : list A) :
  forallb f l = true -> Forall (fun x => f x = true) l.
Proof. intros H. apply Forall_forall. now apply forallb_forall. Qed.

(** Every JSON value is read back from its serialization. *)
Lemma parse_value_stringify (v : JVal) :
  json_data v = true -> reads_back v.
Proof.
  induction v as [|b|x|s|l ps IHl _|l IHl] using JVal_ind;
    intros Hd n rest Hrest Hn;
    (destruct n as [|n]; [cbn in Hn; lia|]).
  - reflexivity.
  - destruct b; reflexivity.
  - destruct x as [| |m d]; try discriminate Hd.
    apply parse_value_number; [now apply canonicalb_spec|assumption].
  - cbn [stringify quote app parse_value].
    change (N.eqb 34 123) with false. change (N.eqb 34 91) with false.
    change (N.eqb 34 34) with true. cbv iota.
    rewrite <- app_assoc. cbn [app].
    now rewrite parse_chars_quote.
  - cbn [json_data] in Hd. apply andb_true_iff in Hd. destruct Hd as [Hl Hps].
    destruct ps; [|discriminate Hps]. apply forallb_Forall in Hl.
    assert (Hback : Forall reads_back l).
    { apply Forall_forall. intros x Hx.
      apply (proj1 (Forall_forall _ _) IHl x Hx).
      apply (proj1 (Forall_forall _ _) Hl x Hx). }
    destruct l as [|v0 l]; [reflexivity|].
    cbn [stringify]. rewrite <- !app_assoc.
    change (str "[" ++ join (str ",") (map stringify (v0 :: l))
              ++ str "]" ++ rest)
      with (91%N :: join (str ",") (map stringify (v0 :: l)) ++ 93%N :: rest).
    cbn [parse_value]. change (N.eqb 91 123) with false.
    change (N.eqb 91 91) with true. cbv iota.
    inversion Hback as [|? ? Hb0 Hbl]; inversion Hl as [|? ? Hd0 Hdl]; subst.
    pose proof (parse_elements_join l Hbl Hdl v0 n rest Hb0) as He.
    assert (Hsum : list_sum (map (fun x => S (weight x)) (v0 :: l)) <= n)
      by (cbn [weight] in Hn; lia).
    specialize (He Hsum). clear Hsum.
    destruct (stringify_head v0 Hd0) as (c & s & E & Hws & H93).
    cbn [map join] in He |- *. rewrite E in He |- *.
    cbn [app skip_ws] in He |- *. now rewrite Hws, H93, He.
  - cbn [json_data] in Hd. apply andb_true_iff in Hd.
    destruct Hd as [Hl Hkeys]. apply forallb_Forall in Hl.
    assert (Hback : Forall (fun kv => reads_back (snd kv)) l).
    { apply Forall_forall. intros x Hx.
      apply (proj1 (Forall_forall _ _) IHl x Hx).
      apply (proj1 (Forall_forall _ _) Hl x Hx). }
    destruct l as [|kv0 l]; [reflexivity|].
    cbn [stringify]. rewrite <- !app_assoc.
    change (str "{"
              ++ join (str ",")
                   (map (fun kv => quote (fst kv) ++ str ":"
                                   ++ stringify (snd kv)) (kv0 :: l))
              ++ str "}" ++ rest)
      with (123%N :: join (str ",") (map member_text (kv0 :: l))
                  ++ 125%N :: rest).
    cbn [parse_value]. change (N.eqb 123 123) with true. cbv iota.
    inversion Hback as [|? ? Hb0 Hbl]; inversion Hl as [|? ? Hd0 Hdl]; subst.
    pose proof (parse_members_join l Hbl Hdl kv0 n rest Hb0 Hd0) as He.
    assert (Hsum : list_sum (map (fun kv => S (weight (snd kv))) (kv0 :: l))
                   <= n)
      by (cbn [weight] in Hn; lia).
    specialize (He Hsum). clear Hsum.
    cbn [map join member_text quote app] in He |- *.
    cbn [skip_ws]. change (json_ws 34%N) with false. cbv iota.
    change (N.eqb 34 125) with false. cbv iota.
    rewrite He. now rewrite build_object_distinct.
Qed.

Lemma list_sum_cons (x : nat) (l : list nat) :
  list_sum (x :: l) = x + list_sum l.
Proof. reflexivity. Qed.

Lemma length_join_cons (p : jstring) (ps : list jstring) :
  length (join (str ",") (p :: ps))
  = length p + list_sum (map (fun x => S (length x)) ps).
Proof.
  cbn [join]. rewrite length_app. f_equal.
  induction ps as [|q ps IH]; [reflexivity|].
  cbn [map concat]. rewrite !length_app, IH. simpl. lia.
Qed.

Lemma stringify_nonempty (v : JVal) :
  json_data v = true -> 1 <= length (stringify v).
Proof.
  intros H. destruct (stringify_head v H) as (c & s & -> & _).
  cbn [length]. lia.
Qed.

Lemma weight_elements (l : list JVal) :
  Forall (fun v => weight v <= 2 * length (stringify v)) l ->
  list_sum (map (fun x => S (weight x)) l)
  <= 2 * list_sum (map (fun x => S (length x))
                       (map stringify l)).
Proof.
  induction 1 as [|v l Hv _ IH]; [reflexivity|].
  cbn [map]. rewrite !list_sum_cons. lia.
Qed.

Lemma weight_members (l : list (jstring * JVal)) :
  Forall (fun kv => weight (snd kv) <= 2 * length (stringify (snd kv))) l ->
  list_sum (map (fun kv => S (weight (snd kv))) l)
  <= 2 * list_sum (map (fun x => S (length x))
                       (map member_text l)).
Proof.
  induction 1 as [|kv l Hv _ IH]; [reflexivity|].
  cbn [map]. rewrite !list_sum_cons.
  unfold member_text at 1. rewrite !length_app. lia.
Qed.

(** The recursion depth is within twice the length of the serialization. *)
Lemma weight_bound (v : JVal) :
  json_data v = true -> weight v <= 2 * length (stringify v).
Proof.
  induction v as [|b|x|s|l ps IHl _|l IHl] using JVal_ind; intros Hd.
  - vm_compute. lia.
  - destruct b; vm_compute; lia.
  - pose proof (stringify_nonempty (JNum x) Hd). cbn [weight]. lia.
  - cbn [weight stringify quote length]. lia.
  - cbn [json_data] in Hd. apply andb_true_iff in Hd. destruct Hd as [Hl _].
    apply forallb_Forall in Hl.
    assert (Hw : Forall (fun v => weight v <= 2 * length (stringify v)) l).
    { apply Forall_forall. intros x Hx.
      apply (proj1 (Forall_forall _ _) IHl x Hx).
      apply (proj1 (Forall_forall _ _) Hl x Hx). }
    cbn [weight stringify]. rewrite !length_app.
    change (length (str "[")) with 1. change (length (str "]")) with 1.
    destruct l as [|v0 l]; [vm_compute; lia|].
    inversion Hw as [|? ? Hw0 Hwl]; subst.
    pose proof (weight_elements l Hwl).
    cbn [map]. rewrite length_join_cons, !list_sum_cons. lia.
  - cbn [json_data] in Hd. apply andb_true_iff in Hd. destruct Hd as [Hl _].
    apply forallb_Forall in Hl.
    assert (Hw : Forall (fun kv => weight (snd kv)
                                   <= 2 * length (stringify (snd kv))) l).
    { apply Forall_forall. intros x Hx.
      apply (proj1 (Forall_forall _ _) IHl x Hx).
      apply (proj1 (Forall_forall _ _) Hl x Hx). }
    cbn [weight stringify]. rewrite !length_app.
    change (length (str "{")) with 1. change (length (str "}")) with 1.
    destruct l as [|kv0 l]; [vm_compute; lia|].
    inversion Hw as [|? ? Hw0 Hwl]; subst.
    pose proof (weight_members l Hwl) as Hm.
    change (map (fun kv => quote (fst kv) ++ str ":" ++ stringify (snd kv))
                (kv0 :: l))
      with (member_text kv0 :: map member_text l).
    cbn [map]. rewrite length_join_cons, !list_sum_cons.
    unfold member_text at 1. rewrite !length_app. lia.
Qed.

(** [JSON.parse(JSON.stringify(v))] is [v] for every JSON value. *)
Theorem json_value_stringify (v : JVal) :
  json_data v = true -> json_value (stringify v) = Some v.
Proof.
  intros Hd. unfold json_value.
  pose proof (skip_ws_stringify v [] Hd) as Hs. rewrite app_nil_r in Hs.
  rewrite Hs.
  pose proof (parse_value_stringify v Hd (2 * length (stringify v) + 2) []
                eq_refl) as Hp.
  rewrite app_nil_r in Hp. rewrite Hp; [reflexivity|].
  pose proof (weight_bound v Hd). lia.
Qed.

(** *** Deep equality of a value with itself *)

Lemma lookup_distinct (l : list (jstring * JVal)) (k : jstring) (v : JVal) :
  NoDup (map fst l) -> In (k, v) l -> lookup k l = Some v.
Proof.
  induction l as [|[k' v'] l IH]; cbn [map fst lookup]; intros Hnd Hin;
    [contradiction|].
  inversion Hnd as [|? ? Hfresh Hnd']; subst.
  destruct Hin as [[= -> ->]|Hin].
  - now rewrite jstr_eqb_refl.
  - destruct (jstr_eqb_spec k k') as [->|Hne]; [|now apply IH].
    elim Hfresh. apply (in_map fst) in Hin. exact Hin.
Qed.

(** A JSON value is deep-equal to itself. *)
Lemma deepEqual_refl (v : JVal) : json_data v = true -> deepEqual v v = true.
Proof.
  induction v as [|b|x|s|l ps IHl _|l IHl] using JVal_ind; intros Hd.
  - reflexivity.
  - now destruct b.
  - destruct x as [| |m d]; try discriminate Hd. apply Z.eqb_refl.
  - apply jstr_eqb_refl.
  - cbn [json_data] in Hd. apply andb_true_iff in Hd. destruct Hd as [Hl Hps].
    destruct ps; [|discriminate Hps]. apply forallb_Forall in Hl.
    cbn [deepEqual length Nat.eqb]. rewrite !andb_true_r.
    induction l as [|x l IH]; [reflexivity|].
    inversion IHl; inversion Hl; subst. apply andb_true_iff. auto.
  - cbn [json_data] in Hd. apply andb_true_iff in Hd.
    destruct Hd as [Hl Hkeys]. apply forallb_Forall in Hl.
    apply distinct_NoDup in Hkeys.
    cbn [deepEqual]. rewrite Nat.eqb_refl. cbn [andb].
    assert (Hsub : incl l l) by apply incl_refl.
    revert Hsub. generalize l at 1 3. intros ps.
    induction ps as [|[k x] ps IH]; intros Hsub; [reflexivity|].
    assert (Hin : In (k, x) l) by (apply Hsub; now left).
    cbn [fst snd]. rewrite (lookup_distinct l k x Hkeys Hin).
    apply andb_true_iff. split.
    + apply (proj1 (Forall_forall _ _) IHl (k, x) Hin).
      apply (proj1 (Forall_forall _ _) Hl (k, x) Hin).
    + apply IH. intros y Hy. apply Hsub. now right.
Qed.

(** *** What the reader returns *)

Lemma normalize_data (m : Z) (d : nat) :
  json_data (JNum (normalize m d)) = true.
Proof.
  revert m. induction d as [|d IH]; intros m; cbn [normalize]; [reflexivity|].
  destruct (Z.eqb (m mod 10) 0) eqn:E; [apply IH|].
  cbn [json_data]. unfold canonicalb. now rewrite E.
Qed.

Lemma decimal_data (m e : Z) : json_data (JNum (decimal m e)) = true.
Proof.
  unfold decimal. destruct (Z.leb 0 e); [reflexivity|apply normalize_data].
Qed.

Lemma parse_number_data (s r : jstring) (x : number) :
  parse_number s = Some (x, r) -> json_data (JNum x) = true.
Proof.
  unfold parse_number.
  destruct (match s with
            | c :: s' => if N.eqb c 45 then (true, s') else (false, s)
            | [] => (false, s)
            end) as [neg s0].
  destruct (parse_int s0) as [[i s1]|]; [|discriminate].
  destruct (parse_frac s1) as [[f s2]|]; [|discriminate].
  destruct (parse_exp s2) as [[e s3]|]; [|discriminate].
  intros [= <- _]. apply decimal_data.
Qed.

Lemma keys_assign (a k : jstring) (v : JVal) (l : list (jstring * JVal)) :
  existsb (jstr_eqb a) (map fst (assign k v l))
  = existsb (jstr_eqb a) (map fst l) || jstr_eqb a k.
Proof.
  induction l as [|[k' v'] l IH]; cbn [assign map fst existsb].
  - now rewrite orb_false_r.
  - destruct (jstr_eqb_spec k k') as [->|Hne]; cbn [map fst existsb].
    + destruct (jstr_eqb a k'), (existsb (jstr_eqb a) (map fst l));
        reflexivity.
    + rewrite IH. now rewrite orb_assoc.
Qed.

Lemma assign_distinct (k : jstring) (v : JVal) (l : list (jstring * JVal)) :
  distinct (map fst l) = true -> distinct (map fst (assign k v l)) = true.
Proof.
  induction l as [|[k' v'] l IH]; cbn [assign map fst distinct];
    [reflexivity|].
  intros H. apply andb_true_iff in H. destruct H as [Hfresh Hl].
  destruct (jstr_eqb_spec k k') as [->|Hne]; cbn [map fst distinct].
  - now rewrite Hfresh, Hl.
  - rewrite keys_assign, (IH Hl).
    apply negb_true_iff in Hfresh. rewrite Hfresh.
    destruct (jstr_eqb_spec k' k) as [->|_]; [now elim Hne|reflexivity].
Qed.

Lemma assign_data (k : jstring) (v : JVal) (l : list (jstring * JVal)) :
  json_data v = true ->
  forallb (fun kv => json_data (snd kv)) l = true ->
  forallb (fun kv => json_data (snd kv)) (assign k v l) = true.
Proof.
  intros Hv. induction l as [|[k' v'] l IH]; cbn [assign forallb snd].
  - now rewrite Hv.
  - intros H. apply andb_true_iff in H. destruct H as [H1 H2].
    destruct (jstr_eqb k k'); cbn [forallb snd].
    + now rewrite Hv, H2.
    + now rewrite H1, IH.
Qed.

Lemma build_object_data (ms : list (jstring * JVal)) :
  forallb (fun kv => json_data (snd kv)) ms = true ->
  json_data (JObj (build_object ms)) = true.
Proof.
  unfold build_object.
  assert (H : forall acc,
             json_data (JObj acc) = true ->
             forallb (fun kv => json_data (snd kv)) ms = true ->
             json_data (JObj (fold_left
                                (fun o kv => assign (fst kv) (snd kv) o)
                                ms acc)) = true).
  { induction ms as [|[k v] ms IH]; intros acc Hacc Hms; cbn [fold_left];
      [assumption|].
    cbn [forallb snd] in Hms. apply andb_true_iff in Hms.
    destruct Hms as [Hv Hms]. apply IH; [|assumption].
    cbn [json_data] in Hacc |- *. apply andb_true_iff in Hacc.
    destruct Hacc as [H1 H2]. cbn [fst snd].
    now rewrite assign_data, assign_distinct. }
  now apply H.
Qed.

Ltac split_match H :=
  repeat match type of H with
         | match ?x with _ => _ end = Some _ =>
             let E := fresh "E" in destruct x eqn:E; try discriminate H
         | (if ?x then _ else _) = Some _ =>
             let E := fresh "E" in destruct x eqn:E; try discriminate H
         | (let (_, _) := ?x in _) = Some _ =>
             let E := fresh "E" in destruct x eqn:E
         end.

(** What the reader returns is made of JSON data. *)
Lemma parse_data (n : nat) :
  (forall s v r, parse_value n s = Some (v, r) -> json_data v = true)
  /\ (forall s vs r, parse_elements n s = Some (vs, r) ->
                     forallb json_data vs = true)
  /\ (forall s ms r, parse_members n s = Some (ms, r) ->
                     forallb (fun kv => json_data (snd kv)) ms = true).
Proof.
  induction n as [|n (IHv & IHe & IHm)];
    [repeat split; intros; discriminate|].
  repeat split.
  - intros s v r H. cbn [parse_value] in H.
    destruct s as [|c s']; [discriminate H|].
    destruct (N.eqb c 123).
    { split_match H; injection H as <- <-; [reflexivity|].
      apply build_object_data. eapply IHm. eassumption. }
    destruct (N.eqb c 91).
    { split_match H; injection H as <- <-; [reflexivity|].
      cbn [json_data]. rewrite andb_true_r. eapply IHe. eassumption. }
    destruct (N.eqb c 34).
    { split_match H. now injection H as <- <-. }
    destruct (N.eqb c 116).
    { destruct (strip_prefix _ _); [|discriminate H].
      now injection H as <- <-. }
    destruct (N.eqb c 102).
    { destruct (strip_prefix _ _); [|discriminate H].
      now injection H as <- <-. }
    destruct (N.eqb c 110).
    { destruct (strip_prefix _ _); [|discriminate H].
      now injection H as <- <-. }
    destruct (parse_number (c :: s')) as [[x r']|] eqn:E; [|discriminate H].
    injection H as <- <-. eapply parse_number_data. eassumption.
  - intros s vs r H. cbn [parse_elements] in H.
    destruct (parse_value n s) as [[v r0]|] eqn:Ev; [|discriminate H].
    apply IHv in Ev.
    split_match H; injection H as <- <-; cbn [forallb]; rewrite Ev;
      [reflexivity|].
    eapply IHe. eassumption.
  - intros s ms r H. cbn [parse_members] in H.
    destruct s as [|q s']; [discriminate H|].
    destruct (negb (N.eqb q 34)); [discriminate H|].
    destruct (parse_chars s') as [[k r0]|]; [|discriminate H].
    destruct (skip_ws r0) as [|c r1]; [discriminate H|].
    destruct (negb (N.eqb c 58)); [discriminate H|].
    destruct (parse_value n (skip_ws r1)) as [[v r2]|] eqn:Ev;
      [|discriminate H].
    apply IHv in Ev.
    split_match H; injection H as <- <-; cbn [forallb snd]; rewrite Ev;
      [reflexivity|].
    eapply IHm. eassumption.
Qed.

(** Whatever [JSON.parse] returns is JSON data. *)
Lemma json_value_data (s : jstring) (v : JVal) :
  json_value s = Some v -> json_data v = true.
Proof.
  unfold json_value.
  destruct (parse_value (2 * length s + 2) (skip_ws s)) as [[x r]|] eqn:E;
    [|discriminate].
  destruct (skip_ws r); [|discriminate]. intros [= <-].
  eapply (proj1 (parse_data _)). eassumption.
Qed.

(** *** parseJSON on a serialization *)

Section Reserialization.

Variable JSON5_parse : jstring -> result JVal.
Variable jsonrepair : jstring -> result jstring.
Variable syntax_error_message : jstring -> jstring.

Lemma JSON_parse_data (s : jstring) (v : JVal) :
  JSON_parse syntax_error_message s = Ok v -> json_data v = true.
Proof.
  unfold JSON_parse. destruct (json_value s) as [x|] eqn:E; [|discriminate].
  intros [= <-]. now apply (json_value_data s).
Qed.

Lemma run_methods_returned (ms : list method) (cleanedText : jstring)
      (acc : list attempt) (v : JVal) :
  run_methods ms cleanedText acc = inl v ->
  exists m, In m ms /\ snd m cleanedText = Some (Ok v).
Proof.
  revert acc. induction ms as [|[name body] ms IH]; intros acc H;
    cbn [run_methods] in H; [discriminate H|].
  destruct (body cleanedText) as [[x|e]|] eqn:E.
  - injection H as <-. exists (name, body). split; [now left|exact E].
  - destruct (IH _ H) as (m & Hin & Hm). exists m. split; [now right|exact Hm].
  - destruct (IH _ H) as (m & Hin & Hm). exists m. split; [now right|exact Hm].
Qed.

(** [parseJSON] returns JSON data when JSON5 does and the fallback data
    is such a value: every other method ends in [JSON.parse]. *)
Lemma parseJSON_data (text : jstring) (opts : options) (v : JVal) :
  (forall s x, JSON5_parse s = Ok x -> json_data x = true) ->
  json_data (default (JObj []) (fallbackData opts)) = true ->
  parseJSON JSON5_parse jsonrepair syntax_error_message text opts = Ok v ->
  json_data v = true.
Proof.
  intros H5 Hfb. unfold parseJSON. cbv zeta.
  set (cleanedText := cleanText _ text).
  destruct (run_methods _ cleanedText []) as [x|failures] eqn:Hrun.
  - intros [= <-]. apply run_methods_returned in Hrun.
    destruct Hrun as (m & Hin & Hm).
    repeat (destruct Hin as [<-|Hin]); [..|contradiction].
    + injection Hm as Hm. now apply JSON_parse_data in Hm.
    + injection Hm as Hm. now apply H5 in Hm.
    + injection Hm as Hm. destruct (jsonrepair cleanedText); [|discriminate].
      now apply JSON_parse_data in Hm.
    + unfold method4 in Hm. cbn [snd] in Hm. cbv zeta in Hm.
      injection Hm as Hm. now apply JSON_parse_data in Hm.
    + unfold method5 in Hm. cbn [snd] in Hm. cbv zeta in Hm.
      destruct (test _ cleanedText); [|discriminate].
      injection Hm as Hm. now apply JSON_parse_data in Hm.
    + unfold method6 in Hm. cbn [snd] in Hm. cbv zeta in Hm.
      destruct (test _ cleanedText); [|discriminate].
      injection Hm as Hm. now apply JSON_parse_data in Hm.
    + unfold method7 in Hm. cbn [snd] in Hm.
      destruct (test _ cleanedText); [|discriminate].
      injection Hm as Hm. now apply JSON_parse_data in Hm.
  - destruct (keys_length _) as [n|e]; cbn [bind]; [|discriminate].
    destruct (Nat.ltb 0 n); [|discriminate]. now intros [= <-].
Qed.

End Reserialization.


Definition sample_reading : JVal :=
  JObj [(str "name", JStr (str "Engineer"));
        (str "salary", JNum (Dec 10005 1));
        (str "tags",
         JArr [JStr (lit "a~b"); JNull; JBool true; JInt (-30)] [])].

Definition sample_text : jstring :=
  lit "{name: 'Engineer', salary: 1000.50, tags: [~a\~b~, null, true, -3e1,],}".

Example sample_reading_text :
  stringify sample_reading
  = lit "{~name~:~Engineer~,~salary~:1000.5,~tags~:[~a\~b~,null,true,-30]}".
Proof. vm_compute. reflexivity. Qed.


(** The fallback data is returned as the caller gave it: with a number
    that is not finite in it, the serialization reads back as another
    value. *)
Example fallback_not_read_back :
  let v := JObj [(str "growthRate", JNum NaN)] in
  parseJSON rejecting_JSON5 rejecting_jsonrepair fixed_message []
            (MkOptions None (Some v) None) = Ok v
  /\ json_data v = false
  /\ parseJSON rejecting_JSON5 rejecting_jsonrepair fixed_message
               (stringify v) (MkOptions None (Some v) None)
     = Ok (JObj [(str "growthRate", JNull)]).
Proof. repeat split; vm_compute; reflexivity. Qed.

(** ** extractJSONString *)

Lemma indexOf_fresh (c : char) (s : jstring) : ~ In c s -> indexOf c s = None.
Proof.
  induction s as [|x s IH]; cbn [indexOf In]; [reflexivity|]. intros H.
  destruct (N.eqb_spec x c) as [->|_]; [elim H; now left|].
  rewrite IH; [reflexivity|]. intros Hin. apply H. now right.
Qed.

Lemma indexOf_first (c : char) (pre rest : jstring) :
  ~ In c pre -> indexOf c (pre ++ c :: rest) = Some (length pre).
Proof.
  induction pre as [|x pre IH]; cbn [indexOf app length In]; intros H.
  - now rewrite N.eqb_refl.
  - destruct (N.eqb_spec x c) as [->|_]; [elim H; now left|].
    rewrite IH; [reflexivity|]. intros Hin. apply H. now right.
Qed.

Lemma lastIndexOf_fresh (c : char) (s : jstring) :
  ~ In c s -> lastIndexOf c s = None.
Proof.
  induction s as [|x s IH]; cbn [lastIndexOf In]; [reflexivity|]. intros H.
  rewrite IH by (intros Hin; apply H; now right).
  destruct (N.eqb_spec x c) as [->|_]; [elim H; now left|reflexivity].
Qed.

Lemma lastIndexOf_last (c : char) (pre post : jstring) :
  ~ In c post -> lastIndexOf c (pre ++ c :: post) = Some (length pre).
Proof.
  intros H. induction pre as [|x pre IH]; cbn [lastIndexOf app length].
  - rewrite (lastIndexOf_fresh c post H). now rewrite N.eqb_refl.
  - now rewrite IH.
Qed.

Lemma indexOf_split (c : char) (s : jstring) (i : nat) :
  indexOf c s = Some i ->
  exists pre rest, s = pre ++ c :: rest /\ ~ In c pre /\ length pre = i.
Proof.
  revert i. induction s as [|x s IH]; cbn [indexOf]; intros i H;
    [discriminate H|].
  destruct (N.eqb_spec x c) as [->|Hne].
  - injection H as <-. exists [], s. repeat split. intros [].
  - destruct (indexOf c s) as [j|]; [|discriminate H]. injection H as <-.
    destruct (IH j eq_refl) as (pre & rest & -> & Hpre & <-).
    exists (x :: pre), rest. repeat split.
    intros [E|Hin]; [now apply Hne|now apply Hpre].
Qed.

Lemma lastIndexOf_split (c : char) (s : jstring) (i : nat) :
  lastIndexOf c s = Some i ->
  exists pre post, s = pre ++ c :: post /\ ~ In c post /\ length pre = i.
Proof.
  revert i. induction s as [|x s IH]; cbn [lastIndexOf]; intros i H;
    [discriminate H|].
  destruct (lastIndexOf c s) as [j|] eqn:E.
  - injection H as <-.
    destruct (IH j eq_refl) as (pre & post & -> & Hpost & <-).
    exists (x :: pre), post. repeat split. assumption.
  - destruct (N.eqb_spec x c) as [->|Hne]; [|discriminate H].
    injection H as <-. exists [], s. repeat split.
    intros Hin. clear IH.
    induction s as [|y s IHs]; [destruct Hin|].
    cbn [lastIndexOf] in E.
    destruct (lastIndexOf c s) as [j|]; [discriminate E|].
    destruct (N.eqb_spec y c) as [->|Hy]; [discriminate E|].
    destruct Hin as [Hin|Hin]; [now apply Hy|now apply IHs].
Qed.

(** The text from the first opening brace through the last closing
    brace. *)
Lemma extractJSONString_braces (pre mid post : jstring) :
  ~ In (ch "{") pre -> ~ In (ch "}") post ->
  extractJSONString (pre ++ ch "{" :: mid ++ ch "}" :: post)
  = ch "{" :: mid ++ [ch "}"].
Proof.
  intros Hpre Hpost. unfold extractJSONString.
  rewrite (indexOf_first _ pre _ Hpre).
  replace (pre ++ ch "{" :: mid ++ ch "}" :: post)
    with ((pre ++ ch "{" :: mid) ++ ch "}" :: post)
    by (now rewrite <- app_assoc).
  rewrite (lastIndexOf_last _ _ post Hpost).
  rewrite length_app. cbn [length].
  destruct (Nat.leb_spec (length pre + S (length mid)) (length pre));
    [lia|].
  unfold substring. rewrite <- app_assoc. cbn [app]. rewrite skipn_app.
  rewrite skipn_all, Nat.sub_diag. cbn [skipn app].
  replace (length pre + S (length mid) + 1 - length pre)
    with (S (length (mid ++ [ch "}"])))
    by (rewrite length_app; cbn [length]; lia).
  cbn [firstn]. f_equal.
  replace (mid ++ ch "}" :: post) with ((mid ++ [ch "}"]) ++ post)
    by (now rewrite <- app_assoc).
  rewrite firstn_app, firstn_all, Nat.sub_diag. cbn [firstn].
  now rewrite app_nil_r.
Qed.

(** Either the text is returned as it is, or it has an opening brace
    before its last closing brace and the part from the one through the
    other is returned. *)
Lemma extractJSONString_cases (s : jstring) :
  extractJSONString s = s
  \/ exists pre mid post,
       s = pre ++ ch "{" :: mid ++ ch "}" :: post
       /\ ~ In (ch "{") pre /\ ~ In (ch "}") post
       /\ extractJSONString s = ch "{" :: mid ++ [ch "}"].
Proof.
  unfold extractJSONString at 1.
  destruct (indexOf (ch "{") s) as [i|] eqn:Ei; [|now left].
  destruct (lastIndexOf (ch "}") s) as [j|] eqn:Ej; [|now left].
  destruct (Nat.leb_spec j i) as [Hle|Hlt]; [now left|]. right.
  destruct (indexOf_split _ _ _ Ei) as (pre & rest & E1 & Hpre & Hi).
  destruct (lastIndexOf_split _ _ _ Ej) as (pre2 & post & E2 & Hpost & Hj).
  assert (Hmid : exists mid, rest = mid ++ ch "}" :: post).
  { subst i j. rewrite E1 in E2.
    assert (Hpre2 : pre2 = firstn (length pre2) (pre ++ ch "{" :: rest))
      by (rewrite E2, firstn_app, (firstn_all pre2), Nat.sub_diag;
          cbn [firstn]; now rewrite app_nil_r).
    rewrite firstn_app, firstn_all2 in Hpre2 by lia.
    destruct (length pre2 - length pre) as [|n] eqn:En; [lia|].
    cbn [firstn] in Hpre2. exists (firstn n rest).
    rewrite Hpre2 in E2. rewrite <- app_assoc in E2.
    apply app_inv_head in E2. cbn [app] in E2. injection E2 as E2.
    exact E2. }
  destruct Hmid as (mid & ->). exists pre, mid, post.
  split; [assumption|]. split; [assumption|]. split; [assumption|].
  rewrite E1. now apply extractJSONString_braces.
Qed.

(** X1: when the text holds an opening brace and, after it, a closing
    brace, [extractJSONString] returns the part from the first opening
    brace through the last closing brace, whatever surrounds it. *)
Theorem X1_extractJSONString_first_to_last_brace (pre mid post : jstring) :
  ~ In (ch "{") pre -> ~ In (ch "}") post ->
  extractJSONString (pre ++ ch "{" :: mid ++ ch "}" :: post)
  = ch "{" :: mid ++ [ch "}"].
Proof. exact (extractJSONString_braces pre mid post). Qed.

Lemma X1_witness :
  extractJSONString
    (str "Sure: " ++ ch "{" :: lit "~a~:{~b~:1}" ++ ch "}" :: str " Done.")
  = ch "{" :: lit "~a~:{~b~:1}" ++ [ch "}"].
Proof.
  apply (X1_extractJSONString_first_to_last_brace
           (str "Sure: ") (lit "~a~:{~b~:1}") (str " Done."));
    vm_compute; intuition discriminate.
Defined.

(** X2: [extractJSONString] returns a contiguous part of its input, and
    applying it again changes nothing. *)
Theorem X2_extractJSONString_idempotent (s : jstring) :
  (exists pre post, s = pre ++ extractJSONString s ++ post)
  /\ extractJSONString (extractJSONString s) = extractJSONString s.
Proof.
  destruct (extractJSONString_cases s)
    as [E|(pre & mid & post & Es & Hpre & Hpost & E)].
  - rewrite !E. split; [|reflexivity]. exists [], []. now rewrite app_nil_r.
  - rewrite E. split.
    + exists pre, post. rewrite Es. cbn [app]. now rewrite <- app_assoc.
    + apply (extractJSONString_braces [] mid []); intros [].
Qed.

(** ** Counting and closing brackets *)

Lemma count_app (c : char) (a b : jstring) :
  count c (a ++ b) = count c a + count c b.
Proof. unfold count. now rewrite filter_app, length_app. Qed.

Lemma count_repeat_same (c : char) (n : nat) :
  count c (repeat_str [c] n) = n.
Proof.
  unfold repeat_str, count. induction n as [|n IH]; [reflexivity|].
  cbn [repeat concat app filter]. rewrite N.eqb_refl. cbn [length].
  now rewrite IH.
Qed.

Lemma count_repeat_other (c x : char) (n : nat) :
  c <> x -> count c (repeat_str [x] n) = 0.
Proof.
  intros H. unfold repeat_str, count. induction n as [|n IH]; [reflexivity|].
  cbn [repeat concat app filter].
  destruct (N.eqb_spec c x) as [E|_]; [contradiction|]. exact IH.
Qed.

(** What [balance] appends: the closing braces that are missing, then
    the closing brackets that are missing. *)
Lemma balance_appends (s : jstring) :
  balance s
  = s ++ repeat_str (str "}") (count (ch "{") s - count (ch "}") s)
      ++ repeat_str (str "]") (count (ch "[") s - count (ch "]") s).
Proof.
  assert (Hnone : forall t : jstring, repeat_str t 0 = []) by reflexivity.
  unfold balance. cbv zeta.
  destruct (Nat.ltb_spec (count (ch "}") s) (count (ch "{") s)) as [H1|H1];
    destruct (Nat.ltb_spec (count (ch "]") s) (count (ch "[") s)) as [H2|H2];
    try (replace (count (ch "[") s - count (ch "]") s) with 0 by lia);
    try (replace (count (ch "{") s - count (ch "}") s) with 0 by lia);
    rewrite ?Hnone, <- ?app_assoc, ?app_nil_r; reflexivity.
Qed.

Lemma balance_counts (s : jstring) :
  count (ch "{") (balance s) = count (ch "{") s
  /\ count (ch "[") (balance s) = count (ch "[") s
  /\ count (ch "}") (balance s) = Nat.max (count (ch "}") s) (count (ch "{") s)
  /\ count (ch "]") (balance s) = Nat.max (count (ch "]") s) (count (ch "[") s).
Proof.
  rewrite balance_appends, !count_app.
  change (str "}") with [ch "}"]. change (str "]") with [ch "]"].
  rewrite !count_repeat_same.
  rewrite !count_repeat_other by discriminate.
  lia.
Qed.

(** X3: the text [cleanText] returns never has more opening braces than
    closing braces, nor more opening brackets than closing brackets,
    whatever the input and the data type. *)
Theorem X3_cleanText_closes_every_opener (dataType text : jstring) :
  count (ch "{") (cleanText dataType text)
  <= count (ch "}") (cleanText dataType text)
  /\ count (ch "[") (cleanText dataType text)
     <= count (ch "]") (cleanText dataType text).
Proof.
  unfold cleanText. cbv zeta.
  match goal with |- context [balance ?t] =>
    destruct (balance_counts t) as (H1 & H2 & H3 & H4) end.
  rewrite H1, H2, H3, H4. lia.
Qed.

(** X4: [balance] only appends: the input is a prefix of the result, the
    appended text holds closing braces and brackets only, and balancing
    a balanced text changes nothing. *)
Theorem X4_balance_appends_closers_once (s : jstring) :
  (exists closers,
      balance s = s ++ closers
      /\ Forall (fun c => c = ch "}" \/ c = ch "]") closers)
  /\ balance (balance s) = balance s.
Proof.
  split.
  - rewrite balance_appends. eexists. split; [reflexivity|].
    apply Forall_app. split.
    + generalize (count (ch "{") s - count (ch "}") s). intros n.
      induction n as [|n IH]; [constructor|]. constructor; [now left|exact IH].
    + generalize (count (ch "[") s - count (ch "]") s). intros n.
      induction n as [|n IH]; [constructor|]. constructor; [now right|exact IH].
  - destruct (balance_counts s) as (H1 & H2 & H3 & H4).
    rewrite (balance_appends (balance s)), H1, H2, H3, H4.
    replace (count (ch "{") s
             - Nat.max (count (ch "}") s) (count (ch "{") s)) with 0 by lia.
    replace (count (ch "[") s
             - Nat.max (count (ch "]") s) (count (ch "[") s)) with 0 by lia.
    cbn. now rewrite app_nil_r.
Qed.

(** ** Method 7: deleting the closers that have no opener *)

(** No prefix of the text has more closing than opening braces, or more
    closing than opening brackets, counting from the given surplus of
    openers. *)
Definition never_overdrawn (braces brackets : nat) (t : jstring) : Prop :=
  forall n,
    count (ch "}") (firstn n t) <= braces + count (ch "{") (firstn n t)
    /\ count (ch "]") (firstn n t) <= brackets + count (ch "[") (firstn n t).

Definition is_closer (c : char) : bool :=
  N.eqb c (ch "}") || N.eqb c (ch "]").

Lemma count_cons (c x : char) (s : jstring) :
  count c (x :: s) = (if N.eqb c x then 1 else 0) + count c s.
Proof. unfold count. cbn [filter]. now destruct (N.eqb c x). Qed.

Lemma never_overdrawn_nil (a b : nat) : never_overdrawn a b [].
Proof. intros n. rewrite firstn_nil. cbn. lia. Qed.

Lemma never_overdrawn_cons (a b a' b' : nat) (c : char) (t : jstring) :
  never_overdrawn a' b' t ->
  (if N.eqb (ch "}") c then 1 else 0) + a'
  <= a + (if N.eqb (ch "{") c then 1 else 0) ->
  (if N.eqb (ch "]") c then 1 else 0) + b'
  <= b + (if N.eqb (ch "[") c then 1 else 0) ->
  (if N.eqb (ch "}") c then 1 else 0)
  <= a + (if N.eqb (ch "{") c then 1 else 0) ->
  (if N.eqb (ch "]") c then 1 else 0)
  <= b + (if N.eqb (ch "[") c then 1 else 0) ->
  never_overdrawn a b (c :: t).
Proof.
  intros Ht H1 H2 H3 H4 [|n]; [cbn; lia|].
  cbn [firstn]. rewrite !count_cons. destruct (Ht n). lia.
Qed.

Lemma never_overdrawn_tail (a b : nat) (c : char) (t : jstring) :
  never_overdrawn a b (c :: t) ->
  (if N.eqb (ch "}") c then 1 else 0)
  <= a + (if N.eqb (ch "{") c then 1 else 0)
  /\ (if N.eqb (ch "]") c then 1 else 0)
     <= b + (if N.eqb (ch "[") c then 1 else 0)
  /\ never_overdrawn
       (a + (if N.eqb (ch "{") c then 1 else 0)
        - (if N.eqb (ch "}") c then 1 else 0))
       (b + (if N.eqb (ch "[") c then 1 else 0)
        - (if N.eqb (ch "]") c then 1 else 0)) t.
Proof.
  intros H. pose proof (H 1) as H1. cbn [firstn] in H1.
  rewrite !count_cons in H1. change (count _ []) with 0 in H1.
  split; [lia|]. split; [lia|].
  intros n. specialize (H (S n)). cbn [firstn] in H.
  rewrite !count_cons in H. lia.
Qed.

Ltac eqb_consts :=
  repeat match goal with
         | |- context [N.eqb (ch ?a) (ch ?b)] =>
             let v := eval vm_compute in (N.eqb (ch a) (ch b)) in
             change (N.eqb (ch a) (ch b)) with v
         | H : context [N.eqb (ch ?a) (ch ?b)] |- _ =>
             let v := eval vm_compute in (N.eqb (ch a) (ch b)) in
             change (N.eqb (ch a) (ch b)) with v in H
         end;
  cbv iota in *.

Ltac head_cases c :=
  destruct (N.eqb_spec c (ch "{")) as [->|?];
  [|destruct (N.eqb_spec c (ch "[")) as [->|?];
    [|destruct (N.eqb_spec c (ch "}")) as [->|?];
      [|destruct (N.eqb_spec c (ch "]")) as [->|?]]]].

Lemma other_char (c : char) :
  c <> ch "{" -> c <> ch "[" -> c <> ch "}" -> c <> ch "]" ->
  N.eqb (ch "{") c = false /\ N.eqb (ch "[") c = false
  /\ N.eqb (ch "}") c = false /\ N.eqb (ch "]") c = false.
Proof. intros. repeat split; apply N.eqb_neq; congruence. Qed.

(** The scan with its four counters: what it returns is never
    overdrawn from the surplus the counters hold. *)
Lemma remove_extra_closers_never_overdrawn (s : jstring) (ob cb ok ck : nat) :
  cb <= ob -> ck <= ok ->
  never_overdrawn (ob - cb) (ok - ck) (remove_extra_closers s ob cb ok ck).
Proof.
  revert ob cb ok ck.
  induction s as [|c s IH]; intros ob cb ok ck Hb Hk;
    cbn [remove_extra_closers]; [apply never_overdrawn_nil|].
  head_cases c.
  - apply (never_overdrawn_cons _ _ (S ob - cb) (ok - ck));
      [apply IH; lia|eqb_consts; lia..].
  - apply (never_overdrawn_cons _ _ (ob - cb) (S ok - ck));
      [apply IH; lia|eqb_consts; lia..].
  - destruct (Nat.ltb_spec ob (S cb)); [apply IH; lia|].
    apply (never_overdrawn_cons _ _ (ob - S cb) (ok - ck));
      [apply IH; lia|eqb_consts; lia..].
  - destruct (Nat.ltb_spec ok (S ck)); [apply IH; lia|].
    apply (never_overdrawn_cons _ _ (ob - cb) (ok - S ck));
      [apply IH; lia|eqb_consts; lia..].
  - destruct (other_char c) as (E1 & E2 & E3 & E4); try assumption.
    apply (never_overdrawn_cons _ _ (ob - cb) (ok - ck));
      [apply IH; lia|rewrite ?E1, ?E2, ?E3, ?E4; lia..].
Qed.

(** The scan deletes closers only. *)
Lemma remove_extra_closers_keeps (s : jstring) (ob cb ok ck : nat) :
  filter (fun c => negb (is_closer c)) (remove_extra_closers s ob cb ok ck)
  = filter (fun c => negb (is_closer c)) s.
Proof.
  revert ob cb ok ck.
  induction s as [|c s IH]; intros ob cb ok ck;
    cbn [remove_extra_closers]; [reflexivity|].
  unfold is_closer in *. head_cases c.
  - cbn. now rewrite IH.
  - cbn. now rewrite IH.
  - destruct (Nat.ltb ob (S cb)); cbn; apply IH.
  - destruct (Nat.ltb ok (S ck)); cbn; apply IH.
  - cbn [filter]. now rewrite IH.
Qed.

(** A text that is never overdrawn is returned as it is. *)
Lemma remove_extra_closers_fixed (s : jstring) (ob cb ok ck : nat) :
  cb <= ob -> ck <= ok ->
  never_overdrawn (ob - cb) (ok - ck) s ->
  remove_extra_closers s ob cb ok ck = s.
Proof.
  revert ob cb ok ck.
  induction s as [|c s IH]; intros ob cb ok ck Hb Hk H;
    cbn [remove_extra_closers]; [reflexivity|].
  apply never_overdrawn_tail in H. destruct H as (H1 & H2 & H).
  head_cases c.
  - f_equal. apply IH; try lia. eqb_consts.
    replace (S ob - cb) with (ob - cb + 1 - 0) by lia.
    replace (ok - ck) with (ok - ck + 0 - 0) by lia. exact H.
  - f_equal. apply IH; try lia. eqb_consts.
    replace (S ok - ck) with (ok - ck + 1 - 0) by lia.
    replace (ob - cb) with (ob - cb + 0 - 0) by lia. exact H.
  - eqb_consts. destruct (Nat.ltb_spec ob (S cb)); [lia|].
    f_equal. apply IH; try lia.
    replace (ob - S cb) with (ob - cb + 0 - 1) by lia.
    replace (ok - ck) with (ok - ck + 0 - 0) by lia. exact H.
  - eqb_consts. destruct (Nat.ltb_spec ok (S ck)); [lia|].
    f_equal. apply IH; try lia.
    replace (ok - S ck) with (ok - ck + 0 - 1) by lia.
    replace (ob - cb) with (ob - cb + 0 - 0) by lia. exact H.
  - destruct (other_char c) as (E1 & E2 & E3 & E4); try assumption.
    f_equal. apply IH; try lia. rewrite E1, E2, E3, E4 in H.
    replace (ob - cb) with (ob - cb + 0 - 0) by lia.
    replace (ok - ck) with (ok - ck + 0 - 0) by lia. exact H.
Qed.

(** X5: in the text the scan of method 7 returns, no prefix has more
    closing than opening braces or more closing than opening brackets;
    and the scan deletes closers only: every other character is kept,
    in order. *)
Theorem X5_method7_scan_leaves_no_unopened_closer (s : jstring) :
  never_overdrawn 0 0 (remove_extra_closers s 0 0 0 0)
  /\ filter (fun c => negb (is_closer c)) (remove_extra_closers s 0 0 0 0)
     = filter (fun c => negb (is_closer c)) s.
Proof.
  split.
  - apply (remove_extra_closers_never_overdrawn s 0 0 0 0); lia.
  - apply remove_extra_closers_keeps.
Qed.

(** X6: the scan of method 7 changes nothing in a text in which every
    closer has its opener before it. *)
Theorem X6_method7_scan_fixes_balanced_text (s : jstring) :
  never_overdrawn 0 0 s -> remove_extra_closers s 0 0 0 0 = s.
Proof. intros H. apply remove_extra_closers_fixed; [lia|lia|exact H]. Qed.

Lemma X6_witness :
  remove_extra_closers (lit "{~a~:[1]}") 0 0 0 0 = lit "{~a~:[1]}".
Proof.
  apply (X6_method7_scan_fixes_balanced_text (lit "{~a~:[1]}")).
  intros n. do 10 (destruct n as [|n]; [vm_compute; lia|]). vm_compute. lia.
Defined.

Example method7_scan_sample :
  remove_extra_closers (lit "{~a~:[1]}]}}]") 0 0 0 0 = lit "{~a~:[1]}".
Proof. vm_compute. reflexivity. Qed.

(** ** parseJSON: fallback data and surrounding text *)

(** With fallback data that has a key, [parseJSON] returns. *)
Lemma parseJSON_with_fallback
        (JSON5_parse : jstring -> result JVal)
        (jsonrepair : jstring -> result jstring)
        (syntax_error_message : jstring -> jstring)
        (text : jstring) (opts : options) (fallback : JVal) (n : nat) :
  fallbackData opts = Some fallback ->
  keys_length fallback = Ok (S n) ->
  exists v,
    parseJSON JSON5_parse jsonrepair syntax_error_message text opts = Ok v
    /\ (forallb (failed (cleanText (default (str "general") (dataType opts))
                                   text))
                (methods JSON5_parse jsonrepair syntax_error_message) = true ->
        v = fallback).
Proof.
  intros Hfb Hkeys. unfold parseJSON. cbv zeta. rewrite Hfb. cbn [default].
  destruct (run_methods _ _ []) as [v|failures] eqn:Hrun.
  - exists v. split; [reflexivity|]. intros Hfail.
    rewrite (run_methods_all_failed _ _ [] Hfail) in Hrun.
    discriminate Hrun.
  - exists fallback. rewrite Hkeys. cbn [bind Nat.ltb Nat.leb].
    split; [reflexivity|trivial].
Qed.

(** X7: with fallback data that has at least one key, [parseJSON] never
    throws: it returns the value of the first method that succeeds, or
    the fallback data when no method does. *)
Theorem X7_parseJSON_with_fallback_never_throws
        (JSON5_parse : jstring -> result JVal)
        (jsonrepair : jstring -> result jstring)
        (syntax_error_message : jstring -> jstring)
        (text : jstring) (opts : options) (fallback : JVal) (n : nat) :
  fallbackData opts = Some fallback ->
  keys_length fallback = Ok (S n) ->
  exists v,
    parseJSON JSON5_parse jsonrepair syntax_error_message text opts = Ok v
    /\ (forallb (failed (cleanText (default (str "general") (dataType opts))
                                   text))
                (methods JSON5_parse jsonrepair syntax_error_message) = true ->
        v = fallback).
Proof.
  exact (parseJSON_with_fallback JSON5_parse jsonrepair syntax_error_message
           text opts fallback n).
Qed.

Lemma X7_witness :
  exists v,
    parseJSON rejecting_JSON5 rejecting_jsonrepair fixed_message
              (str "no data today")
              (MkOptions (Some true) (Some industry_fallbackData) None) = Ok v
    /\ (forallb (failed (cleanText (str "general") (str "no data today")))
                (methods rejecting_JSON5 rejecting_jsonrepair fixed_message)
        = true ->
        v = industry_fallbackData).
Proof.
  apply (X7_parseJSON_with_fallback_never_throws rejecting_JSON5
           rejecting_jsonrepair fixed_message (str "no data today")
           (MkOptions (Some true) (Some industry_fallbackData) None)
           industry_fallbackData 13);
    reflexivity.
Defined.

Lemma cleanText_of_body (dataType text pre mid post : jstring) :
  strip_fences text = pre ++ ch "{" :: mid ++ ch "}" :: post ->
  ~ In (ch "{") pre -> ~ In (ch "}") post ->
  strip_fences (ch "{" :: mid ++ [ch "}"]) = ch "{" :: mid ++ [ch "}"] ->
  cleanText dataType text = cleanText dataType (ch "{" :: mid ++ [ch "}"]).
Proof.
  intros Htext Hpre Hpost Hbody. unfold cleanText. cbv zeta.
  rewrite Htext, Hbody.
  rewrite (extractJSONString_braces pre mid post Hpre Hpost).
  pose proof (extractJSONString_braces [] mid []) as E.
  cbn [app] in E. rewrite E by (intros []). reflexivity.
Qed.

(** X9: [parseJSON] reads only the part of the text from the first
    opening brace through the last closing brace: when that part holds
    no code fence itself, whatever precedes and follows it (once the
    code fences are removed) has no influence on the result. *)
Theorem X9_parseJSON_ignores_surrounding_text
        (JSON5_parse : jstring -> result JVal)
        (jsonrepair : jstring -> result jstring)
        (syntax_error_message : jstring -> jstring)
        (text pre mid post : jstring) (opts : options) :
  strip_fences text = pre ++ ch "{" :: mid ++ ch "}" :: post ->
  ~ In (ch "{") pre -> ~ In (ch "}") post ->
  strip_fences (ch "{" :: mid ++ [ch "}"]) = ch "{" :: mid ++ [ch "}"] ->
  parseJSON JSON5_parse jsonrepair syntax_error_message text opts
  = parseJSON JSON5_parse jsonrepair syntax_error_message
              (ch "{" :: mid ++ [ch "}"]) opts.
Proof.
  intros Htext Hpre Hpost Hbody. unfold parseJSON. cbv zeta.
  now rewrite (cleanText_of_body _ text pre mid post Htext Hpre Hpost Hbody).
Qed.

Lemma X9_witness :
  parseJSON rejecting_JSON5 rejecting_jsonrepair fixed_message
    (lit "Here you go: ```json {~a~: [1, 2], ~b~: {}} ``` Anything else?")
    no_options
  = parseJSON rejecting_JSON5 rejecting_jsonrepair fixed_message
      (ch "{" :: lit "~a~: [1, 2], ~b~: {}" ++ [ch "}"]) no_options.
Proof.
  apply (X9_parseJSON_ignores_surrounding_text rejecting_JSON5
           rejecting_jsonrepair fixed_message
           (lit "Here you go: ```json {~a~: [1, 2], ~b~: {}} ``` Anything else?")
           (str "Here you go:  ") (lit "~a~: [1, 2], ~b~: {}")
           (str "  Anything else?") no_options);
    vm_compute; first [reflexivity | intuition discriminate].
Defined.

(** ** parseJSON: the values it returns *)



(** ** validateComparisonData: what a complete report means *)

Definition city_ready (city : JVal) : Prop :=
  is_object city = true /\ isArray (get city (str "rolesSalaries")) = true.

Definition country_ready (expected : jstring) (country : JVal) : Prop :=
  get country (str "name") = Some (JStr expected)
  /\ exists c cs ps,
       get country (str "topCities") = Some (JArr (c :: cs) ps)
       /\ Forall city_ready (c :: cs).

Definition role_ready (expected : jstring) (role : JVal) : Prop :=
  get role (str "title") = Some (JStr expected)
  /\ exists s ss ps,
       get role (str "requiredSkills") = Some (JArr (s :: ss) ps).

Definition countries_ready (data : JVal) (cc tc : jstring) : Prop :=
  exists comparison cur tgt,
    get data (str "countrySalaryComparison") = Some comparison
    /\ get comparison (str "currentCountry") = Some cur
    /\ country_ready cc cur
    /\ get comparison (str "targetCountry") = Some tgt
    /\ country_ready tc tgt.

Definition roles_ready (data : JVal) (cr tr : jstring) : Prop :=
  exists roles cur tgt,
    get data (str "roleComparison") = Some roles
    /\ get roles (str "currentRole") = Some cur /\ role_ready cr cur
    /\ get roles (str "targetRole") = Some tgt /\ role_ready tr tgt
    /\ isArray (get roles (str "skillGaps")) = true
    /\ isArray (get roles (str "transferableSkills")) = true.

Definition analysis_ready (data : JVal) : Prop :=
  exists analysis,
    get data (str "salaryExpectationAnalysis") = Some analysis
    /\ typeof (get analysis (str "isRealistic")) = TBoolean
    /\ typeof (get analysis (str "percentile")) = TNumber
    /\ truthy_opt (get analysis (str "recommendation")) = true.

Definition complete_shape (data : JVal) (cc tc cr tr : jstring) : Prop :=
  countries_ready data cc tc /\ roles_ready data cr tr /\ analysis_ready data.

Lemma truthy_of_get (v : JVal) (k : jstring) (x : JVal) :
  get v k = Some x -> truthy v = true.
Proof. destruct v; cbn; try discriminate; reflexivity. Qed.

Lemma differs_false (o : option JVal) (expected : jstring) :
  differs o expected = false <-> o = Some (JStr expected).
Proof.
  unfold differs. destruct o as [[| | |s| |]|]; split; try discriminate.
  - intros H. apply negb_false_iff in H. apply jstr_eqb_eq in H. now subst.
  - intros [= ->]. now rewrite jstr_eqb_refl.
Qed.

Lemma check_city_ready (key : jstring) (i : nat) (city : JVal) :
  snd (check_city key i city) = [] <-> city_ready city.
Proof.
  unfold check_city, city_ready, is_object.
  destruct (truthy city); cbn [negb orb andb];
    [|split; [discriminate|intros [? _]; discriminate]].
  destruct (js_type_eqb (typeof (Some city)) TObject); cbn [negb];
    [|split; [discriminate|intros [? _]; discriminate]].
  destruct (isArray (get city (str "rolesSalaries"))); cbn [negb snd];
    split; auto; try discriminate. intros [_ ?]; discriminate.
Qed.

Lemma check_cities_ready (key : jstring) (cities : list JVal) (i : nat) :
  snd (check_cities key i cities) = [] <-> Forall city_ready cities.
Proof.
  revert i. induction cities as [|city rest IH]; intros i;
    cbn [check_cities]; [split; [constructor|reflexivity]|].
  specialize (IH (S i)). pose proof (check_city_ready key i city) as Hc.
  destruct (check_city key i city) as [city' m].
  destruct (check_cities key (S i) rest) as [rest' ms]. cbn [snd] in *.
  split.
  - intros H. apply app_eq_nil in H. destruct H as [-> ->].
    constructor; [now apply Hc|now apply IH].
  - intros H. inversion H; subst.
    rewrite (proj2 Hc), (proj2 IH) by assumption. reflexivity.
Qed.

Lemma ensure_ready (city : JVal) :
  city_ready city -> ensure_rolesSalaries city = city.
Proof.
  intros [H1 H2]. unfold ensure_rolesSalaries. now rewrite H1, H2.
Qed.

Lemma check_country_ready (key expected : jstring) (comparison : JVal) :
  snd (check_country key expected comparison) = []
  <-> exists country,
        get comparison key = Some country /\ country_ready expected country.
Proof.
  unfold check_country, country_ready. cbv zeta.
  destruct (get comparison key) as [country|] eqn:Hc;
    [|split; [discriminate|intros (? & ? & _); discriminate]].
  destruct (truthy country) eqn:Ht; cbn [negb snd].
  - destruct (differs (get country (str "name")) expected) eqn:Hd.
    + split.
      * destruct (get country (str "topCities")) as [[| | | |[|c cs] ps|]|];
          try discriminate.
        destruct (check_cities key 0 (c :: cs)); discriminate.
      * intros (x & [= <-] & Hname & _).
        apply differs_false in Hname. congruence.
    + apply differs_false in Hd.
      destruct (get country (str "topCities")) as [[| | | |[|c cs] ps|]|]
        eqn:Hcities;
        try (split; [discriminate
                    |intros (x & [= <-] & _ & (? & ? & ? & E & _));
                     rewrite Hcities in E; discriminate]).
      pose proof (check_cities_ready key (c :: cs) 0) as Hr.
      destruct (check_cities key 0 (c :: cs)) as [cities' ms].
      cbn [snd app] in *. split.
      * intros ->. exists country. split; [reflexivity|].
        split; [assumption|]. exists c, cs, ps. split; [assumption|].
        now apply Hr.
      * intros (x & [= <-] & _ & (c' & cs' & ps' & E & Hall)).
        rewrite Hcities in E. injection E as <- <- <-. now apply Hr.
  - split; [discriminate|].
    intros (x & [= <-] & Hname & _).
    rewrite (falsy_has_no_property _ _ Ht) in Hname. discriminate.
Qed.

Lemma ensure_in_country_ready (key expected : jstring) (comparison : JVal) :
  (exists country,
      get comparison key = Some country /\ country_ready expected country) ->
  ensure_in_country key comparison = comparison.
Proof.
  intros (country & Hc & _ & (c & cs & ps & Hcities & Hall)).
  unfold ensure_in_country, at_key. rewrite Hc, Hcities.
  cbn [each_element].
  replace (map ensure_rolesSalaries (c :: cs)) with (c :: cs).
  - now rewrite (put_get_id _ _ _ Hcities), (put_get_id _ _ _ Hc).
  - symmetry. clear Hcities. induction Hall as [|x l Hx _ IH]; [reflexivity|].
    cbn [map]. now rewrite (ensure_ready x Hx), IH.
Qed.

Lemma check_role_ready (key expected : jstring) (roles : JVal) :
  check_role key expected roles = []
  <-> exists role, get roles key = Some role /\ role_ready expected role.
Proof.
  unfold check_role, role_ready. cbv zeta.
  destruct (get roles key) as [role|] eqn:Hr;
    [|split; [discriminate|intros (? & ? & _); discriminate]].
  destruct (truthy role) eqn:Ht; cbn [negb].
  - destruct (differs (get role (str "title")) expected) eqn:Hd.
    + split; [discriminate|].
      intros (x & [= <-] & Htitle & _).
      apply differs_false in Htitle. congruence.
    + apply differs_false in Hd. cbn [app].
      destruct (get role (str "requiredSkills")) as [[| | | |[|s ss] ps|]|]
        eqn:Hs; cbn [nonempty_array negb];
        try (split; [discriminate
                    |intros (x & [= <-] & _ & (? & ? & ? & E));
                     rewrite Hs in E; discriminate]).
      split; [|reflexivity]. intros _. exists role. split; [reflexivity|].
      split; [assumption|]. now exists s, ss, ps.
  - split; [discriminate|].
    intros (x & [= <-] & Htitle & _).
    rewrite (falsy_has_no_property _ _ Ht) in Htitle. discriminate.
Qed.

Lemma js_type_eqb_eq (a b : js_type) : js_type_eqb a b = true <-> a = b.
Proof. destruct a, b; cbn; split; congruence. Qed.

(** The messages of the three sections, as [validateComparisonData]
    collects them. *)
Definition country_messages (data : JVal) (cc tc : jstring) : list jstring :=
  match get data (str "countrySalaryComparison") with
  | None => [str "countrySalaryComparison"]
  | Some comparison =>
      if negb (truthy comparison) then [str "countrySalaryComparison"]
      else
        snd (check_country (str "currentCountry") cc comparison)
        ++ snd (check_country (str "targetCountry") tc
                  (fst (check_country (str "currentCountry") cc comparison)))
  end.

Definition role_messages (data : JVal) (cr tr : jstring) : list jstring :=
  match get data (str "roleComparison") with
  | None => [str "roleComparison"]
  | Some roles =>
      if negb (truthy roles) then [str "roleComparison"]
      else
        check_role (str "currentRole") cr roles
        ++ check_role (str "targetRole") tr roles
        ++ (if negb (isArray (get roles (str "skillGaps")))
            then [str "roleComparison.skillGaps"] else [])
        ++ (if negb (isArray (get roles (str "transferableSkills")))
            then [str "roleComparison.transferableSkills"] else [])
  end.

Definition analysis_messages (data : JVal) : list jstring :=
  match get data (str "salaryExpectationAnalysis") with
  | None => [str "salaryExpectationAnalysis"]
  | Some analysis =>
      if negb (truthy analysis) then [str "salaryExpectationAnalysis"]
      else
        (if negb (js_type_eqb (typeof (get analysis (str "isRealistic")))
                              TBoolean)
         then [str "salaryExpectationAnalysis.isRealistic"] else [])
        ++ (if negb (js_type_eqb (typeof (get analysis (str "percentile")))
                                 TNumber)
            then [str "salaryExpectationAnalysis.percentile"] else [])
        ++ (if negb (truthy_opt (get analysis (str "recommendation")))
            then [str "salaryExpectationAnalysis.recommendation"] else [])
  end.

Lemma validation_effect (data : JVal) (cc tc cr tr : jstring) :
  fst (validateComparisonData data cc tc cr tr) = in_place_effect data.
Proof.
  unfold validateComparisonData, in_place_effect, at_key.
  destruct (truthy data) eqn:Ht; cbn [negb].
  - destruct (get data (str "countrySalaryComparison"))
      as [comparison|] eqn:Hc; [|reflexivity].
    destruct (truthy comparison) eqn:Htc; cbn [negb].
    + pose proof (check_country_effect (str "currentCountry") cc comparison)
        as E1.
      destruct (check_country (str "currentCountry") cc comparison)
        as [c1 m1]; cbn [fst] in E1.
      pose proof (check_country_effect (str "targetCountry") tc c1) as E2.
      destruct (check_country (str "targetCountry") tc c1) as [c2 m2];
        cbn [fst] in E2.
      cbn [fst]. now rewrite E2, E1.
    + cbn [fst]. unfold ensure_in_country, at_key.
      rewrite !(falsy_has_no_property _ _ Htc).
      now rewrite (put_get_id _ _ _ Hc).
  - cbn [fst]. now rewrite (falsy_has_no_property _ _ Ht).
Qed.

Lemma validation_report (data : JVal) (cc tc cr tr : jstring) :
  truthy data = true ->
  missingFields (snd (validateComparisonData data cc tc cr tr))
  = country_messages data cc tc
    ++ role_messages (in_place_effect data) cr tr
    ++ analysis_messages (in_place_effect data)
  /\ isComplete (snd (validateComparisonData data cc tc cr tr))
     = is_nil (missingFields (snd (validateComparisonData data cc tc cr tr))).
Proof.
  intros Ht. rewrite <- (validation_effect data cc tc cr tr).
  unfold validateComparisonData, country_messages, role_messages,
    analysis_messages.
  rewrite Ht. cbn [negb].
  destruct (get data (str "countrySalaryComparison")) as [comparison|];
    [|split; reflexivity].
  destruct (truthy comparison); cbn [negb]; [|split; reflexivity].
  destruct (check_country (str "currentCountry") cc comparison) as [c1 m1].
  cbn [fst snd].
  destruct (check_country (str "targetCountry") tc c1) as [c2 m2].
  split; reflexivity.
Qed.

Lemma is_nil_true {A : Type} (l : list A) : is_nil l = true <-> l = [].
Proof. destruct l; cbn; split; congruence. Qed.

Lemma country_messages_ready (data : JVal) (cc tc : jstring) :
  country_messages data cc tc = [] <-> countries_ready data cc tc.
Proof.
  unfold country_messages, countries_ready.
  destruct (get data (str "countrySalaryComparison")) as [comparison|] eqn:Hc;
    [|split; [discriminate|intros (? & ? & ? & ? & _); discriminate]].
  destruct (truthy comparison) eqn:Ht; cbn [negb].
  - pose proof (check_country_ready (str "currentCountry") cc comparison)
      as H1.
    pose proof (check_country_effect (str "currentCountry") cc comparison)
      as E1.
    pose proof (ensure_in_country_ready (str "currentCountry") cc comparison)
      as Hfix.
    destruct (check_country (str "currentCountry") cc comparison) as [c1 m1].
    cbn [fst snd] in *. split.
    + intros H. apply app_eq_nil in H. destruct H as [-> H2].
      destruct (proj1 H1 eq_refl) as (cur & Hcur & Hready).
      rewrite E1, Hfix in H2 by eauto.
      apply check_country_ready in H2. destruct H2 as (tgt & Htgt & Hready').
      exists comparison, cur, tgt. auto.
    + intros (x & cur & tgt & [= <-] & Hcur & Hready & Htgt & Hready').
      rewrite (proj2 H1) by eauto. rewrite E1, Hfix by eauto.
      cbn [app]. apply check_country_ready. eauto.
  - split; [discriminate|].
    intros (x & cur & tgt & [= <-] & Hcur & _).
    rewrite (falsy_has_no_property _ _ Ht) in Hcur. discriminate.
Qed.

Lemma in_place_effect_ready (data : JVal) (cc tc : jstring) :
  countries_ready data cc tc -> in_place_effect data = data.
Proof.
  intros (comparison & cur & tgt & Hc & Hcur & Hready & Htgt & Hready').
  unfold in_place_effect, at_key. rewrite Hc.
  rewrite (ensure_in_country_ready (str "currentCountry") cc comparison)
    by eauto.
  rewrite (ensure_in_country_ready (str "targetCountry") tc comparison)
    by eauto.
  now apply put_get_id.
Qed.

Lemma role_messages_ready (data : JVal) (cr tr : jstring) :
  role_messages data cr tr = [] <-> roles_ready data cr tr.
Proof.
  unfold role_messages, roles_ready.
  destruct (get data (str "roleComparison")) as [roles|] eqn:Hr;
    [|split; [discriminate|intros (? & ? & ? & ? & _); discriminate]].
  destruct (truthy roles) eqn:Ht; cbn [negb].
  - pose proof (check_role_ready (str "currentRole") cr roles) as H1.
    pose proof (check_role_ready (str "targetRole") tr roles) as H2.
    split.
    + intros H. apply app_eq_nil in H. destruct H as [Ha H].
      apply app_eq_nil in H. destruct H as [Hb H].
      apply app_eq_nil in H. destruct H as [Hc Hd].
      destruct (proj1 H1 Ha) as (cur & Hcur & Hready).
      destruct (proj1 H2 Hb) as (tgt & Htgt & Hready').
      exists roles, cur, tgt.
      destruct (isArray (get roles (str "skillGaps"))); [|discriminate Hc].
      destruct (isArray (get roles (str "transferableSkills")));
        [|discriminate Hd].
      auto 10.
    + intros (x & cur & tgt & [= <-] & Hcur & Hready & Htgt & Hready'
              & Hgaps & Htrans).
      rewrite (proj2 H1), (proj2 H2), Hgaps, Htrans by eauto. reflexivity.
  - split; [discriminate|].
    intros (x & cur & tgt & [= <-] & Hcur & _).
    rewrite (falsy_has_no_property _ _ Ht) in Hcur. discriminate.
Qed.

Lemma analysis_messages_ready (data : JVal) :
  analysis_messages data = [] <-> analysis_ready data.
Proof.
  unfold analysis_messages, analysis_ready.
  destruct (get data (str "salaryExpectationAnalysis")) as [analysis|] eqn:Ha;
    [|split; [discriminate|intros (? & ? & _); discriminate]].
  destruct (truthy analysis) eqn:Ht; cbn [negb].
  - split.
    + intros H. exists analysis. split; [reflexivity|].
      destruct (js_type_eqb (typeof (get analysis (str "isRealistic")))
                            TBoolean) eqn:H1; [|discriminate H].
      destruct (js_type_eqb (typeof (get analysis (str "percentile")))
                            TNumber) eqn:H2; [|discriminate H].
      destruct (truthy_opt (get analysis (str "recommendation")));
        [|discriminate H].
      apply js_type_eqb_eq in H1, H2. auto.
    + intros (x & [= <-] & H1 & H2 & H3).
      apply js_type_eqb_eq in H1, H2. now rewrite H1, H2, H3.
  - split; [discriminate|].
    intros (x & [= <-] & _ & _ & H3).
    rewrite (falsy_has_no_property _ _ Ht) in H3. discriminate.
Qed.

(** The report says complete exactly for data of the complete shape, and
    such data is returned as it was. *)
Lemma complete_report (data : JVal) (cc tc cr tr : jstring) :
  (isComplete (snd (validateComparisonData data cc tc cr tr)) = true
   <-> complete_shape data cc tc cr tr)
  /\ (isComplete (snd (validateComparisonData data cc tc cr tr)) = true ->
      fst (validateComparisonData data cc tc cr tr) = data).
Proof.
  assert (Hiff : isComplete (snd (validateComparisonData data cc tc cr tr))
                 = true <-> complete_shape data cc tc cr tr).
  { destruct (truthy data) eqn:Ht.
    - destruct (validation_report data cc tc cr tr Ht) as [Hm ->].
      rewrite Hm, is_nil_true. unfold complete_shape. split.
      + intros H. apply app_eq_nil in H. destruct H as [H1 H].
        apply app_eq_nil in H. destruct H as [H2 H3].
        apply country_messages_ready in H1.
        rewrite (in_place_effect_ready data cc tc H1) in H2, H3.
        apply role_messages_ready in H2.
        apply analysis_messages_ready in H3. auto.
      + intros (H1 & H2 & H3).
        rewrite (in_place_effect_ready data cc tc H1).
        apply country_messages_ready in H1.
        apply role_messages_ready in H2.
        apply analysis_messages_ready in H3.
        now rewrite H1, H2, H3.
    - unfold validateComparisonData. rewrite Ht. cbn [negb snd isComplete].
      split; [discriminate|].
      intros ((comparison & ? & ? & Hc & _) & _).
      rewrite (falsy_has_no_property _ _ Ht) in Hc. discriminate. }
  split; [exact Hiff|].
  intros H. apply Hiff in H. destruct H as (H1 & _).
  rewrite validation_effect. now apply (in_place_effect_ready data cc tc).
Qed.


(** X10: [validateComparisonData] reports the data complete exactly when
    both countries carry the expected name and a non-empty [topCities]
    array whose every element is an object with an array
    [rolesSalaries], both roles carry the expected title and a
    non-empty [requiredSkills] array, [skillGaps] and
    [transferableSkills] are arrays, and the salary analysis has a
    boolean [isRealistic], a number [percentile] and a truthy
    [recommendation]; data reported complete is left as it was. *)
Theorem X10_complete_report_characterised
        (data : JVal) (cc tc cr tr : jstring) :
  (isComplete (snd (validateComparisonData data cc tc cr tr)) = true
   <-> complete_shape data cc tc cr tr)
  /\ (isComplete (snd (validateComparisonData data cc tc cr tr)) = true ->
      fst (validateComparisonData data cc tc cr tr) = data).
Proof. exact (complete_report data cc tc cr tr). Qed.

(** ** validateComparisonData: repairing twice *)

Lemma assign_comm (k1 k2 : jstring) (a b : JVal) (l : list (jstring * JVal)) :
  k1 <> k2 -> lookup k1 l <> None -> lookup k2 l <> None ->
  assign k1 a (assign k2 b l) = assign k2 b (assign k1 a l).
Proof.
  intros Hne. induction l as [|[k v] l IH]; cbn [lookup assign];
    [intros H; now elim H|].
  intros H1 H2.
  destruct (jstr_eqb_spec k1 k) as [->|Hk1];
    destruct (jstr_eqb_spec k2 k) as [->|Hk2]; try congruence; cbn [assign].
  - rewrite jstr_eqb_refl.
    destruct (jstr_eqb_spec k2 k) as [E|_]; [congruence|reflexivity].
  - rewrite jstr_eqb_refl.
    destruct (jstr_eqb_spec k1 k) as [E|_]; [congruence|reflexivity].
  - destruct (jstr_eqb_spec k1 k) as [E|_]; [congruence|].
    destruct (jstr_eqb_spec k2 k) as [E|_]; [congruence|].
    now rewrite IH.
Qed.

Lemma put_comm (v : JVal) (k1 k2 : jstring) (a b : JVal) :
  k1 <> k2 -> get v k1 <> None -> get v k2 <> None ->
  put (put v k2 b) k1 a = put (put v k1 a) k2 b.
Proof.
  destruct v; cbn [get put]; intros Hne H1 H2; try now elim H1.
  - f_equal. now apply assign_comm.
  - f_equal. now apply assign_comm.
Qed.

Lemma at_key_idem (k : jstring) (f : JVal -> JVal) (v : JVal) :
  (forall x, f (f x) = f x) -> at_key k f (at_key k f v) = at_key k f v.
Proof.
  intros Hf. unfold at_key at 2 3.
  destruct (get v k) as [x|] eqn:E.
  - unfold at_key.
    rewrite get_put_same by (eapply get_some_is_object; eassumption).
    rewrite Hf. apply put_get_id.
    apply get_put_same. eapply get_some_is_object; eassumption.
  - unfold at_key. now rewrite E.
Qed.

Lemma at_key_comm (k1 k2 : jstring) (f g : JVal -> JVal) (v : JVal) :
  k1 <> k2 ->
  at_key k1 f (at_key k2 g v) = at_key k2 g (at_key k1 f v).
Proof.
  intros Hne. unfold at_key.
  destruct (get v k2) as [y|] eqn:E2; destruct (get v k1) as [x|] eqn:E1;
    rewrite ?get_put_other, ?E1, ?E2 by congruence; try reflexivity.
  apply put_comm; congruence.
Qed.

Lemma ensure_rolesSalaries_idem (city : JVal) :
  ensure_rolesSalaries (ensure_rolesSalaries city) = ensure_rolesSalaries city.
Proof.
  unfold ensure_rolesSalaries at 2 3.
  destruct (is_object city) eqn:Hobj; cbn [andb];
    [|unfold ensure_rolesSalaries; now rewrite Hobj].
  destruct (isArray (get city (str "rolesSalaries"))) eqn:Harr; cbn [negb];
    unfold ensure_rolesSalaries.
  - now rewrite Hobj, Harr.
  - rewrite is_object_put, Hobj, get_put_same by assumption. reflexivity.
Qed.

Lemma each_element_idem (f : JVal -> JVal) (v : JVal) :
  (forall x, f (f x) = f x) -> each_element f (each_element f v) = each_element f v.
Proof.
  intros Hf. destruct v; cbn [each_element]; try reflexivity.
  f_equal. rewrite map_map. apply map_ext. intros x. apply Hf.
Qed.

Lemma ensure_in_country_idem (key : jstring) (v : JVal) :
  ensure_in_country key (ensure_in_country key v) = ensure_in_country key v.
Proof.
  unfold ensure_in_country. apply at_key_idem. intros x.
  apply at_key_idem. intros y. apply each_element_idem.
  apply ensure_rolesSalaries_idem.
Qed.

Lemma in_place_effect_idem (data : JVal) :
  in_place_effect (in_place_effect data) = in_place_effect data.
Proof.
  unfold in_place_effect. apply at_key_idem. intros c.
  assert (Hcomm : forall x,
             ensure_in_country (str "currentCountry")
               (ensure_in_country (str "targetCountry") x)
             = ensure_in_country (str "targetCountry")
                 (ensure_in_country (str "currentCountry") x)).
  { intros x. unfold ensure_in_country. apply at_key_comm. discriminate. }
  rewrite Hcomm, !ensure_in_country_idem. reflexivity.
Qed.

(** X11: the repair that [validateComparisonData] makes is final: a
    second validation of the data the first one left changes nothing,
    whatever names and titles it is asked to check. *)
Theorem X11_validation_repairs_once
        (data : JVal) (cc tc cr tr cc' tc' cr' tr' : jstring) :
  fst (validateComparisonData
         (fst (validateComparisonData data cc tc cr tr)) cc' tc' cr' tr')
  = fst (validateComparisonData data cc tc cr tr).
Proof. rewrite !validation_effect. apply in_place_effect_idem. Qed.

(** ** generateComparisonInsights: what every returned value carries *)

Section ComparisonResult.

Variable JSON5_parse : jstring -> result JVal.
Variable jsonrepair : jstring -> result jstring.
Variable syntax_error_message : jstring -> jstring.
Variable generateContent : nat -> result jstring.
Variable now : jstring.
Variable u : UserData.

(** What holds of the loop variables between two passes. *)
Definition loop_invariant (st : loop_state) : Prop :=
  attempts st = calls st
  /\ calls st <= MAX_RETRIES
  /\ (complete st = true ->
      complete_shape (data st)
        (or_else (currentCountry u) (str "US"))
        (or_else (targetCountry u) (str "US"))
        (or_else (currentRole u) (str "Software Developer"))
        (or_else (targetRole u) (str "Software Developer")))
  /\ (data st <> JNull ->
      exists k, 1 <= k <= calls st
                /\ attempt_result JSON5_parse jsonrepair syntax_error_message
                                  generateContent u k <> None).

Lemma attempt_once_invariant (st : loop_state) :
  loop_invariant st -> attempts st < MAX_RETRIES -> complete st = false ->
  loop_invariant (attempt_once JSON5_parse jsonrepair syntax_error_message
                               generateContent u st).
Proof.
  intros (Heq & Hle & _ & Hdata) Hlt Hc. rewrite attempt_once_spec.
  destruct (attempt_result _ _ _ _ _ (S (calls st))) as [[d report]|] eqn:E;
    unfold loop_invariant; cbn [attempts calls complete data].
  - rewrite Hc. split; [lia|]. split; [lia|]. split.
    + intros Hcomplete.
      assert (Hrep : isComplete report = true)
        by (destruct (isComplete report); congruence).
      unfold attempt_result in E.
      destruct (generateContent (S (calls st))) as [text|e]; [|discriminate].
      destruct (parse _ _ _ text _) as [parsed|e]; [|discriminate].
      injection E as E.
      pose proof (complete_report parsed
                    (or_else (currentCountry u) (str "US"))
                    (or_else (targetCountry u) (str "US"))
                    (or_else (currentRole u) (str "Software Developer"))
                    (or_else (targetRole u) (str "Software Developer")))
        as [Hiff Hsame].
      rewrite E in Hiff, Hsame. cbn [fst snd] in Hiff, Hsame.
      rewrite (Hsame Hrep). now apply Hiff.
    + intros _. exists (S (calls st)). split; [lia|]. rewrite E. discriminate.
  - split; [lia|]. split; [lia|]. split; [congruence|].
    intros Hd. destruct (Hdata Hd) as (k & Hk & Hres).
    exists k. split; [lia|assumption].
Qed.

Lemma retry_loop_invariant (fuel : nat) (st : loop_state) :
  loop_invariant st ->
  loop_invariant (retry_loop JSON5_parse jsonrepair syntax_error_message
                             generateContent fuel u st).
Proof.
  revert st. induction fuel as [|fuel IH]; intros st Hst; cbn [retry_loop];
    [assumption|].
  destruct (Nat.ltb_spec (attempts st) MAX_RETRIES) as [Hlt|_]; cbn [andb];
    [|assumption].
  destruct (complete st) eqn:Hc; cbn [negb]; [assumption|].
  apply IH. now apply attempt_once_invariant.
Qed.

Lemma retry_loop_calls_grow (fuel : nat) (st : loop_state) :
  calls st
  <= calls (retry_loop JSON5_parse jsonrepair syntax_error_message
                       generateContent fuel u st).
Proof.
  revert st. induction fuel as [|fuel IH]; intros st; cbn [retry_loop];
    [lia|].
  destruct (Nat.ltb (attempts st) MAX_RETRIES && negb (complete st)); [|lia].
  etransitivity; [|apply IH]. rewrite attempt_once_spec.
  destruct (attempt_result _ _ _ _ _ _) as [[d r]|]; cbn [calls]; lia.
Qed.

Lemma initial_invariant : loop_invariant initial.
Proof.
  unfold loop_invariant, initial, MAX_RETRIES. cbn.
  split; [reflexivity|]. split; [lia|]. split; [discriminate|].
  intros H. now elim H.
Qed.

(** The state in which the loop of an invocation ends. *)
Definition final : loop_state :=
  retry_loop JSON5_parse jsonrepair syntax_error_message generateContent
             MAX_RETRIES u initial.

Lemma final_facts :
  loop_invariant final /\ 1 <= calls final.
Proof.
  split; [apply retry_loop_invariant, initial_invariant|].
  unfold final.
  change (retry_loop JSON5_parse jsonrepair syntax_error_message
                     generateContent MAX_RETRIES u initial)
    with (retry_loop JSON5_parse jsonrepair syntax_error_message
                     generateContent (S 2) u initial).
  rewrite retry_loop_step.
  change (Nat.ltb (attempts initial) MAX_RETRIES
          && negb (complete initial)) with true. cbv iota.
  etransitivity; [|apply retry_loop_calls_grow].
  rewrite attempt_once_spec.
  destruct (attempt_result _ _ _ _ _ _) as [[d r]|]; cbn [calls initial]; lia.
Qed.

Lemma default_sections_truthy (a b : jstring) :
  truthy (default_roleComparison a b) = true
  /\ truthy default_salaryExpectationAnalysis = true.
Proof. split; reflexivity. Qed.

(** One backfill of the code after the loop: [if (!v.k) v.k = x], on an
    object. *)
Lemma backfill_step (v : JVal) (k : jstring) (x : JVal) :
  is_object v = true -> truthy x = true ->
  exists v',
    (do o <- read v k;
     if negb (truthy_opt o) then set v k x else Ok v) = Ok v'
    /\ is_object v' = true
    /\ truthy_opt (get v' k) = true
    /\ (forall k', k' <> k -> get v' k' = get v k').
Proof.
  intros Hobj Hx.
  assert (Hread : read v k = Ok (get v k))
    by (destruct (is_object_cases _ Hobj) as [[l ->]|[es [ps ->]]];
        reflexivity).
  rewrite Hread. cbn [bind].
  destruct (truthy_opt (get v k)) eqn:E; cbn [negb].
  - exists v. auto.
  - exists (put v k x). rewrite set_put by assumption.
    rewrite is_object_put, get_put_same by assumption.
    repeat split; try assumption.
    intros k' Hk. apply get_put_other. congruence.
Qed.

Lemma bind_assoc {A B C : Type} (r : result A) (f : A -> result B)
      (g : B -> result C) :
  (do y <- (do x <- r; f x); g y) = (do x <- r; do y <- f x; g y).
Proof. now destruct r. Qed.

(** The code after the loop, on the state the loop ends in. *)
Lemma finish_returns (st : loop_state) (d : JVal) :
  loop_invariant st ->
  finish now u st = Ok d ->
  is_object (data st) = true
  /\ get d (str "_meta") = Some (meta now (attempts st) (complete st))
  /\ truthy_opt (get d (str "roleComparison")) = true
  /\ truthy_opt (get d (str "salaryExpectationAnalysis")) = true
  /\ (forall k, k <> str "_meta" -> k <> str "roleComparison" ->
                k <> str "salaryExpectationAnalysis" ->
                get d k = get (data st) k).
Proof.
  intros (_ & _ & Hshape & _) H. unfold finish in H. cbv zeta in H.
  destruct (complete st) eqn:Hc; cbn [negb] in H.
  - destruct (Hshape eq_refl)
      as ((comparison & ? & ? & Hcsc & _)
          & (roles & cur & ? & Hroles & Hcur & _)
          & (analysis & Hanalysis & _ & _ & Hrec)).
    assert (Hobj : is_object (data st) = true)
      by (eapply get_some_is_object; eassumption).
    cbn [bind] in H. rewrite set_put in H by assumption.
    injection H as <-. split; [assumption|].
    rewrite get_put_same by assumption. split; [reflexivity|].
    rewrite !get_put_other by discriminate. rewrite Hroles, Hanalysis.
    cbn [truthy_opt].
    rewrite (truthy_of_get _ _ _ Hcur).
    assert (Ha : truthy analysis = true).
    { destruct (get analysis (str "recommendation")) as [rec|] eqn:E;
        [|discriminate Hrec]. eapply truthy_of_get; eassumption. }
    rewrite Ha. repeat split.
    intros k Hk _ _. apply get_put_other. congruence.
  - destruct (is_object (data st)) eqn:Hobj.
    + destruct (backfill_step (data st) (str "roleComparison")
                  (default_roleComparison
                     (or_else (currentRole u) (str "Software Developer"))
                     (or_else (targetRole u) (str "Software Developer")))
                  Hobj eq_refl)
        as (d1 & E1 & Hobj1 & Hroles1 & Hkeep1).
      destruct (backfill_step d1 (str "salaryExpectationAnalysis")
                  default_salaryExpectationAnalysis Hobj1 eq_refl)
        as (d2 & E2 & Hobj2 & Hanalysis2 & Hkeep2).
      rewrite <- (bind_assoc (read (data st) (str "roleComparison"))) in H.
      rewrite E1 in H. cbn [bind] in H. rewrite E2 in H. cbn [bind] in H.
      rewrite set_put in H by assumption. injection H as <-.
      split; [reflexivity|].
      rewrite get_put_same by assumption. split; [reflexivity|].
      rewrite !get_put_other by discriminate.
      split; [now rewrite Hkeep2 by discriminate|].
      split; [assumption|].
      intros k Hk1 Hk2 Hk3. rewrite get_put_other by congruence.
      now rewrite Hkeep2, Hkeep1.
    + exfalso. destruct (data st) as [|[|]|x|s|l ps|l]; discriminate.
Qed.

(** With enough fuel the loop ends because its condition is false. *)
Lemma retry_loop_exit (fuel : nat) (st : loop_state) :
  MAX_RETRIES <= attempts st + fuel ->
  let st' := retry_loop JSON5_parse jsonrepair syntax_error_message
                        generateContent fuel u st in
  Nat.ltb (attempts st') MAX_RETRIES && negb (complete st') = false.
Proof.
  revert st. induction fuel as [|fuel IH]; intros st Hfuel; cbn zeta.
  - cbn [retry_loop].
    destruct (Nat.ltb_spec (attempts st) MAX_RETRIES); [lia|reflexivity].
  - rewrite retry_loop_step.
    destruct (Nat.ltb (attempts st) MAX_RETRIES && negb (complete st)) eqn:E;
      [|exact E].
    apply IH. rewrite attempt_once_spec.
    destruct (attempt_result _ _ _ _ _ _) as [[d r]|]; cbn [attempts]; lia.
Qed.

End ComparisonResult.

(** X12: whenever [generateComparisonInsights] returns a value, that value
    is an object with truthy [roleComparison] and
    [salaryExpectationAnalysis] sections and with [_meta] holding the
    clock reading, the source "Gemini AI", the number of generation
    calls made (between one and three) and the completeness flag. *)
Theorem X12_returned_comparison_has_sections_and_meta
        (JSON5_parse : jstring -> result JVal)
        (jsonrepair : jstring -> result jstring)
        (syntax_error_message : jstring -> jstring)
        (GEMINI_API_KEY : bool)
        (generateContent : nat -> result jstring)
        (now : jstring) (u : UserData) (d : JVal) (n : nat) :
  generateComparisonInsights JSON5_parse jsonrepair syntax_error_message
                             GEMINI_API_KEY generateContent now u
  = (Ok d, n) ->
  1 <= n <= 3
  /\ is_object d = true
  /\ (exists c,
         get d (str "_meta")
         = Some (JObj [(str "generatedAt", JStr now);
                       (str "source", JStr (str "Gemini AI"));
                       (str "attempts", JInt (Z.of_nat n));
                       (str "isComplete", JBool c)]))
  /\ truthy_opt (get d (str "roleComparison")) = true
  /\ truthy_opt (get d (str "salaryExpectationAnalysis")) = true.
Proof.
  unfold generateComparisonInsights.
  destruct GEMINI_API_KEY; cbn [negb]; [|discriminate].
  fold (final JSON5_parse jsonrepair syntax_error_message generateContent u).
  intros [= Hfinish <-].
  destruct (final_facts JSON5_parse jsonrepair syntax_error_message
              generateContent u) as [Hinv Hcalls].
  destruct (finish_returns JSON5_parse jsonrepair syntax_error_message
              generateContent now u _ d Hinv Hfinish)
    as (Hobj & Hmeta & Hroles & Hanalysis & _).
  destruct Hinv as (Heq & Hle & _ & _). unfold MAX_RETRIES in Hle.
  split; [lia|]. split.
  - destruct (get d (str "_meta")) as [m|] eqn:E; [|discriminate Hmeta].
    eapply get_some_is_object; eassumption.
  - split; [|split; assumption].
    eexists. rewrite Hmeta, Heq. reflexivity.
Qed.

Definition sample_partial_result : JVal :=
  Eval vm_compute in
    match fst (generateComparisonInsights rejecting_JSON5
                 rejecting_jsonrepair fixed_message true
                 (fun n => match n with
                           | 1 => Ok (lit "{~roleComparison~:0, ~note~:~x~}")
                           | _ => Throw (MkExn ErrorK (str "fetch failed"))
                           end)
                 (str "2025-01-01T00:00:00.000Z") no_user_data) with
    | Ok d => d
    | Throw _ => JNull
    end.

Lemma X12_witness :
  1 <= 3 <= 3
  /\ is_object sample_partial_result = true
  /\ (exists c,
         get sample_partial_result (str "_meta")
         = Some (JObj [(str "generatedAt",
                        JStr (str "2025-01-01T00:00:00.000Z"));
                       (str "source", JStr (str "Gemini AI"));
                       (str "attempts", JInt (Z.of_nat 3));
                       (str "isComplete", JBool c)]))
  /\ truthy_opt (get sample_partial_result (str "roleComparison")) = true
  /\ truthy_opt (get sample_partial_result (str "salaryExpectationAnalysis"))
     = true.
Proof.
  apply (X12_returned_comparison_has_sections_and_meta rejecting_JSON5
           rejecting_jsonrepair fixed_message true
           (fun n => match n with
                     | 1 => Ok (lit "{~roleComparison~:0, ~note~:~x~}")
                     | _ => Throw (MkExn ErrorK (str "fetch failed"))
                     end)
           (str "2025-01-01T00:00:00.000Z") no_user_data
           sample_partial_result 3).
  vm_compute. reflexivity.
Defined.

(** X13: when the API key is set and none of the three attempts yields
    parsed data (each call, or the parse of its answer, throws), the
    invocation makes three calls and rejects with the TypeError of
    reading [roleComparison] from [null]. *)
Theorem X13_no_parsed_data_rejects
        (JSON5_parse : jstring -> result JVal)
        (jsonrepair : jstring -> result jstring)
        (syntax_error_message : jstring -> jstring)
        (generateContent : nat -> result jstring)
        (now : jstring) (u : UserData) :
  (forall k, 1 <= k <= 3 ->
             attempt_result JSON5_parse jsonrepair syntax_error_message
                            generateContent u k = None) ->
  generateComparisonInsights JSON5_parse jsonrepair syntax_error_message
                             true generateContent now u
  = (Throw null_access_error, 3).
Proof.
  intros Hnone. unfold generateComparisonInsights. cbn [negb].
  fold (final JSON5_parse jsonrepair syntax_error_message generateContent u).
  destruct (final_facts JSON5_parse jsonrepair syntax_error_message
              generateContent u) as [(Heq & Hle & Hshape & Hdata) Hcalls].
  pose proof (retry_loop_exit JSON5_parse jsonrepair syntax_error_message
                generateContent u MAX_RETRIES initial) as Hexit.
  cbn zeta in Hexit.
  fold (final JSON5_parse jsonrepair syntax_error_message generateContent u)
    in Hexit.
  specialize (Hexit ltac:(cbn; lia)).
  set (st := final JSON5_parse jsonrepair syntax_error_message
                   generateContent u) in *.
  assert (Hnull : data st = JNull).
  { destruct (data st) eqn:E; try reflexivity;
      (destruct Hdata as (k & Hk & Hres); [discriminate|];
       elim Hres; apply Hnone; unfold MAX_RETRIES in Hle; lia). }
  assert (Hc : complete st = false).
  { destruct (complete st); [|reflexivity].
    destruct (Hshape eq_refl) as ((? & ? & ? & Hget & _) & _).
    rewrite Hnull in Hget. discriminate Hget. }
  rewrite Hc in Hexit. cbn [negb] in Hexit. rewrite andb_true_r in Hexit.
  apply Nat.ltb_ge in Hexit. unfold MAX_RETRIES in *.
  assert (Hthree : calls st = 3) by lia.
  rewrite Hthree. f_equal.
  unfold finish. rewrite Hc, Hnull. reflexivity.
Qed.

Lemma X13_witness :
  generateComparisonInsights rejecting_JSON5 rejecting_jsonrepair
    fixed_message true
    (fun n => match n with
              | 2 => Throw (MkExn ErrorK (str "fetch failed"))
              | _ => Ok (str "I cannot help with that.")
              end)
    (str "2025-01-01T00:00:00.000Z") no_user_data
  = (Throw null_access_error, 3).
Proof.
  apply (X13_no_parsed_data_rejects rejecting_JSON5 rejecting_jsonrepair
           fixed_message
           (fun n => match n with
                     | 2 => Throw (MkExn ErrorK (str "fetch failed"))
                     | _ => Ok (str "I cannot help with that.")
                     end)
           (str "2025-01-01T00:00:00.000Z") no_user_data).
  intros k Hk.
  assert (E : k = 1 \/ k = 2 \/ k = 3) by lia.
  destruct E as [->|[->| ->]]; vm_compute; reflexivity.
Defined.

(** ** generateIndustryInsights: what can go wrong *)

Lemma validated_is_object (data d : JVal) :
  validate_and_sanitize data = Ok d -> is_object data = true.
Proof.
  unfold validate_and_sanitize.
  destruct data as [|[|]|x|s|l ps|l]; try discriminate; try reflexivity.
  - destruct (truthy (JNum x)); discriminate.
  - destruct s; discriminate.
Qed.



(** ** The validation step: what it leaves alone and what it keeps *)

Definition processed_fields : list jstring :=
  str "industryOverview" :: str "expectedSalaryRange" :: arrayFields.

(** The three stages of the validation step, when it returns. *)
Lemma validation_stages (data d : JVal) :
  validate_and_sanitize data = Ok d ->
  exists d1 d2,
    is_object data = true
    /\ process_overview data = Ok d1 /\ is_object d1 = true
    /\ (forall k, k <> str "industryOverview" -> get d1 k = get data k)
    /\ forEach arrayFields d1 = Ok d2 /\ is_object d2 = true
    /\ (forall k, ~ In k arrayFields -> get d2 k = get d1 k)
    /\ process_salary_range d2 = Ok d /\ is_object d = true
    /\ (forall k, k <> str "expectedSalaryRange" -> get d k = get d2 k).
Proof.
  intros Hok. pose proof (validated_is_object data d Hok) as Hobj.
  unfold validate_and_sanitize in Hok.
  destruct (is_object_true data Hobj) as [Ht _]. rewrite Ht in Hok.
  cbn [negb] in Hok.
  destruct arrayFields_facts as (Hnodup & Hkeys & _ & _).
  pose proof (process_overview_spec data Hobj) as H1.
  destruct (process_overview data) as [d1|e]; [|discriminate].
  destruct H1 as (Hobj1 & _ & Hframe1 & _). cbn [bind] in Hok.
  pose proof (forEach_spec arrayFields d1 Hobj1 Hnodup Hkeys) as H2.
  destruct (forEach arrayFields d1) as [d2|e] eqn:Hfor; [|discriminate].
  destruct H2 as (Hobj2 & _ & Hframe2 & _). cbn [bind] in Hok.
  pose proof (process_salary_range_spec d2 Hobj2) as H3.
  rewrite Hok in H3. destruct H3 as (Hobj3 & _ & Hframe3 & _).
  exists d1, d2.
  repeat (split; [first [assumption | reflexivity]|]). assumption.
Qed.

(** X15: the validation step touches the twelve fields it names and no
    other: every other property of the parsed object has, in the value
    returned, the value it had. *)
Theorem X15_validation_leaves_other_fields
        (data d : JVal) (k : jstring) :
  validate_and_sanitize data = Ok d ->
  ~ In k processed_fields ->
  get d k = get data k.
Proof.
  intros Hok Hk.
  destruct (validation_stages data d Hok)
    as (d1 & d2 & _ & _ & _ & Hf1 & _ & _ & Hf2 & _ & _ & Hf3).
  unfold processed_fields in Hk. cbn [In] in Hk.
  rewrite Hf3, Hf2, Hf1; try reflexivity; intuition congruence.
Qed.

Lemma X15_witness :
  get sample_validated (str "growthRate")
  = get sample_insights (str "growthRate").
Proof.
  apply (X15_validation_leaves_other_fields sample_insights sample_validated
           (str "growthRate")).
  - vm_compute. reflexivity.
  - vm_compute. intuition discriminate.
Defined.

(** The pass over one field, inside the pass over all of them. *)
Lemma forEach_field (fields : list jstring) (d d' : JVal) (f : jstring) :
  is_object d = true ->
  NoDup fields ->
  (forall g, In g fields -> jstr_eqb g (str "toString") = false) ->
  In f fields ->
  forEach fields d = Ok d' ->
  exists d0 d1,
    is_object d0 = true /\ get d0 f = get d f
    /\ process_field d0 f = Ok d1 /\ get d' f = get d1 f.
Proof.
  revert d. induction fields as [|g fields IH];
    intros d Hobj Hnodup Hkeys Hin Hok; [destruct Hin|].
  cbn [forEach] in Hok.
  pose proof (process_field_spec d g Hobj (Hkeys g (or_introl eq_refl)))
    as Hstep.
  destruct (process_field d g) as [dg|e] eqn:Eg; [|discriminate].
  cbn [bind] in Hok. destruct Hstep as (Hobjg & _ & Hframe & _).
  inversion Hnodup as [|? ? Hnotin Hnodup']; subst.
  destruct Hin as [->|Hin].
  - exists d, dg. repeat split; try assumption.
    destruct (forEach_frame fields dg d' f Hobjg Hnodup'
                (fun h Hh => Hkeys h (or_intror Hh)) Hnotin Hok) as [_ E].
    exact E.
  - destruct (IH dg Hobjg Hnodup' (fun h Hh => Hkeys h (or_intror Hh))
                Hin Hok) as (d0 & d1 & H0 & Hget & Hp & Hres).
    exists d0, d1. repeat split; try assumption.
    rewrite Hget. apply Hframe. intros ->. contradiction.
Qed.

(** The fields whose items are kept or dropped by a predicate alone. *)
Definition item_filters : list (jstring * (JVal -> bool)) :=
  [(str "quickInsights", quickInsight_ok);
   (str "marketDemand", marketDemand_ok);
   (str "careerPathInsights", careerPath_ok);
   (str "emergingTrends", trend_ok);
   (str "recommendedCourses", course_ok);
   (str "skillBasedBoosts", skillBoost_ok)].

Lemma field_of_validated (data d : JVal) (f : jstring) :
  validate_and_sanitize data = Ok d ->
  In f arrayFields ->
  exists d0 d1,
    is_object d0 = true /\ get d0 f = get data f
    /\ process_field d0 f = Ok d1 /\ get d f = get d1 f.
Proof.
  intros Hok Hin.
  destruct (validation_stages data d Hok)
    as (d1 & d2 & _ & _ & Hobj1 & Hf1 & Hfor & _ & _ & _ & _ & Hf3).
  destruct arrayFields_facts as (Hnodup & Hkeys & Hio & Hrange).
  destruct (forEach_field arrayFields d1 d2 f Hobj1 Hnodup Hkeys Hin Hfor)
    as (d0 & dr & Hobj0 & Hget & Hp & Hres).
  exists d0, dr. repeat split; try assumption.
  - rewrite Hget. apply Hf1. intros ->. contradiction.
  - rewrite <- Hres. apply Hf3. intros ->. contradiction.
Qed.

Lemma validate_items_filter (f : jstring) (ok : JVal -> bool)
      (items : list JVal) :
  In (f, ok) item_filters ->
  validate_items f items = Ok (Some (JArr (filter ok items) []))
  /\ In f arrayFields.
Proof.
  intros Hin. cbn [item_filters In] in Hin.
  repeat (destruct Hin as [[= <- <-]|Hin];
          [split; [reflexivity|vm_compute; tauto]|]).
  destruct Hin.
Qed.

(** X16: when the validation step returns, each of the fields
    [quickInsights], [marketDemand], [careerPathInsights],
    [emergingTrends], [recommendedCourses] and [skillBasedBoosts] that
    was an array holds exactly the items of the input array that pass
    the field's test, in their original order. *)
Theorem X16_filtered_fields_keep_passing_items
        (data d : JVal) (f : jstring) (ok : JVal -> bool)
        (items : list JVal) (ps : list (jstring * JVal)) :
  In (f, ok) item_filters ->
  get data f = Some (JArr items ps) ->
  validate_and_sanitize data = Ok d ->
  get d f = Some (JArr (filter ok items) []).
Proof.
  intros Hin Hget Hok.
  destruct (validate_items_filter f ok items Hin) as [Hitems Hfield].
  destruct (field_of_validated data d f Hok Hfield)
    as (d0 & d1 & Hobj0 & Hget0 & Hp & Hres).
  rewrite Hres. rewrite Hget in Hget0.
  unfold process_field in Hp. rewrite Hget0, Hitems in Hp.
  cbn [bind] in Hp. rewrite set_put in Hp by assumption.
  injection Hp as <-. now apply get_put_same.
Qed.

Definition sample_demand : JVal :=
  JObj [(str "marketDemand",
         JArr [JObj [(str "skill", JStr (str "Go"));
                     (str "demandScore", JInt 9)];
               JObj [(str "skill", JStr []);
                     (str "demandScore", JInt 1)];
               JInt 7;
               JObj [(str "skill", JStr (str "Rust"));
                     (str "demandScore", JStr (str "high"))]] []);
        (str "topSkills", JArr [JInt 1; JNull] []);
        (str "emergingTrends", JStr (str "none"))].

Definition sample_demand_validated : JVal :=
  Eval vm_compute in
    match validate_and_sanitize sample_demand with
    | Ok d => d
    | Throw _ => JNull
    end.

Lemma X16_witness :
  get sample_demand_validated (str "marketDemand")
  = Some (JArr (filter marketDemand_ok
                  [JObj [(str "skill", JStr (str "Go"));
                         (str "demandScore", JInt 9)];
                   JObj [(str "skill", JStr []);
                         (str "demandScore", JInt 1)];
                   JInt 7;
                   JObj [(str "skill", JStr (str "Rust"));
                         (str "demandScore", JStr (str "high"))]]) []).
Proof.
  apply (X16_filtered_fields_keep_passing_items sample_demand
           sample_demand_validated (str "marketDemand") marketDemand_ok
           _ []).
  - right. left. reflexivity.
  - reflexivity.
  - vm_compute. reflexivity.
Defined.

Lemma validate_items_passes (f : jstring) (items : list JVal) :
  In f [str "topSkills"; str "nextActions"] ->
  validate_items f items = Ok None /\ In f arrayFields.
Proof.
  intros Hin. cbn [In] in Hin.
  repeat (destruct Hin as [<-|Hin];
          [split; [reflexivity|vm_compute; tauto]|]).
  destruct Hin.
Qed.

(** X17: when the validation step returns, every one of the ten array
    fields that was not an array (absent, [null], a string, an object)
    holds the empty array, and [topSkills] and [nextActions], when they
    were arrays, are returned as they were, unfiltered. *)
Theorem X17_missing_arrays_made_empty_others_passed
        (data d : JVal) :
  validate_and_sanitize data = Ok d ->
  (forall f, In f arrayFields -> isArray (get data f) = false ->
             get d f = Some empty_array)
  /\ (forall f, In f [str "topSkills"; str "nextActions"] ->
                isArray (get data f) = true -> get d f = get data f).
Proof.
  intros Hok. split.
  - intros f Hin Harr.
    destruct (field_of_validated data d f Hok Hin)
      as (d0 & d1 & Hobj0 & Hget0 & Hp & Hres).
    rewrite Hres. unfold process_field in Hp. rewrite Hget0 in Hp.
    destruct (get data f) as [[| | | |items ps|]|]; try discriminate Harr;
      rewrite set_put in Hp by assumption; injection Hp as <-;
      now apply get_put_same.
  - intros f Hin Harr.
    destruct (validate_items_passes f [] Hin) as [_ Hfield].
    destruct (field_of_validated data d f Hok Hfield)
      as (d0 & d1 & Hobj0 & Hget0 & Hp & Hres).
    rewrite Hres. unfold process_field in Hp. rewrite Hget0 in Hp.
    destruct (get data f) as [[| | | |items ps|]|] eqn:E;
      try discriminate Harr.
    destruct (validate_items_passes f items Hin) as [Hitems _].
    rewrite Hitems in Hp. cbn [bind] in Hp. injection Hp as <-.
    exact Hget0.
Qed.

Lemma X17_witness :
  (forall f, In f arrayFields -> isArray (get sample_demand f) = false ->
             get sample_demand_validated f = Some empty_array)
  /\ (forall f, In f [str "topSkills"; str "nextActions"] ->
                isArray (get sample_demand f) = true ->
                get sample_demand_validated f = get sample_demand f).
Proof.
  apply (X17_missing_arrays_made_empty_others_passed sample_demand
           sample_demand_validated).
  vm_compute. reflexivity.
Defined.

(** A validated company next to the input company it comes from. *)
Definition company_validated (company company' : JVal) : Prop :=
  (forall k, k <> str "roles" -> get company' k = get company k)
  /\ exists roles',
       get company' (str "roles") = Some (JArr roles' [])
       /\ Forall (fun r => typeof (Some r) = TString) roles'
       /\ match get company (str "roles") with
          | Some (JArr roles _) =>
              Forall2 (fun r r' => role_text r = Ok r') roles roles'
          | _ => roles' = []
          end.

Lemma role_texts (roles texts : list JVal) :
  sequence (map role_text roles) = Ok texts ->
  Forall2 (fun r r' => role_text r = Ok r') roles texts
  /\ Forall (fun r => typeof (Some r) = TString) texts.
Proof.
  revert texts. induction roles as [|r roles IH]; intros texts;
    cbn [map sequence bind].
  - intros [= <-]. split; constructor.
  - pose proof (role_text_spec r) as Hr.
    destruct (role_text r) as [t|e] eqn:E; [|discriminate].
    destruct (sequence (map role_text roles)) as [ts|e]; [|discriminate].
    intros [= <-]. destruct (IH ts eq_refl) as [H1 H2].
    destruct Hr as [s ->]. split; constructor; auto.
Qed.

Lemma fix_company_validated (company company' : JVal) :
  is_object company = true ->
  fix_company company = Ok company' ->
  company_validated company company'.
Proof.
  intros Hobj. unfold fix_company, company_validated.
  destruct (get company (str "roles")) as [[| | | |roles ps|]|] eqn:E;
    try (rewrite set_put by assumption; intros [= <-]; split;
         [intros k Hk; apply get_put_other; congruence|];
         exists []; rewrite get_put_same by assumption;
         split; [reflexivity|split; [constructor|reflexivity]]).
  destruct (sequence (map role_text roles)) as [texts|e] eqn:Hseq;
    cbn [bind]; [|discriminate].
  rewrite set_put by assumption. intros [= <-]. split.
  - intros k Hk. apply get_put_other. congruence.
  - exists texts. rewrite get_put_same by assumption.
    destruct (role_texts roles texts Hseq). auto.
Qed.

Lemma fix_companies_validated (items companies : list JVal) :
  sequence (map fix_company (filter company_ok items)) = Ok companies ->
  Forall2 company_validated (filter company_ok items) companies.
Proof.
  assert (Hall : forall c, In c (filter company_ok items) ->
                           is_object c = true).
  { intros c Hin. apply filter_In in Hin as [_ Hc]. unfold company_ok in Hc.
    now apply andb_true_iff in Hc as [Hc _]. }
  revert companies.
  induction (filter company_ok items) as [|c cs IH]; intros companies;
    cbn [map sequence bind].
  - intros [= <-]. constructor.
  - destruct (fix_company c) as [c'|e] eqn:E; [|discriminate].
    destruct (sequence (map fix_company cs)) as [cs'|e]; [|discriminate].
    intros [= <-]. constructor.
    + apply fix_company_validated; [apply Hall; now left|assumption].
    + apply IH; [|reflexivity]. intros x Hx. apply Hall. now right.
Qed.

(** X18: when the validation step returns and [topCompanies] was an
    array, the field holds, in their original order, the items that are
    objects with a truthy [name]; each is unchanged except for [roles],
    which is an array of strings: the text of each input role, in order,
    or the empty array when the input [roles] was not an array. *)
Theorem X18_topCompanies_roles_are_strings
        (data d : JVal) (items : list JVal) (ps : list (jstring * JVal)) :
  get data (str "topCompanies") = Some (JArr items ps) ->
  validate_and_sanitize data = Ok d ->
  exists companies,
    get d (str "topCompanies") = Some (JArr companies [])
    /\ Forall2 company_validated (filter company_ok items) companies.
Proof.
  intros Hget Hok.
  assert (Hfield : In (str "topCompanies") arrayFields)
    by (vm_compute; tauto).
  destruct (field_of_validated data d _ Hok Hfield)
    as (d0 & d1 & Hobj0 & Hget0 & Hp & Hres).
  rewrite Hres. rewrite Hget in Hget0.
  unfold process_field in Hp. rewrite Hget0 in Hp.
  change (validate_items (str "topCompanies") items)
    with (do companies <- sequence (map fix_company
                                        (filter company_ok items));
          Ok (Some (JArr companies []))) in Hp.
  destruct (sequence (map fix_company (filter company_ok items)))
    as [companies|e] eqn:Hseq; [|discriminate].
  cbn [bind] in Hp. rewrite set_put in Hp by assumption.
  injection Hp as <-. exists companies. split.
  - now apply get_put_same.
  - now apply fix_companies_validated.
Qed.

Definition sample_companies : JVal :=
  JObj [(str "topCompanies",
         JArr [JObj [(str "name", JStr (str "Acme"));
                     (str "roles",
                      JArr [JStr (str "Dev");
                            JObj [(str "title", JStr (str "SRE"))];
                            JInt 7; JNull] [])];
               JObj [(str "roles", JArr [] [])];
               JObj [(str "name", JStr (str "Initech"));
                     (str "roles", JStr (str "many"))]] [])].

Definition sample_companies_validated : JVal :=
  Eval vm_compute in
    match validate_and_sanitize sample_companies with
    | Ok d => d
    | Throw _ => JNull
    end.

Lemma X18_witness :
  exists companies,
    get sample_companies_validated (str "topCompanies")
    = Some (JArr companies [])
    /\ Forall2 company_validated
         (filter company_ok
            [JObj [(str "name", JStr (str "Acme"));
                   (str "roles",
                    JArr [JStr (str "Dev");
                          JObj [(str "title", JStr (str "SRE"))];
                          JInt 7; JNull] [])];
             JObj [(str "roles", JArr [] [])];
             JObj [(str "name", JStr (str "Initech"));
                   (str "roles", JStr (str "many"))]])
         companies.
Proof.
  apply (X18_topCompanies_roles_are_strings sample_companies
           sample_companies_validated _ []).
  - reflexivity.
  - vm_compute. reflexivity.
Defined.

Example sample_companies_text :
  option_map stringify (get sample_companies_validated (str "topCompanies"))
  = Some (lit "[{~name~:~Acme~,~roles~:[~Dev~,~SRE~,~7~,~null~]},{~name~:~Initech~,~roles~:[]}]").
Proof. vm_compute. reflexivity. Qed.

(** ** The overview text: whitespace after cleaning *)

(** The greedy star over a character class, followed by a continuation
    that accepts whatever is left: the whole run is consumed. *)
Lemma rmatch_ws {A : Type} (s : jstring) (cs : captures)
      (k : jstring -> captures -> option A) :
  (forall s', k s' cs <> None) ->
  rmatch ws s cs k = k (trim_start s) cs.
Proof.
  intros Hk. unfold ws. cbn [rmatch].
  assert (H : length s < S (length s)) by lia. revert H.
  generalize (S (length s)). intros n. revert s.
  induction n as [|n IH]; intros s H; [lia|].
  destruct s as [|c s']; [reflexivity|].
  cbn [trim_start]. destruct (is_space c) eqn:Ec; [|reflexivity].
  cbn [length] in *.
  destruct (Nat.ltb_spec (length s') (S (length s'))) as [_|?]; [|lia].
  rewrite IH by lia.
  destruct (k (trim_start s') cs) eqn:E; [reflexivity|].
  now elim (Hk (trim_start s')).
Qed.

Lemma trim_start_length (s : jstring) : length (trim_start s) <= length s.
Proof.
  induction s as [|c s IH]; cbn [trim_start length]; [lia|].
  destruct (is_space c); cbn [length]; lia.
Qed.

(** A run of whitespace at the head of the text is matched whole. *)
Lemma match_here_spaces (s : jstring) :
  match_here (Plus (Chr is_space)) s
  = match s with
    | c :: s' =>
        if is_space c
        then Some (firstn (length s - length (trim_start s')) s,
                   trim_start s', [])
        else None
    | [] => None
    end.
Proof.
  unfold match_here, Plus.
  destruct s as [|c s']; [reflexivity|].
  change (rmatch (Seq (Chr is_space) (Star (Chr is_space))) (c :: s') []
            (fun s'0 cs =>
               Some (firstn (length (c :: s') - length s'0) (c :: s'),
                     s'0, cs)))
    with (if is_space c
          then rmatch ws s' []
                 (fun s'0 cs =>
                    Some (firstn (length (c :: s') - length s'0) (c :: s'),
                          s'0, cs))
          else None).
  destruct (is_space c); [|reflexivity].
  now rewrite rmatch_ws by discriminate.
Qed.

Definition head_space (t : jstring) : bool :=
  match t with
  | c :: _ => is_space c
  | [] => false
  end.

(** Every whitespace character is a plain space, and is followed by a
    character that is not whitespace, or by nothing. *)
Fixpoint single_spaced (t : jstring) : bool :=
  match t with
  | [] => true
  | c :: t' =>
      (if is_space c then N.eqb c 32 && negb (head_space t') else true)
      && single_spaced t'
  end.

Lemma head_space_trim_start (s : jstring) : head_space (trim_start s) = false.
Proof.
  induction s as [|c s IH]; [reflexivity|]. cbn [trim_start].
  destruct (is_space c) eqn:E; [exact IH|]. cbn [head_space]. exact E.
Qed.

Lemma collapse_spaces (fuel : nat) (s : jstring) :
  length s <= fuel ->
  single_spaced (replace_from fuel (Plus (Chr is_space))
                              (const_repl (str " ")) s) = true
  /\ head_space (replace_from fuel (Plus (Chr is_space))
                              (const_repl (str " ")) s)
     = head_space s.
Proof.
  revert s. induction fuel as [|fuel IH]; intros s Hlen.
  - destruct s; [split; reflexivity|cbn in Hlen; lia].
  - cbn [replace_from]. rewrite match_here_spaces.
    destruct s as [|c s']; [split; reflexivity|].
    cbn [length] in Hlen.
    destruct (is_space c) eqn:Ec.
    + pose proof (trim_start_length s') as Hle.
      replace (length (c :: s') - length (trim_start s'))
        with (S (length s' - length (trim_start s')))
        by (cbn [length]; lia).
      cbn [firstn]. unfold const_repl at 1.
      change (str " " ++ ?x) with (32%N :: x).
      destruct (IH (trim_start s') ltac:(lia)) as [H1 H2].
      rewrite head_space_trim_start in H2.
      split.
      * cbn [single_spaced]. change (is_space 32%N) with true. cbv iota.
        rewrite H2, H1. reflexivity.
      * cbn [head_space]. now rewrite Ec.
    + destruct (IH s' ltac:(lia)) as [H1 H2]. split.
      * cbn [single_spaced]. now rewrite Ec, H1.
      * cbn [head_space]. reflexivity.
Qed.

Lemma trim_start_suffix (s : jstring) :
  exists a, s = a ++ trim_start s /\ Forall (fun c => is_space c = true) a.
Proof.
  induction s as [|c s (a & E & Ha)]; [exists []; split; [reflexivity|constructor]|].
  cbn [trim_start]. destruct (is_space c) eqn:Ec.
  - exists (c :: a). split; [cbn [app]; now rewrite <- E|now constructor].
  - exists []. split; [reflexivity|constructor].
Qed.

Lemma single_spaced_app (p q : jstring) :
  single_spaced (p ++ q) = true ->
  single_spaced p = true /\ single_spaced q = true.
Proof.
  induction p as [|c p IH]; cbn [app single_spaced]; [auto|].
  intros H. apply andb_true_iff in H. destruct H as [Hc Hrest].
  destruct (IH Hrest) as [Hp Hq]. split; [|assumption].
  rewrite Hp, andb_true_r.
  destruct (is_space c); [|reflexivity].
  apply andb_true_iff in Hc. destruct Hc as [-> Hnext]. cbn [andb].
  destruct p; [reflexivity|exact Hnext].
Qed.

Lemma single_spaced_spaces (t : jstring) (c : char) :
  single_spaced t = true -> In c t -> is_space c = true -> c = 32%N.
Proof.
  induction t as [|x t IH]; cbn [single_spaced In]; [intros _ []|].
  intros H [->|Hin] Hc.
  - rewrite Hc in H. apply andb_true_iff in H. destruct H as [H _].
    apply andb_true_iff in H. destruct H as [H _]. now apply N.eqb_eq in H.
  - apply andb_true_iff in H. destruct H as [_ H]. now apply IH.
Qed.

(** What [trim] returns: the text between the leading and the trailing
    whitespace. *)
Lemma trim_spec (u : jstring) :
  exists a b,
    u = a ++ trim u ++ b
    /\ head_space (trim u) = false /\ head_space (rev (trim u)) = false.
Proof.
  unfold trim.
  destruct (trim_start_suffix u) as (a & Ea & _).
  destruct (trim_start_suffix (rev (trim_start u))) as (b & Eb & _).
  exists a, (rev b). split; [|split].
  - rewrite Ea at 1. f_equal.
    rewrite <- (rev_involutive (trim_start u)) at 1.
    rewrite Eb at 1. now rewrite rev_app_distr.
  - pose proof (head_space_trim_start u) as Hu.
    rewrite <- (rev_involutive (trim_start u)) in Hu.
    rewrite Eb, rev_app_distr in Hu.
    destruct (rev (trim_start (rev (trim_start u)))); [reflexivity|exact Hu].
  - rewrite rev_involutive. apply head_space_trim_start.
Qed.

(** X19: the overview text that the validation step stores is in a
    normal form: every whitespace character in it is a plain space, no
    two spaces are adjacent, and it neither starts nor ends with a
    space; in particular it holds no line break, although the first
    rewrite turns escaped line breaks into real ones. *)
Theorem X19_overview_whitespace_normalised (s : jstring) :
  single_spaced (clean_overview s) = true
  /\ head_space (clean_overview s) = false
  /\ head_space (rev (clean_overview s)) = false
  /\ ~ In 10%N (clean_overview s).
Proof.
  unfold clean_overview.
  set (t := replace_all (Lit [92; 34]%N) (const_repl [34%N])
              (replace_all (Lit [92; 110]%N) (const_repl [10%N]) s)).
  set (w := replace_all (Plus (Chr is_space)) (const_repl (str " ")) t).
  assert (Hw : single_spaced w = true).
  { subst w. unfold replace_all. apply collapse_spaces. lia. }
  destruct (trim_spec w) as (a & b & E & Hhead & Hlast).
  assert (Ht : single_spaced (trim w) = true).
  { rewrite E in Hw. apply single_spaced_app in Hw. destruct Hw as [_ Hw].
    now apply single_spaced_app in Hw. }
  repeat split; try assumption.
  intros Hin. pose proof (single_spaced_spaces _ _ Ht Hin eq_refl) as H.
  discriminate H.
Qed.

Example clean_overview_sample :
  clean_overview (str "  Growth\nis strong,		and  demand \n\n stays high. \n")
  = str "Growth is strong, and demand stays high.".
Proof. vm_compute. reflexivity. Qed.

(** ** The controller: postal codes and regions

    [getIndianRegionFromZipCode] and the test the controller makes before
    calling it, for a postal code that is a string. *)

(** [regex.test(s)] for a pattern that starts with the anchor [^]: the
    match is tried at the start of the text only. *)
Definition test_from_start (r : regex) (s : jstring) : bool :=
  match match_here r s with
  | Some _ => true
  | None => false
  end.

(** [/^[1-9][0-9]{5}$/] (written with [\d] in [generateInsights]). *)
Definition isIndianZipCode (zipCode : jstring) : bool :=
  test_from_start
    (seq [Chr (fun c => N.leb 49 c && N.leb c 57);
          Chr is_digit; Chr is_digit; Chr is_digit; Chr is_digit;
          Chr is_digit; Eos])
    zipCode.

Definition regionMap : list (jstring * jstring) :=
  [(str "1", str "Delhi, Haryana, Punjab");
   (str "2", str "Uttar Pradesh, Uttarakhand");
   (str "3", str "Rajasthan, Gujarat");
   (str "4", str "Maharashtra, Goa");
   (str "5", str "Andhra Pradesh, Telangana, Karnataka");
   (str "6", str "Tamil Nadu, Kerala");
   (str "7", str "West Bengal, Orissa");
   (str "8", str "North Eastern States");
   (str "9", str "Bihar, Jharkhand")].

Fixpoint region_of (k : jstring) (m : list (jstring * jstring))
  : option jstring :=
  match m with
  | [] => None
  | (k', r) :: m' => if jstr_eqb k k' then Some r else region_of k m'
  end.

Definition getIndianRegionFromZipCode (zipCode : jstring) : jstring :=
  let firstDigit := firstn 1 zipCode in
  match region_of firstDigit regionMap with
  | Some (c :: region) => c :: region
  | _ => str "Unknown Region"
  end.

Lemma isIndianZipCode_shape (zipCode : jstring) :
  isIndianZipCode zipCode = true
  <-> exists d rest,
        zipCode = d :: rest
        /\ (49 <= d <= 57)%N
        /\ length rest = 5 /\ Forall (fun c => is_digit c = true) rest.
Proof.
  unfold isIndianZipCode, test_from_start, match_here. cbn [seq rmatch].
  split.
  - intros H.
    destruct zipCode as [|d [|c1 [|c2 [|c3 [|c4 [|c5 [|c6 rest]]]]]]];
      cbv beta iota in H;
      repeat match type of H with
             | context [if ?b then _ else _] =>
                 lazymatch type of b with
                 | bool => destruct b eqn:?; cbv beta iota in H;
                           try discriminate H
                 end
             end; try discriminate H.
    exists d, [c1; c2; c3; c4; c5].
    repeat split; try reflexivity;
      repeat match goal with
             | H : (_ && _) = true |- _ =>
                 apply andb_true_iff in H; destruct H
             | H : N.leb _ _ = true |- _ => apply N.leb_le in H
             end; try lia.
    repeat constructor; assumption.
  - intros (d & rest & -> & Hd & Hlen & Hall).
    destruct rest as [|c1 [|c2 [|c3 [|c4 [|c5 [|c6 rest]]]]]];
      try discriminate Hlen.
    repeat match goal with
           | H : Forall _ (_ :: _) |- _ => inversion H; clear H; subst
           end.
    replace (N.leb 49 d && N.leb d 57) with true
      by (symmetry; apply andb_true_iff; split; apply N.leb_le; lia).
    repeat match goal with
           | H : is_digit _ = true |- _ => rewrite H; clear H
           end.
    reflexivity.
Qed.



Example region_samples :
  map getIndianRegionFromZipCode [str "560001"; str "90210"; str ""; str "x1"]
  = [str "Andhra Pradesh, Telangana, Karnataka"; str "Bihar, Jharkhand";
     str "Unknown Region"; str "Unknown Region"].
Proof. vm_compute. reflexivity. Qed.

(** ** The controller: the answer to a comparison request

    The part of [generateComparisonData] that follows the call of
    [generateComparisonInsights]: the checks on the data returned, the
    repair of [rolesSalaries], and the response sent. *)

(** *** ToNumber *)

Definition digit_in (base : N) (c : char) : option N :=
  match hex_val c with
  | Some v => if N.ltb v base then Some v else None
  | None => None
  end.

Fixpoint digits_in (base : N) (s : jstring) (acc : N) : option N :=
  match s with
  | [] => Some acc
  | c :: s' =>
      match digit_in base c with
      | Some v => digits_in base s' (acc * base + v)%N
      | None => None
      end
  end.

(** [0x], [0o] and [0b] literals. *)
Definition non_decimal (t : jstring) : option N :=
  match t with
  | 48%N :: x :: d :: ds =>
      if one_of [120; 88]%N x then digits_in 16 (d :: ds) 0
      else if one_of [111; 79]%N x then digits_in 8 (d :: ds) 0
      else if one_of [98; 66]%N x then digits_in 2 (d :: ds) 0
      else None
  | _ => None
  end.

(** The exponent part, when the rest of the literal is one. *)
Definition exponent_part (r : jstring) : option Z :=
  match r with
  | [] => Some 0%Z
  | e :: r' =>
      if one_of [101; 69]%N e then
        let (neg, r2) :=
          match r' with
          | c :: x => if N.eqb c 43 then (false, x)
                      else if N.eqb c 45 then (true, x)
                      else (false, r')
          | [] => (false, r')
          end in
        match span_digits r2 with
        | (d :: ds, []) =>
            let n := Z.of_N (digits_value (d :: ds)) in
            Some (if neg then (- n)%Z else n)
        | _ => None
        end
      else None
  end.

(** StrUnsignedDecimalLiteral. *)
Definition unsigned_decimal (r : jstring) : option number :=
  if jstr_eqb r (str "Infinity") then Some (Inf false)
  else
    let (i, r1) := span_digits r in
    match r1 with
    | c :: r2 =>
        if N.eqb c 46 then
          let (f, r3) := span_digits r2 in
          match i ++ f with
          | [] => None
          | _ :: _ =>
              option_map
                (fun e => decimal (Z.of_N (digits_value (i ++ f)))
                                  (e - Z.of_nat (length f)))
                (exponent_part r3)
          end
        else
          match i with
          | [] => None
          | _ :: _ =>
              option_map (decimal (Z.of_N (digits_value i)))
                         (exponent_part r1)
          end
    | [] =>
        match i with
        | [] => None
        | _ :: _ => Some (decimal (Z.of_N (digits_value i)) 0)
        end
    end.

Definition negate (x : number) : number :=
  match x with
  | NaN => NaN
  | Inf b => Inf (negb b)
  | Dec m d => Dec (- m) d
  end.

(** StringToNumber: the value of a StringNumericLiteral, [NaN] when the
    text is none. *)
Definition string_to_number (s : jstring) : number :=
  match trim s with
  | [] => Dec 0 0
  | c :: t =>
      match non_decimal (c :: t) with
      | Some n => Dec (Z.of_N n) 0
      | None =>
          if N.eqb c 43 then default NaN (unsigned_decimal t)
          else if N.eqb c 45 then negate (default NaN (unsigned_decimal t))
          else default NaN (unsigned_decimal (c :: t))
      end
  end.

Example string_to_number_samples :
  map string_to_number
      [str " 42 "; str ""; str "-1.50"; str "0x1F"; str "1e3"; str ".5";
       str "5."; str "-Infinity"; str "12px"; str "-0x10"; str "."; str "1e";
       str "+7"; str "0b101"]
  = [Dec 42 0; Dec 0 0; Dec (-15) 1; Dec 31 0; Dec 1000 0; Dec 5 1; Dec 5 0;
     Inf true; NaN; NaN; NaN; NaN; Dec 7 0; Dec 5 0].
Proof. vm_compute. reflexivity. Qed.

(** ToNumber; an object or array is first converted to a primitive, which
    for the values of the model is the text [String] gives. *)
Definition to_number (v : JVal) : result number :=
  match v with
  | JNull => Ok (Dec 0 0)
  | JBool b => Ok (Dec (if b then 1 else 0) 0)
  | JNum x => Ok x
  | JStr s => Ok (string_to_number s)
  | JArr _ _ | JObj _ => do s <- ToString v; Ok (string_to_number s)
  end.

(** [x > 0]; [undefined] is [None]. *)
Definition greater_than_zero (o : option JVal) : result bool :=
  match o with
  | None => Ok false
  | Some v =>
      do x <- to_number v;
      Ok match x with
         | NaN => false
         | Inf negative => negb negative
         | Dec m _ => Z.ltb 0 m
         end
  end.

(** *** Optional chaining *)

(** [o?.k] *)
Definition chain (o : option JVal) (k : jstring) : option JVal :=
  match o with
  | None | Some JNull => None
  | Some v => get v k
  end.

(** [o?.length] *)
Definition length_of (o : option JVal) : option JVal :=
  match o with
  | Some (JArr es _) => Some (JInt (Z.of_nat (length es)))
  | Some (JStr s) => Some (JInt (Z.of_nat (length s)))
  | Some (JObj l) => lookup (str "length") l
  | _ => None
  end.

(** [a && b] as a value. *)
Definition and_value (a b : option JVal) : option JVal :=
  if truthy_opt a then b else a.

(** [comparisonData.countrySalaryComparison?.[key]?.topCities?.length > 0] *)
Definition has_cities (data : JVal) (key : jstring) : result bool :=
  greater_than_zero
    (length_of
       (chain (chain (get data (str "countrySalaryComparison")) key)
              (str "topCities"))).

(** *** The repair of rolesSalaries *)

(** The text a template literal gives a value. *)
Definition template_text (o : option JVal) : result jstring :=
  match o with
  | None => Ok (str "undefined")
  | Some v => ToString v
  end.

(** The [forEach] callback: the city as it leaves it, and whether its
    [rolesSalaries] was an array. *)
Definition repair_city (city : JVal) : result (JVal * bool) :=
  do rolesSalaries <- read city (str "rolesSalaries");
  if isArray rolesSalaries then Ok (city, true)
  else
    do name <- read city (str "city");
    do warning <- template_text name;
    do city' <- set city (str "rolesSalaries") empty_array;
    Ok (city', false).

Fixpoint repair_cities (cities : list JVal) (valid : bool)
  : result (list JVal * bool) :=
  match cities with
  | [] => Ok ([], valid)
  | city :: rest =>
      do r <- repair_city city;
      do rs <- repair_cities rest (valid && snd r);
      Ok (fst r :: fst rs, snd rs)
  end.

Definition not_iterable (key : jstring) : exn :=
  MkExn TypeErrorK
    (str "comparisonData.countrySalaryComparison." ++ key
     ++ str ".topCities.forEach is not a function").

Definition undefined_access_error : exn :=
  MkExn TypeErrorK (str "Cannot read properties of undefined").

(** [o.k] where [o] may be [undefined] or [null]. *)
Definition read_in (o : option JVal) (k : jstring) : result (option JVal) :=
  match o with
  | None => Throw undefined_access_error
  | Some v => read v k
  end.

(** [comparisonData.countrySalaryComparison[key].topCities.forEach(...)]:
    the data with the cities as the callback leaves them, and the flag
    [rolesSalariesValid]. *)
Definition repair_country (key : jstring) (data : JVal) (valid : bool)
  : result (JVal * bool) :=
  do comparison <- read data (str "countrySalaryComparison");
  do country <- read_in comparison key;
  do topCities <- read_in country (str "topCities");
  match comparison, country, topCities with
  | Some comparison, Some country, Some (JArr cities ps) =>
      match lookup (str "forEach") ps with
      | Some _ => Throw (not_iterable key)
      | None =>
          do r <- repair_cities cities valid;
          Ok (put data (str "countrySalaryComparison")
                  (put comparison key
                       (put country (str "topCities") (JArr (fst r) ps))),
              snd r)
      end
  | _, _, None => Throw undefined_access_error
  | _, _, Some JNull => Throw null_access_error
  | _, _, _ => Throw (not_iterable key)
  end.

(** *** The response *)

Record response : Type := MkResponse { status : nat; body : JVal }.

(** The own enumerable properties an object spread copies. *)
Definition indexed (l : list JVal) : list (jstring * JVal) :=
  combine (map nat_to_string (List.seq 0 (length l))) l.

Definition spread (v : JVal) : list (jstring * JVal) :=
  match v with
  | JObj l => l
  | JArr es ps => indexed es ++ ps
  | JStr s => indexed (map (fun c => JStr [c]) s)
  | _ => []
  end.

Definition flag (name : string) (b : bool) : jstring * JVal :=
  (str name, JBool b).

(** The [_meta] of a partial answer; a property whose value is
    [undefined] is not sent, and is left out. *)
Definition partial_meta (hasCurrent hasTarget : bool) (hasRole : option JVal)
           (hasSalary valid : bool) : JVal :=
  JObj ([(str "status", JStr (str "partial"));
         (str "message",
          JStr (str "Some data could not be generated. The available data is displayed below."));
         flag "hasCurrentCountryData" hasCurrent;
         flag "hasTargetCountryData" hasTarget]
        ++ match hasRole with
           | Some v => [(str "hasRoleComparisonData", v)]
           | None => []
           end
        ++ [flag "hasSalaryExpectationAnalysis" hasSalary;
            flag "rolesSalariesValid" valid]).

Section ComparisonResponse.

(** [error.stack], which the engine writes. *)
Variable stack : exn -> jstring.

Definition failure (e : exn) : response :=
  MkResponse 500
    (JObj [(str "message",
            JStr (str "Failed to generate comparison data from Gemini AI"));
           (str "error", JStr (message e));
           (str "errorDetails", JStr (stack e))]).

(** The statements between the checks of the data and the answer. *)
Definition answer (comparisonData : JVal) : result response :=
  do hasCurrent <- has_cities comparisonData (str "currentCountry");
  do hasTarget <- has_cities comparisonData (str "targetCountry");
  let hasRole :=
    and_value (chain (get comparisonData (str "roleComparison"))
                     (str "currentRole"))
              (chain (get comparisonData (str "roleComparison"))
                     (str "targetRole")) in
  let hasSalary :=
    truthy_opt (get comparisonData (str "salaryExpectationAnalysis")) in
  do r1 <- (if hasCurrent
            then repair_country (str "currentCountry") comparisonData true
            else Ok (comparisonData, true));
  do r2 <- (if hasTarget
            then repair_country (str "targetCountry") (fst r1) (snd r1)
            else Ok r1);
  let comparisonData := fst r2 in
  let valid := snd r2 in
  let isFallbackResponse :=
    (negb hasCurrent && negb hasTarget)
    || negb (truthy_opt hasRole)
    || negb hasSalary
    || negb valid
    || match chain (get comparisonData (str "_meta")) (str "isComplete") with
       | Some (JBool false) => true
       | _ => false
       end in
  if isFallbackResponse
  then Ok (MkResponse 207
             (JObj (assign (str "_meta")
                           (partial_meta hasCurrent hasTarget hasRole
                                         hasSalary valid)
                           (spread comparisonData))))
  else Ok (MkResponse 200 comparisonData).

(** The answer to the request, given how the call of
    [generateComparisonInsights] ended. *)
Definition comparison_response (outcome : result JVal) : response :=
  match outcome with
  | Throw e => failure e
  | Ok comparisonData =>
      if negb (truthy comparisonData)
      then MkResponse 500
             (JObj [(str "message",
                     JStr (str "Failed to generate comparison data: Empty response from AI service"))])
      else
        match answer comparisonData with
        | Ok r => r
        | Throw e => failure e
        end
  end.

End ComparisonResponse.

(** *** Facts about the repair *)

Lemma read_object (v : JVal) (k : jstring) :
  is_object v = true -> read v k = Ok (get v k).
Proof.
  intros H. destruct (is_object_cases v H) as [[l ->]|[es [ps ->]]];
    reflexivity.
Qed.

Lemma repair_city_ready (city : JVal) :
  city_ready city -> repair_city city = Ok (city, true).
Proof.
  intros [Hobj Harr]. unfold repair_city.
  rewrite read_object by assumption. cbn [bind]. now rewrite Harr.
Qed.

Lemma repair_cities_ready (cities : list JVal) (valid : bool) :
  Forall city_ready cities -> repair_cities cities valid = Ok (cities, valid).
Proof.
  intros H. revert valid. induction H as [|c cs Hc _ IH]; intros valid;
    cbn [repair_cities]; [reflexivity|].
  rewrite (repair_city_ready c Hc). cbn [bind snd fst].
  rewrite andb_true_r, IH. reflexivity.
Qed.

(** A city that is not repaired was in order. *)
Lemma repair_city_valid (city city' : JVal) :
  repair_city city = Ok (city', true) -> city' = city.
Proof.
  unfold repair_city.
  destruct (read city (str "rolesSalaries")) as [o|e]; [|discriminate].
  cbn [bind]. destruct (isArray o); [now intros [= <-]|].
  destruct (read city (str "city")) as [n|e]; [|discriminate]. cbn [bind].
  destruct (template_text n); [|discriminate]. cbn [bind].
  destruct (set city (str "rolesSalaries") empty_array); discriminate.
Qed.

Lemma repair_cities_flag (cities cities' : list JVal) (valid valid' : bool) :
  repair_cities cities valid = Ok (cities', valid') ->
  valid' = true -> valid = true /\ cities' = cities.
Proof.
  revert cities' valid valid'.
  induction cities as [|c cs IH]; intros cities' valid valid';
    cbn [repair_cities].
  - intros [= <- <-]. auto.
  - destruct (repair_city c) as [[c' ok]|e] eqn:Ec; [|discriminate].
    cbn [bind fst snd].
    destruct (repair_cities cs (valid && ok)) as [[cs' v]|e] eqn:Ecs;
      [|discriminate].
    cbn [bind fst snd]. intros [= <- <-] Hv.
    destruct (IH _ _ _ Ecs Hv) as [Hand ->].
    apply andb_true_iff in Hand. destruct Hand as [-> ->].
    split; [reflexivity|]. f_equal. now apply repair_city_valid.
Qed.

(** The repair writes below [countrySalaryComparison] only. *)
Lemma repair_country_frame (key : jstring) (data data' : JVal)
      (valid valid' : bool) (k : jstring) :
  repair_country key data valid = Ok (data', valid') ->
  k <> str "countrySalaryComparison" ->
  get data' k = get data k.
Proof.
  unfold repair_country.
  destruct (read data (str "countrySalaryComparison")) as [c|e];
    [|discriminate]. cbn [bind].
  destruct (read_in c key) as [country|e]; [|discriminate]. cbn [bind].
  destruct (read_in country (str "topCities")) as [t|e]; [|discriminate].
  cbn [bind].
  destruct c as [comparison|]; [|destruct t as [[]|]; discriminate].
  destruct country as [country|]; [|destruct t as [[]|]; discriminate].
  destruct t as [[| | | |cities ps|]|]; try discriminate.
  destruct (lookup (str "forEach") ps); [discriminate|].
  destruct (repair_cities cities valid) as [[cs v]|e]; [|discriminate].
  cbn [bind fst snd]. intros [= <- <-] Hk.
  apply get_put_other. intros E. apply Hk. now symmetry.
Qed.

(** A repair that finds every city in order changes nothing. *)
Lemma repair_country_valid (key : jstring) (data data' : JVal)
      (valid : bool) :
  repair_country key data valid = Ok (data', true) ->
  valid = true /\ data' = data.
Proof.
  unfold repair_country.
  destruct (read data (str "countrySalaryComparison")) as [c|e] eqn:Ec;
    [|discriminate]. cbn [bind].
  destruct (read_in c key) as [country|e] eqn:Ek; [|discriminate].
  cbn [bind].
  destruct (read_in country (str "topCities")) as [t|e] eqn:Et;
    [|discriminate].
  cbn [bind].
  destruct c as [comparison|]; [|destruct t as [[]|]; discriminate].
  destruct country as [country|]; [|destruct t as [[]|]; discriminate].
  destruct t as [[| | | |cities ps|]|]; try discriminate.
  destruct (lookup (str "forEach") ps); [discriminate|].
  destruct (repair_cities cities valid) as [[cs v]|e] eqn:Ecs; [|discriminate].
  cbn [bind fst snd]. intros [= <- ->].
  destruct (repair_cities_flag _ _ _ _ Ecs eq_refl) as [-> ->].
  split; [reflexivity|].
  assert (Hc : get data (str "countrySalaryComparison") = Some comparison)
    by (unfold read in Ec; destruct data; [discriminate|..];
        now injection Ec).
  assert (Hk : get comparison key = Some country)
    by (unfold read_in, read in Ek; destruct comparison; [discriminate|..];
        now injection Ek).
  assert (Ht : get country (str "topCities") = Some (JArr cities ps))
    by (unfold read_in, read in Et; destruct country; [discriminate|..];
        now injection Et).
  now rewrite (put_get_id _ _ _ Ht), (put_get_id _ _ _ Hk),
    (put_get_id _ _ _ Hc).
Qed.

Lemma repair_country_ready (key : jstring) (data comparison country : JVal)
      (cities : list JVal) (ps : list (jstring * JVal)) (valid : bool) :
  get data (str "countrySalaryComparison") = Some comparison ->
  get comparison key = Some country ->
  get country (str "topCities") = Some (JArr cities ps) ->
  lookup (str "forEach") ps = None ->
  Forall city_ready cities ->
  repair_country key data valid = Ok (data, valid).
Proof.
  intros Hc Hk Ht Hps Hall. unfold repair_country.
  rewrite (read_object data), Hc
    by (eapply get_some_is_object; eassumption).
  cbn [bind read_in].
  rewrite (read_object comparison), Hk
    by (eapply get_some_is_object; eassumption).
  cbn [bind read_in].
  rewrite (read_object country), Ht
    by (eapply get_some_is_object; eassumption).
  cbn [bind]. rewrite Hps, (repair_cities_ready _ _ Hall). cbn [bind fst snd].
  now rewrite (put_get_id _ _ _ Ht), (put_get_id _ _ _ Hk),
    (put_get_id _ _ _ Hc).
Qed.

Lemma chain_get (v : JVal) (k : jstring) (x : JVal) :
  get v k = Some x -> chain (Some v) k = Some x.
Proof. destruct v; try discriminate; auto. Qed.

Lemma has_cities_nonempty (data comparison country c : JVal) (key : jstring)
      (cs : list JVal) (ps : list (jstring * JVal)) :
  get data (str "countrySalaryComparison") = Some comparison ->
  get comparison key = Some country ->
  get country (str "topCities") = Some (JArr (c :: cs) ps) ->
  has_cities data key = Ok true.
Proof.
  intros Hc Hk Ht. unfold has_cities.
  rewrite Hc, (chain_get _ _ _ Hk), (chain_get _ _ _ Ht).
  cbn [length_of greater_than_zero to_number JInt bind length].
  now rewrite (proj2 (Z.ltb_lt 0 (Z.of_nat (S (length cs))))) by lia.
Qed.

Lemma json_get (v : JVal) (k : jstring) (x : JVal) :
  json_data v = true -> get v k = Some x -> json_data x = true.
Proof.
  destruct v as [| | | |es ps|l]; try discriminate; cbn [json_data get].
  - intros H. apply andb_true_iff in H. destruct H as [_ H].
    destruct ps; discriminate.
  - intros H. apply andb_true_iff in H. destruct H as [H _].
    induction l as [|[k' y] l IH]; cbn [lookup]; [discriminate|].
    cbn [forallb snd] in H. apply andb_true_iff in H. destruct H as [Hy Hl].
    destruct (jstr_eqb k k'); [now intros [= <-]|now apply IH].
Qed.

Lemma json_array_plain (es : list JVal) (ps : list (jstring * JVal)) :
  json_data (JArr es ps) = true -> ps = [].
Proof.
  cbn [json_data]. intros H. apply andb_true_iff in H. destruct H as [_ H].
  now destruct ps.
Qed.

Section ComparisonAnswers.

Variable stack : exn -> jstring.

(** Data of the shape the validation accepts is passed on as it is. *)
Lemma complete_answer (d : JVal) (cc tc cr tr : jstring) :
  complete_shape d cc tc cr tr ->
  json_data d = true ->
  chain (get d (str "_meta")) (str "isComplete") <> Some (JBool false) ->
  comparison_response stack (Ok d) = MkResponse 200 d.
Proof.
  intros ((comparison & cur & tgt & Hcsc & Hcur & (_ & c1 & cs1 & ps1 & Ht1 & Hall1)
           & Htgt & (_ & c2 & cs2 & ps2 & Ht2 & Hall2))
          & (roles & rcur & rtgt & Hroles & Hrcur & (Htitle1 & _)
             & Hrtgt & (Htitle2 & _) & _)
          & (analysis & Hanalysis & _ & _ & Hrec)) Hjson Hmeta.
  unfold comparison_response.
  rewrite (truthy_of_get _ _ _ Hcsc). cbn [negb]. unfold answer.
  rewrite (has_cities_nonempty _ _ _ _ _ _ _ Hcsc Hcur Ht1),
    (has_cities_nonempty _ _ _ _ _ _ _ Hcsc Htgt Ht2).
  cbn [bind].
  assert (Hplain : forall country cities ps k,
             get comparison k = Some country ->
             get country (str "topCities") = Some (JArr cities ps) ->
             lookup (str "forEach") ps = None).
  { intros country cities ps k Hk Ht.
    pose proof (json_get _ _ _ (json_get _ _ _ (json_get _ _ _ Hjson Hcsc) Hk)
                         Ht) as Harr.
    now rewrite (json_array_plain _ _ Harr). }
  rewrite (repair_country_ready _ _ _ _ _ _ true Hcsc Hcur Ht1
             (Hplain _ _ _ _ Hcur Ht1) Hall1).
  cbn [bind fst snd].
  rewrite (repair_country_ready _ _ _ _ _ _ true Hcsc Htgt Ht2
             (Hplain _ _ _ _ Htgt Ht2) Hall2).
  cbn [bind fst snd negb andb orb].
  rewrite Hroles, (chain_get _ _ _ Hrcur), (chain_get _ _ _ Hrtgt), Hanalysis.
  unfold and_value. cbn [truthy_opt].
  rewrite (truthy_of_get _ _ _ Htitle1). cbn [truthy_opt].
  rewrite (truthy_of_get _ _ _ Htitle2).
  assert (Ha : truthy analysis = true).
  { destruct (get analysis (str "recommendation")) as [rec|] eqn:E;
      [|discriminate Hrec]. eapply truthy_of_get; eassumption. }
  rewrite Ha. cbn [negb orb].
  destruct (chain (get d (str "_meta")) (str "isComplete"))
    as [[|[|]| | | |]|]; try reflexivity.
  now elim Hmeta.
Qed.

(** Data marked incomplete is answered with 207 and the partial [_meta],
    unless the repair throws. *)
Lemma incomplete_answer (d : JVal) :
  chain (get d (str "_meta")) (str "isComplete") = Some (JBool false) ->
  (exists e, comparison_response stack (Ok d) = failure stack e)
  \/ (exists d' hasCurrent hasTarget hasRole hasSalary valid,
         comparison_response stack (Ok d)
         = MkResponse 207
             (JObj (assign (str "_meta")
                      (partial_meta hasCurrent hasTarget hasRole hasSalary
                                    valid)
                      (spread d')))).
Proof.
  intros Hmeta. unfold comparison_response.
  assert (Htruthy : truthy d = true).
  { destruct (get d (str "_meta")) as [m|] eqn:E; [|discriminate Hmeta].
    eapply truthy_of_get; eassumption. }
  rewrite Htruthy. cbn [negb].
  destruct (answer d) as [r|e] eqn:Ha; [|left; now exists e].
  right. unfold answer in Ha.
  destruct (has_cities d (str "currentCountry")) as [hc|]; [|discriminate].
  destruct (has_cities d (str "targetCountry")) as [ht|]; [|discriminate].
  cbn [bind] in Ha.
  set (r1 := if hc then repair_country (str "currentCountry") d true
             else Ok (d, true)) in Ha.
  assert (H1 : forall x, r1 = Ok x -> get (fst x) (str "_meta")
                                      = get d (str "_meta")).
  { intros [d1 v1]. subst r1. destruct hc.
    - intros E. eapply repair_country_frame; [exact E|discriminate].
    - now intros [= <- <-]. }
  destruct r1 as [x1|]; [|discriminate]. cbn [bind] in Ha.
  specialize (H1 x1 eq_refl).
  set (r2 := if ht then repair_country (str "targetCountry") (fst x1) (snd x1)
             else Ok x1) in Ha.
  assert (H2 : forall x, r2 = Ok x -> get (fst x) (str "_meta")
                                      = get d (str "_meta")).
  { intros [d2 v2]. subst r2. destruct ht.
    - intros E. rewrite <- H1. eapply repair_country_frame;
        [exact E|discriminate].
    - now intros [= <-]. }
  destruct r2 as [x2|]; [|discriminate]. cbn [bind] in Ha.
  rewrite (H2 x2 eq_refl), Hmeta, !orb_true_r in Ha.
  injection Ha as <-. now eexists _, _, _, _, _, _.
Qed.

End ComparisonAnswers.

Lemma complete_shape_put_meta (v m : JVal) (cc tc cr tr : jstring) :
  complete_shape v cc tc cr tr ->
  complete_shape (put v (str "_meta") m) cc tc cr tr.
Proof.
  intros ((comparison & cur & tgt & Hcsc & H1)
          & (roles & rcur & rtgt & Hroles & H2)
          & (analysis & Hanalysis & H3)).
  split; [|split].
  - exists comparison, cur, tgt.
    rewrite get_put_other by discriminate. now split.
  - exists roles, rcur, rtgt.
    rewrite get_put_other by discriminate. now split.
  - exists analysis. rewrite get_put_other by discriminate. now split.
Qed.

(** X21: data that [generateComparisonInsights] returns marked complete
    (its [_meta.isComplete] is [true]) and that is JSON data, as every
    parsed value is, is answered by the controller with status 200 and
    is the body of the answer, unchanged. *)
Theorem X21_complete_result_answered_200_unchanged
        (JSON5_parse : jstring -> result JVal)
        (jsonrepair : jstring -> result jstring)
        (syntax_error_message : jstring -> jstring)
        (GEMINI_API_KEY : bool)
        (generateContent : nat -> result jstring)
        (now : jstring) (u : UserData) (stack : exn -> jstring)
        (d : JVal) (n : nat) :
  generateComparisonInsights JSON5_parse jsonrepair syntax_error_message
                             GEMINI_API_KEY generateContent now u
  = (Ok d, n) ->
  chain (get d (str "_meta")) (str "isComplete") = Some (JBool true) ->
  json_data d = true ->
  comparison_response stack (Ok d) = MkResponse 200 d.
Proof.
  unfold generateComparisonInsights.
  destruct GEMINI_API_KEY; cbn [negb]; [|discriminate].
  fold (final JSON5_parse jsonrepair syntax_error_message generateContent u).
  intros [= Hfinish _] Hcomplete Hjson.
  destruct (final_facts JSON5_parse jsonrepair syntax_error_message
              generateContent u) as [Hinv _].
  destruct (finish_returns JSON5_parse jsonrepair syntax_error_message
              generateContent now u _ d Hinv Hfinish)
    as (Hobj & Hmeta & _).
  rewrite Hmeta in Hcomplete.
  assert (Hc : complete (final JSON5_parse jsonrepair syntax_error_message
                               generateContent u) = true)
    by (destruct (complete _); [reflexivity|discriminate Hcomplete]).
  destruct Hinv as (_ & _ & Hshape & _). specialize (Hshape Hc).
  unfold finish in Hfinish. rewrite Hc in Hfinish.
  cbn [negb bind] in Hfinish. rewrite set_put in Hfinish by assumption.
  injection Hfinish as <-.
  eapply complete_answer.
  - apply complete_shape_put_meta. eassumption.
  - assumption.
  - rewrite get_put_same by assumption. discriminate.
Qed.

Definition sample_complete_data : JVal :=
  let country :=
    JObj [(str "name", JStr (str "US"));
          (str "topCities",
           JArr [JObj [(str "city", JStr (str "Austin"));
                       (str "rolesSalaries", JArr [] [])]] [])] in
  let role :=
    JObj [(str "title", JStr (str "Software Developer"));
          (str "requiredSkills", JArr [JStr (str "SQL")] [])] in
  JObj [(str "countrySalaryComparison",
         JObj [(str "currentCountry", country);
               (str "targetCountry", country)]);
        (str "roleComparison",
         JObj [(str "currentRole", role); (str "targetRole", role);
               (str "skillGaps", JArr [] []);
               (str "transferableSkills", JArr [] [])]);
        (str "salaryExpectationAnalysis",
         JObj [(str "isRealistic", JBool true);
               (str "percentile", JInt 50);
               (str "recommendation", JStr (str "Negotiate"))])].

Definition sample_complete_result : JVal :=
  Eval vm_compute in
    put sample_complete_data (str "_meta")
        (JObj [(str "generatedAt", JStr (str "2025-01-01T00:00:00.000Z"));
               (str "source", JStr (str "Gemini AI"));
               (str "attempts", JInt 1);
               (str "isComplete", JBool true)]).

Lemma X21_witness :
  comparison_response (fun _ => []) (Ok sample_complete_result)
  = MkResponse 200 sample_complete_result.
Proof.
  apply (X21_complete_result_answered_200_unchanged rejecting_JSON5
           rejecting_jsonrepair fixed_message true
           (fun _ => Ok (stringify sample_complete_data))
           (str "2025-01-01T00:00:00.000Z") no_user_data (fun _ => [])
           sample_complete_result 1);
    vm_compute; reflexivity.
Defined.

(** X22: data whose [_meta.isComplete] is [false] is never answered with
    status 200: the answer is a 500, or a 207 whose body carries a new
    [_meta] with status "partial" in place of the one received. *)
Theorem X22_incomplete_data_never_answered_200
        (stack : exn -> jstring) (d : JVal) :
  chain (get d (str "_meta")) (str "isComplete") = Some (JBool false) ->
  status (comparison_response stack (Ok d)) = 500
  \/ (status (comparison_response stack (Ok d)) = 207
      /\ chain (get (body (comparison_response stack (Ok d))) (str "_meta"))
               (str "status") = Some (JStr (str "partial"))
      /\ chain (get (body (comparison_response stack (Ok d))) (str "_meta"))
               (str "isComplete") = None).
Proof.
  intros Hmeta.
  destruct (incomplete_answer stack d Hmeta)
    as [[e ->]|(d' & hc & ht & hr & hs & v & ->)]; [now left|right].
  cbn [status body get]. rewrite lookup_assign_same.
  split; [reflexivity|]. split; [reflexivity|].
  destruct hr; reflexivity.
Qed.

Lemma X22_witness :
  status (comparison_response (fun _ => []) (Ok sample_partial_result)) = 500
  \/ (status (comparison_response (fun _ => []) (Ok sample_partial_result))
      = 207
      /\ chain (get (body (comparison_response (fun _ => [])
                                               (Ok sample_partial_result)))
                    (str "_meta"))
               (str "status") = Some (JStr (str "partial"))
      /\ chain (get (body (comparison_response (fun _ => [])
                                               (Ok sample_partial_result)))
                    (str "_meta"))
               (str "isComplete") = None).
Proof.
  apply (X22_incomplete_data_never_answered_200 (fun _ => [])
           sample_partial_result).
  vm_compute. reflexivity.
Defined.

Example partial_answer_sample :
  status (comparison_response (fun _ => []) (Ok sample_partial_result)) = 207.
Proof. vm_compute. reflexivity. Qed.

(** X23: an answer with status 200 is given only to a fulfilled call whose
    data passed every check of the controller: cities for at least one of
    the two countries, both roles, the salary analysis, and no
    [_meta.isComplete] equal to [false]; the body is that data unchanged,
    no city having needed a repair. *)
Theorem X23_status_200_only_for_checked_data
        (stack : exn -> jstring) (outcome : result JVal) :
  status (comparison_response stack outcome) = 200 ->
  exists d,
    outcome = Ok d
    /\ body (comparison_response stack outcome) = d
    /\ (has_cities d (str "currentCountry") = Ok true
        \/ has_cities d (str "targetCountry") = Ok true)
    /\ truthy_opt (chain (get d (str "roleComparison")) (str "currentRole"))
       = true
    /\ truthy_opt (chain (get d (str "roleComparison")) (str "targetRole"))
       = true
    /\ truthy_opt (get d (str "salaryExpectationAnalysis")) = true
    /\ chain (get d (str "_meta")) (str "isComplete") <> Some (JBool false).
Proof.
  destruct outcome as [d|e]; [|discriminate]. unfold comparison_response.
  destruct (truthy d); cbn [negb]; [|discriminate].
  destruct (answer d) as [r|e] eqn:Ha; [|discriminate].
  intros Hstatus. exists d. split; [reflexivity|].
  unfold answer in Ha.
  destruct (has_cities d (str "currentCountry")) as [hc|]; [|discriminate].
  destruct (has_cities d (str "targetCountry")) as [ht|]; [|discriminate].
  cbn [bind] in Ha.
  destruct (if hc then repair_country (str "currentCountry") d true
            else Ok (d, true)) as [[d1 v1]|] eqn:E1; [|discriminate].
  cbn [bind fst snd] in Ha.
  destruct (if ht then repair_country (str "targetCountry") d1 v1
            else Ok (d1, v1)) as [[d2 v2]|] eqn:E2; [|discriminate].
  cbn [bind fst snd] in Ha.
  match type of Ha with (if ?b then _ else _) = _ => destruct b eqn:Hb end;
    injection Ha as <-; [discriminate Hstatus|].
  apply orb_false_iff in Hb. destruct Hb as [Hb Hmeta].
  apply orb_false_iff in Hb. destruct Hb as [Hb Hvalid].
  apply orb_false_iff in Hb. destruct Hb as [Hb Hsalary].
  apply orb_false_iff in Hb. destruct Hb as [Hcities Hroles].
  apply negb_false_iff in Hvalid, Hsalary, Hroles. subst v2.
  assert (H2 : v1 = true /\ d2 = d1).
  { destruct ht; [now apply (repair_country_valid _ _ _ _ E2)|].
    injection E2 as <- <-. auto. }
  destruct H2 as [-> ->].
  assert (H1 : d1 = d).
  { destruct hc; [now apply (repair_country_valid _ _ _ _ E1)|].
    now injection E1 as <-. }
  subst d1. cbn [body]. split; [reflexivity|]. split.
  { destruct hc; [now left|]. destruct ht; [now right|discriminate]. }
  unfold and_value in Hroles.
  destruct (truthy_opt (chain (get d (str "roleComparison"))
                              (str "currentRole"))) eqn:Hcur;
    [|rewrite Hcur in Hroles; discriminate].
  split; [reflexivity|]. split; [assumption|]. split; [assumption|].
  intros E. rewrite E in Hmeta. discriminate.
Qed.

Lemma X23_witness :
  exists d,
    Ok sample_complete_result = Ok d
    /\ body (comparison_response (fun _ => []) (Ok sample_complete_result))
       = d
    /\ (has_cities d (str "currentCountry") = Ok true
        \/ has_cities d (str "targetCountry") = Ok true)
    /\ truthy_opt (chain (get d (str "roleComparison")) (str "currentRole"))
       = true
    /\ truthy_opt (chain (get d (str "roleComparison")) (str "targetRole"))
       = true
    /\ truthy_opt (get d (str "salaryExpectationAnalysis")) = true
    /\ chain (get d (str "_meta")) (str "isComplete") <> Some (JBool false).
Proof.
  apply (X23_status_200_only_for_checked_data (fun _ => [])
           (Ok sample_complete_result)).
  vm_compute. reflexivity.
Defined.
